(** * Blocks-storage configuration (package tsdb, config.go)

    A shallow embedding of the configuration types of the blocks storage,
    of their validators and of the [DurationList] flag value, with the
    functions of Go's packages strings and time that [DurationList] calls,
    followed by their properties: what each check of the validators
    accepts and refuses, in which order, what the validators leave
    untouched, and the round trip of a [DurationList] through its string
    form; then the methods that register the flags, the blocks directory
    of a user with the functions of Go's package path/filepath that it
    calls, and how [Set], [RegisterFlags] and [Validate] compose. *)

From Stdlib Require Import ZArith List String Ascii Bool Lia Sorted.
From Stdlib Require Import DecimalString Uint63.
From Stdlib Require Import PrimFloat FloatOps SpecFloat FloatAxioms.
Import ListNotations.

Local Open Scope string_scope.
Local Open Scope Z_scope.

(* ================================================================== *)
(** * Go base types *)

(** Go's [int] on the 64-bit platforms the ingester is built for: a value
    in [minInt, maxInt], with arithmetic wrapping around modulo [2^64]. *)
Module GoInt.

Definition intSize : Z := 64.
Definition minInt : Z := - 2 ^ (intSize - 1).
Definition maxInt : Z := 2 ^ (intSize - 1) - 1.

Definition InRange (z : Z) : Prop := minInt <= z <= maxInt.

(** Two's complement reduction of a mathematical result. *)
Definition wrap (z : Z) : Z :=
  (z + 2 ^ (intSize - 1)) mod 2 ^ intSize - 2 ^ (intSize - 1).

Definition sub (x y : Z) : Z := wrap (x - y).

(** [x & y] *)
Definition and (x y : Z) : Z := Z.land x y.

(** [x % y]: the remainder of the division truncated towards zero. *)
Definition rem (x y : Z) : Z := Z.rem x y.

End GoInt.

(** Package time: a [Duration] is an int64 count of nanoseconds. *)
Module time.

Abbreviation Duration := Z (only parsing).

Definition Nanosecond : Duration := 1.
Definition Microsecond : Duration := 1000 * Nanosecond.
Definition Millisecond : Duration := 1000 * Microsecond.
Definition Second : Duration := 1000 * Millisecond.
Definition Minute : Duration := 60 * Second.
Definition Hour : Duration := 60 * Minute.

End time.

(** Package units (alecthomas/units). *)
Module units.
Definition Gibibyte : Z := 2 ^ 30.
End units.

(* ================================================================== *)
(** * Errors *)

(** An error value of package github.com/pkg/errors: either created from a
    message ([errors.New], [errors.Errorf]) or an error wrapped with a
    message ([errors.Wrap]). *)
Inductive error : Type :=
| fundamental (msg : string)
| withMessage (cause : error) (msg : string).

Module errors.

Definition New (msg : string) : error := fundamental msg.

Definition Wrap (err : error) (message : string) : error :=
  withMessage err message.

(** The [Error()] method. *)
Fixpoint Error (e : error) : string :=
  match e with
  | fundamental msg => msg
  | withMessage cause msg => msg ++ ": " ++ Error cause
  end.

End errors.

(** The verb [%d] of package fmt on an integer. *)
Definition fmt_d (z : Z) : string := NilZero.string_of_int (Z.to_int z).

(* ================================================================== *)
(** * Methods with a pointer receiver

    A method [func (r *S) m() A] reads and may write the fields of its
    receiver: it is a computation from the receiver's state before the call
    to a result and the receiver's state after it. *)

Definition Method (S A : Type) : Type := S -> A * S.

Definition ret {S A : Type} (a : A) : Method S A := fun s => (a, s).

Definition bind {S A B : Type} (m : Method S A) (k : A -> Method S B)
  : Method S B :=
  fun s => let (a, s') := m s in k a s'.

(** Reading a field through the receiver. *)
Definition load {S A : Type} (field : S -> A) : Method S A :=
  fun s => (field s, s).

(** Assigning through the receiver. *)
Definition store {S : Type} (upd : S -> S) : Method S unit :=
  fun s => (tt, upd s).

Definition result {S A : Type} (m : Method S A) (s : S) : A := fst (m s).
Definition after {S A : Type} (m : Method S A) (s : S) : S := snd (m s).

Declare Scope method_scope.
Delimit Scope method_scope with method.
Notation "x <- m ;; k" := (bind m (fun x => k))
  (at level 61, m at next level, right associativity) : method_scope.
Notation "m ;;; k" := (bind m (fun _ => k))
  (at level 61, right associativity) : method_scope.

(** [if cond { return err }] followed by the rest of the body. *)
Definition failing_if {S : Type} (cond : bool) (err : error)
  (rest : Method S (option error)) : Method S (option error) :=
  if cond then ret (Some err) else rest.

Notation "'IF' c 'RETURN' e ; k" := (failing_if c e k)
  (at level 61, c at level 99, e at level 9, right associativity)
  : method_scope.

(* ================================================================== *)
(** * Validation errors *)

Definition errInvalidShipConcurrency : error :=
  errors.New "invalid TSDB ship concurrency".
Definition errInvalidOpeningConcurrency : error :=
  errors.New "invalid TSDB opening concurrency".
Definition errInvalidCompactionInterval : error :=
  errors.New "invalid TSDB compaction interval".
Definition errInvalidCompactionConcurrency : error :=
  errors.New "invalid TSDB compaction concurrency".
Definition errInvalidWALSegmentSizeBytes : error :=
  errors.New "invalid TSDB WAL segment size bytes".
Definition errInvalidStripeSize : error :=
  errors.New "invalid TSDB stripe size".
Definition errInvalidStreamingBatchSize : error :=
  errors.New "invalid store-gateway streaming batch size".
Definition errEmptyBlockranges : error :=
  errors.New "empty block ranges for TSDB".

Definition consistencyDelayFlag : string :=
  "blocks-storage.bucket-store.consistency-delay".

(** Constants of the Prometheus packages tsdb/chunks and tsdb/wlog that
    the configuration refers to; their values are fixed by the vendored
    Prometheus, not by this package. *)
Class PrometheusConsts : Type := {
  chunks_MinWriteBufferSize : Z;
  chunks_MaxWriteBufferSize : Z;
  chunks_DefaultWriteBufferSize : Z;
  wlog_DefaultSegmentSize : Z
}.

(** The values of Prometheus's tsdb/chunks/chunk_write_queue and
    tsdb/wlog: 64 KiB, 8 MiB, 4 MiB and 128 MiB. *)
Definition prometheus : PrometheusConsts := {|
  chunks_MinWriteBufferSize := 64 * 1024;
  chunks_MaxWriteBufferSize := 8 * 1024 * 1024;
  chunks_DefaultWriteBufferSize := 4 * 1024 * 1024;
  wlog_DefaultSegmentSize := 128 * 1024 * 1024
|}.

(* ================================================================== *)
(** * TSDBConfig *)

Module TSDBConfig.

Record t : Type := mk {
  Dir : string;
  BlockRanges : list time.Duration;
  Retention : time.Duration;
  ShipInterval : time.Duration;
  ShipConcurrency : Z;
  HeadCompactionInterval : time.Duration;
  HeadCompactionConcurrency : Z;
  HeadCompactionIdleTimeout : time.Duration;
  HeadChunksWriteBufferSize : Z;
  HeadChunksEndTimeVariance : float;
  StripeSize : Z;
  WALCompressionEnabled : bool;
  WALSegmentSizeBytes : Z;
  FlushBlocksOnShutdown : bool;
  CloseIdleTSDBTimeout : time.Duration;
  MemorySnapshotOnShutdown : bool;
  HeadChunksWriteQueueSize : Z;
  SeriesHashCacheMaxBytes : Z;
  MaxTSDBOpeningConcurrencyOnStartup : Z;
  KeepUserTSDBOpenOnShutdown : bool;
  CloseIdleTSDBInterval : time.Duration;
  OutOfOrderCapacityMax : Z;
  HeadPostingsForMatchersCacheTTL : time.Duration;
  HeadPostingsForMatchersCacheSize : Z;
  HeadPostingsForMatchersCacheForce : bool
}.

(** The zero value of the struct. *)
Definition zero : t :=
  mk "" [] 0 0 0 0 0 0 0 0%float 0 false 0 false 0 false 0 0 0 false 0 0
     0 0 false.

Section WithPrometheus.
Context {prom : PrometheusConsts}.

Local Open Scope method_scope.

(** The message built by [errors.Errorf] for the write buffer size. *)
Definition errWriteBufferSize : error :=
  errors.New
    ("head chunks write buffer size must be a multiple of 1024 between "
       ++ fmt_d chunks_MinWriteBufferSize ++ " and "
       ++ fmt_d chunks_MaxWriteBufferSize)%string.

(** [func (cfg *TSDBConfig) Validate() error] *)
Definition Validate : Method t (option error) :=
  shipInterval <- load ShipInterval ;;
  shipConcurrency <- load ShipConcurrency ;;
  IF (shipInterval >? 0) && (shipConcurrency <=? 0)
  RETURN errInvalidShipConcurrency ;

  openingConcurrency <- load MaxTSDBOpeningConcurrencyOnStartup ;;
  IF openingConcurrency <=? 0
  RETURN errInvalidOpeningConcurrency ;

  interval <- load HeadCompactionInterval ;;
  IF (interval <=? 0) || (interval >? 15 * time.Minute)
  RETURN errInvalidCompactionInterval ;

  compactionConcurrency <- load HeadCompactionConcurrency ;;
  IF compactionConcurrency <=? 0
  RETURN errInvalidCompactionConcurrency ;

  bufferSize <- load HeadChunksWriteBufferSize ;;
  IF (bufferSize <? chunks_MinWriteBufferSize)
     || (bufferSize >? chunks_MaxWriteBufferSize)
     || negb (GoInt.rem bufferSize 1024 =? 0)
  RETURN errWriteBufferSize ;

  stripeSize <- load StripeSize ;;
  IF (stripeSize <=? 1)
     || negb (GoInt.and stripeSize (GoInt.sub stripeSize 1) =? 0)
  RETURN errInvalidStripeSize ;

  blockRanges <- load BlockRanges ;;
  IF (List.length blockRanges =? 0)%nat
  RETURN errEmptyBlockranges ;

  walSegmentSize <- load WALSegmentSizeBytes ;;
  IF walSegmentSize <=? 0
  RETURN errInvalidWALSegmentSizeBytes ;

  ret None.

(** [func (cfg *TSDBConfig) RegisterFlags(f *flag.FlagSet)], as far as
    the receiver goes: the block ranges get their default when none is
    set, and every [f.XxxVar(&cfg.Field, name, value, usage)] stores
    the flag's default [value] in the field. The two fields without a
    flag keep their value. *)
Definition RegisterFlags : Method t unit :=
  store (fun cfg => {|
    Dir := "./tsdb/";
    BlockRanges :=
      if (List.length (BlockRanges cfg) =? 0)%nat then [2 * time.Hour]
      else BlockRanges cfg;
    Retention := 13 * time.Hour;
    ShipInterval := 1 * time.Minute;
    ShipConcurrency := 10;
    HeadCompactionInterval := 1 * time.Minute;
    HeadCompactionConcurrency := 1;
    HeadCompactionIdleTimeout := 1 * time.Hour;
    HeadChunksWriteBufferSize := chunks_DefaultWriteBufferSize;
    HeadChunksEndTimeVariance := 0%float;
    StripeSize := 16384;
    WALCompressionEnabled := false;
    WALSegmentSizeBytes := wlog_DefaultSegmentSize;
    FlushBlocksOnShutdown := false;
    CloseIdleTSDBTimeout := 13 * time.Hour;
    MemorySnapshotOnShutdown := false;
    HeadChunksWriteQueueSize := 1000000;
    SeriesHashCacheMaxBytes := 1 * units.Gibibyte;
    MaxTSDBOpeningConcurrencyOnStartup := 10;
    KeepUserTSDBOpenOnShutdown := KeepUserTSDBOpenOnShutdown cfg;
    CloseIdleTSDBInterval := CloseIdleTSDBInterval cfg;
    OutOfOrderCapacityMax := 32;
    HeadPostingsForMatchersCacheTTL := 10 * time.Second;
    HeadPostingsForMatchersCacheSize := 100;
    HeadPostingsForMatchersCacheForce := false
  |}).

End WithPrometheus.

(** [func (cfg *TSDBConfig) IsBlocksShippingEnabled() bool] *)
Definition IsBlocksShippingEnabled : Method t bool :=
  bind (load ShipInterval) (fun shipInterval => ret (shipInterval >? 0)).

End TSDBConfig.


(* ================================================================== *)
(** * Packages strings and time of the Go standard library *)

(** The numeric value of a byte. *)
Definition byte_val (c : ascii) : Z := Z.of_N (N_of_ascii c).

(** The byte with a given value in [0, 255]. *)
Definition byte_of (z : Z) : ascii := ascii_of_N (Z.to_N z).

Definition is_digit (c : ascii) : bool :=
  negb ((byte_val c <? byte_val "0") || (byte_val c >? byte_val "9")).

Module strings.

(** [strings.Join(elems, sep)] *)
Fixpoint Join (elems : list string) (sep : string) : string :=
  match elems with
  | [] => ""
  | [e] => e
  | e :: rest => e ++ sep ++ Join rest sep
  end.

(** [s[n:]] *)
Fixpoint drop (n : nat) (s : string) : string :=
  match n, s with
  | O, _ => s
  | S n', String _ s' => drop n' s'
  | S _, EmptyString => EmptyString
  end.

(** The loop of [genSplit]: at most [n] separators are looked for; each
    one found ends an element, and what is left of [s] is the last. *)
Fixpoint genSplit (n : nat) (s sep : string) : list string :=
  match n with
  | O => [s]
  | S n' =>
      match String.index 0 sep s with
      | None => [s]
      | Some m =>
          String.substring 0 m s
            :: genSplit n' (drop (m + String.length sep) s) sep
      end
  end.

(** [strings.Split(s, sep)] for a separator that is not empty: the
    substrings of [s] between the occurrences of [sep], at most
    [len(s) + 1] of them. With an empty separator Go explodes [s] into its
    UTF-8 sequences; no caller in this package does that, and the case is
    left out of the model ([s] is returned whole). *)
Definition Split (s sep : string) : list string :=
  match sep with
  | EmptyString => [s]
  | _ => genSplit (String.length s) s sep
  end.

End strings.

(** What [DurationList] needs of package time: the [String] method of a
    [Duration] and [ParseDuration]. *)
Class TimePkg : Type := {
  Duration_String : time.Duration -> string;
  ParseDuration : string -> time.Duration + error
}.

(** The two functions as the Go standard library defines them
    (time/time.go and time/format.go): [String] prints the magnitude as a
    uint64 from the last byte of a buffer backwards, [ParseDuration]
    accumulates the terms in a uint64 with its overflow checks and
    computes the fraction of a term in float64. *)
Module gotime.

Definition uint64 (z : Z) : Z := z mod 2 ^ 64.
Definition int64 (z : Z) : Z := (z + 2 ^ 63) mod 2 ^ 64 - 2 ^ 63.

(** The digit byte [byte(d) + '0']. *)
Definition digit_byte (d : Z) : ascii := byte_of (d + byte_val "0").

(** [fmtInt]: the decimal digits of [v] are written in front of [buf]. A
    uint64 has at most 20 of them, which bounds the loop. *)
Fixpoint fmtInt_loop (fuel : nat) (buf : string) (v : Z) : string :=
  match fuel with
  | O => buf
  | S fuel' =>
      if v >? 0
      then fmtInt_loop fuel' (String (digit_byte (v mod 10)) buf) (v / 10)
      else buf
  end.

Definition fmtInt (buf : string) (v : Z) : string :=
  if v =? 0 then String "0" buf else fmtInt_loop 20 buf v.

(** [fmtFrac]: the fraction of [v / 10^prec] is written in front of
    [buf], without its trailing zeros, and without the decimal point when
    the fraction is zero; the second result is [v / 10^prec]. *)
Fixpoint fmtFrac_loop (prec : nat) (buf : string) (v : Z) (print : bool)
  : string * Z * bool :=
  match prec with
  | O => (buf, v, print)
  | S prec' =>
      let digit := v mod 10 in
      let print := print || negb (digit =? 0) in
      let buf := if print then String (digit_byte digit) buf else buf in
      fmtFrac_loop prec' buf (v / 10) print
  end.

Definition fmtFrac (buf : string) (v : Z) (prec : nat) : string * Z :=
  let '(buf, v, print) := fmtFrac_loop prec buf v false in
  (if print then String "." buf else buf, v).

(** The micro sign U+00B5 in UTF-8, and the Greek letter mu U+03BC. *)
Definition micro_sign : string :=
  String (byte_of 194) (String (byte_of 181) EmptyString).
Definition greek_mu : string :=
  String (byte_of 206) (String (byte_of 188) EmptyString).

(** [func (d Duration) String() string], with [format] inlined: the
    buffer is filled from its end. *)
Definition String (d : time.Duration) : string :=
  let u := uint64 d in
  let neg := d <? 0 in
  let u := if neg then uint64 (- u) else u in
  if u <? time.Second then
    if u =? 0 then "0s"
    else
      let '(prec, buf) :=
        if u <? time.Microsecond then (0%nat, "ns")
        else if u <? time.Millisecond then (3%nat, micro_sign ++ "s")
        else (6%nat, "ms") in
      let '(buf, u) := fmtFrac buf u prec in
      let buf := fmtInt buf u in
      if neg then String.String "-" buf else buf
  else
    let '(buf, u) := fmtFrac "s" u 9 in
    let buf := fmtInt buf (u mod 60) in
    let u := u / 60 in
    let buf :=
      if u >? 0 then
        let buf := fmtInt (String.String "m" buf) (u mod 60) in
        let u := u / 60 in
        if u >? 0 then fmtInt (String.String "h" buf) u else buf
      else buf in
    if neg then String.String "-" buf else buf.

(** [float64(x)] for a uint64 [x]: rounded to the nearest float; from
    [2^63] on the value is halved with a sticky last bit, converted and
    doubled, which rounds the same way. *)
Definition float64_of_uint64 (x : Z) : float :=
  if x <? 2 ^ 63 then PrimFloat.of_uint63 (Uint63.of_Z x)
  else
    PrimFloat.mul
      (PrimFloat.of_uint63 (Uint63.of_Z (Z.lor (Z.shiftr x 1) (Z.land x 1))))
      2%float.

(** [uint64(x)] for a float [x] that is finite and not negative: the
    fractional part is discarded. Other values do not occur where
    [ParseDuration] converts, and are mapped to 0. *)
Definition uint64_of_float64 (x : float) : Z :=
  match Prim2SF x with
  | S754_finite false m e =>
      uint64 (if 0 <=? e then Z.pos m * 2 ^ e else Z.pos m / 2 ^ (- e))
  | _ => 0
  end.

Definition lowerhex (z : Z) : ascii :=
  if z <? 10 then byte_of (z + byte_val "0")
  else byte_of (z - 10 + byte_val "a").

Definition backslash : ascii := byte_of 92.
Definition double_quote : ascii := byte_of 34.

(** [quote]: the string between double quotes; a double quote or a
    backslash is escaped with a backslash, and every byte of a character
    that is not printable ASCII is written [\xHH]. *)
Fixpoint quote_bytes (s : string) : string :=
  match s with
  | EmptyString => String.String double_quote EmptyString
  | String.String c rest =>
      let b := byte_val c in
      if (b >=? 128) || (b <? byte_val " ") then
        String.String backslash
          (String.String "x"
             (String.String (lowerhex (Z.shiftr b 4))
                (String.String (lowerhex (Z.land b 15)) (quote_bytes rest))))
      else if Ascii.eqb c double_quote || Ascii.eqb c backslash then
        String.String backslash (String.String c (quote_bytes rest))
      else String.String c (quote_bytes rest)
  end.

Definition quote (s : string) : string :=
  String.String double_quote (quote_bytes s).

(** [leadingInt]: the value of the leading digits of [s] and the rest of
    [s], or [None] when the value overflows. *)
Fixpoint leadingInt_loop (x : Z) (s : string) : option (Z * string) :=
  match s with
  | EmptyString => Some (x, s)
  | String.String c rest =>
      if negb (is_digit c) then Some (x, s)
      else if x >? 2 ^ 63 / 10 then None
      else
        let x := uint64 (x * 10 + byte_val c - byte_val "0") in
        if x >? 2 ^ 63 then None else leadingInt_loop x rest
  end.

Definition leadingInt (s : string) : option (Z * string) :=
  leadingInt_loop 0 s.

(** [leadingFraction]: the leading digits of [s] as a numerator and a
    scale; digits past the precision of a uint64 are skipped. *)
Fixpoint leadingFraction_loop (x : Z) (scale : float) (overflow : bool)
  (s : string) : Z * float * string :=
  match s with
  | EmptyString => (x, scale, s)
  | String.String c rest =>
      if negb (is_digit c) then (x, scale, s)
      else if overflow then leadingFraction_loop x scale overflow rest
      else if x >? (2 ^ 63 - 1) / 10
      then leadingFraction_loop x scale true rest
      else
        let y := uint64 (x * 10 + byte_val c - byte_val "0") in
        if y >? 2 ^ 63 then leadingFraction_loop x scale true rest
        else leadingFraction_loop y (PrimFloat.mul scale 10%float) overflow rest
  end.

Definition leadingFraction (s : string) : Z * float * string :=
  leadingFraction_loop 0 1%float false s.

(** The unit of a duration ends at the next period or digit. *)
Fixpoint unit_length (s : string) : nat :=
  match s with
  | EmptyString => O
  | String.String c rest =>
      if Ascii.eqb c "." || is_digit c then O else S (unit_length rest)
  end.

Definition unitMap (u : string) : option Z :=
  if String.eqb u "ns" then Some time.Nanosecond
  else if String.eqb u "us" then Some time.Microsecond
  else if String.eqb u (micro_sign ++ "s") then Some time.Microsecond
  else if String.eqb u (greek_mu ++ "s") then Some time.Microsecond
  else if String.eqb u "ms" then Some time.Millisecond
  else if String.eqb u "s" then Some time.Second
  else if String.eqb u "m" then Some time.Minute
  else if String.eqb u "h" then Some time.Hour
  else None.

Definition errInvalidDuration (orig : string) : error :=
  fundamental ("time: invalid duration " ++ quote orig).

Definition starts_with (p : ascii -> bool) (s : string) : bool :=
  match s with
  | EmptyString => false
  | String.String c _ => p c
  end.

(** The loop of [ParseDuration] over the terms of the duration (digits,
    an optional period and digits, a unit), as long as [s] is not empty;
    every term consumes at least one byte of [s], whose length bounds the
    number of iterations. *)
Fixpoint parse_terms (fuel : nat) (orig s : string) (d : Z) : Z + error :=
  match fuel with
  | O => inl d
  | S fuel' =>
      if String.eqb s "" then inl d
      else if negb (starts_with (fun c => Ascii.eqb c "." || is_digit c) s)
      then inr (errInvalidDuration orig)
      else
        let pl := String.length s in
        match leadingInt s with
        | None => inr (errInvalidDuration orig)
        | Some (v, s) =>
            let pre := negb (pl =? String.length s)%nat in
            let '(f, scale, s, post) :=
              if starts_with (fun c => Ascii.eqb c ".") s then
                let s := strings.drop 1 s in
                let pl := String.length s in
                let '(f, scale, s) := leadingFraction s in
                (f, scale, s, negb (pl =? String.length s)%nat)
              else (0, 1%float, s, false) in
            if negb pre && negb post then inr (errInvalidDuration orig)
            else
              let i := unit_length s in
              if (i =? 0)%nat
              then inr (fundamental
                          ("time: missing unit in duration " ++ quote orig))
              else
                let u := String.substring 0 i s in
                let s := strings.drop i s in
                match unitMap u with
                | None =>
                    inr (fundamental
                           ("time: unknown unit " ++ quote u
                              ++ " in duration " ++ quote orig))
                | Some unit =>
                    if v >? 2 ^ 63 / unit then inr (errInvalidDuration orig)
                    else
                      let v := uint64 (v * unit) in
                      let v :=
                        if f >? 0 then
                          uint64
                            (v + uint64_of_float64
                                   (PrimFloat.mul (float64_of_uint64 f)
                                      (PrimFloat.div (float64_of_uint64 unit)
                                         scale)))
                        else v in
                      if (f >? 0) && (v >? 2 ^ 63)
                      then inr (errInvalidDuration orig)
                      else
                        let d := uint64 (d + v) in
                        if d >? 2 ^ 63 then inr (errInvalidDuration orig)
                        else parse_terms fuel' orig s d
                end
        end
  end.

(** [func ParseDuration(s string) (Duration, error)] *)
Definition ParseDuration (s : string) : time.Duration + error :=
  let orig := s in
  let '(neg, s) :=
    match s with
    | String.String c rest =>
        if Ascii.eqb c "-" || Ascii.eqb c "+"
        then (Ascii.eqb c "-", rest) else (false, s)
    | EmptyString => (false, s)
    end in
  if String.eqb s "0" then inl 0
  else if String.eqb s "" then inr (errInvalidDuration orig)
  else
    match parse_terms (String.length s) orig s 0 with
    | inr err => inr err
    | inl d =>
        if neg then inl (int64 (- int64 d))
        else if d >? 2 ^ 63 - 1 then inr (errInvalidDuration orig)
        else inl (int64 d)
    end.

End gotime.

(** Package time as the Go standard library implements it. *)
Definition go_time : TimePkg := {|
  Duration_String := gotime.String;
  ParseDuration := gotime.ParseDuration
|}.

(* ================================================================== *)
(** * DurationList *)

Module DurationList.

(** [type DurationList []time.Duration] *)
Definition t : Type := list time.Duration.

Section WithTime.
Context {tm : TimePkg}.

Local Open Scope method_scope.

(** [func (d *DurationList) String() string] *)
Definition String : Method t string :=
  d <- load (fun d => d) ;;
  let values := map Duration_String d in
  ret (strings.Join values ",").

(** The loop of [Set] over the values: the first one that does not parse
    ends the method with its error, the others are appended. *)
Fixpoint Set_range (values : list string) : Method t (option error) :=
  match values with
  | [] => ret None
  | v :: rest =>
      match ParseDuration v with
      | inr err => ret (Some err)
      | inl t => store (fun d => (d ++ [t])%list) ;;; Set_range rest
      end
  end.

(** [func (d *DurationList) Set(s string) error] ([Set] is reserved). *)
Definition Set_ (s : string) : Method t (option error) :=
  let values := strings.Split s "," in
  store (fun _ => []) ;;;
  Set_range values.

End WithTime.

(** [func (d *DurationList) ToMilliseconds() []int64] *)
Definition ToMilliseconds : Method t (list Z) :=
  bind (load (fun d => d))
       (fun d => ret (map (fun t => Z.quot t 1000000) d)).

End DurationList.

(* ================================================================== *)
(** * BucketStoreConfig and BlocksStorageConfig *)

(** The collaborators of the two validators that live in other files and
    packages: the configuration of the bucket client, of the three caches
    and of the index-header reader with their own validators, each taken
    as a function of the configuration it checks, and the logger with the
    helper that warns about a deprecated flag. *)
Class Collaborators : Type := {
  bucket_Config : Type;
  IndexCacheConfig : Type;
  ChunksCacheConfig : Type;
  MetadataCacheConfig : Type;
  indexheader_Config : Type;
  Logger : Type;
  bucket_Config_Validate : bucket_Config -> option error;
  IndexCacheConfig_Validate : IndexCacheConfig -> option error;
  ChunksCacheConfig_Validate : ChunksCacheConfig -> option error;
  MetadataCacheConfig_Validate : MetadataCacheConfig -> option error;
  util_WarnDeprecatedConfig : string -> Logger -> Logger
}.

Module BucketIndexConfig.

Record t : Type := mk {
  Enabled : bool;
  UpdateOnErrorInterval : time.Duration;
  IdleTimeout : time.Duration;
  MaxStalePeriod : time.Duration
}.

End BucketIndexConfig.

(** [if err := call; err != nil { return wrap(err) }] followed by the rest
    of the body. *)
Definition failing_on {S : Type} (call : option error) (wrap : error -> error)
  (rest : Method S (option error)) : Method S (option error) :=
  match call with
  | Some err => ret (Some (wrap err))
  | None => rest
  end.

Notation "'CALL' c 'RETURN' w ; k" := (failing_on c w k)
  (at level 61, c at level 99, w at level 9, right associativity)
  : method_scope.

Module BucketStoreConfig.

Section WithCollaborators.
Context {ext : Collaborators}.

Record t : Type := mk {
  SyncDir : string;
  SyncInterval : time.Duration;
  MaxConcurrent : Z;
  TenantSyncConcurrency : Z;
  BlockSyncConcurrency : Z;
  MetaSyncConcurrency : Z;
  DeprecatedConsistencyDelay : time.Duration;
  IndexCache : IndexCacheConfig;
  ChunksCache : ChunksCacheConfig;
  MetadataCache : MetadataCacheConfig;
  IgnoreDeletionMarksDelay : time.Duration;
  BucketIndex : BucketIndexConfig.t;
  IgnoreBlocksWithin : time.Duration;
  MaxChunkPoolBytes : Z;
  ChunkPoolMinBucketSizeBytes : Z;
  ChunkPoolMaxBucketSizeBytes : Z;
  SeriesHashCacheMaxBytes : Z;
  IndexHeaderLazyLoadingEnabled : bool;
  IndexHeaderLazyLoadingIdleTimeout : time.Duration;
  PartitionerMaxGapBytes : Z;
  PostingOffsetsInMemSampling : Z;
  IndexHeader : indexheader_Config;
  StreamingBatchSize : Z
}.

Local Open Scope method_scope.

(** [func (cfg *BucketStoreConfig) Validate(logger log.Logger) error]; the
    state threaded through the body is the logger's. *)
Definition Validate (cfg : t) : Method Logger (option error) :=
  IF StreamingBatchSize cfg <=? 0
  RETURN errInvalidStreamingBatchSize ;

  CALL IndexCacheConfig_Validate (IndexCache cfg)
  RETURN (fun err => errors.Wrap err "index-cache configuration") ;

  CALL ChunksCacheConfig_Validate (ChunksCache cfg)
  RETURN (fun err => errors.Wrap err "chunks-cache configuration") ;

  CALL MetadataCacheConfig_Validate (MetadataCache cfg)
  RETURN (fun err => errors.Wrap err "metadata-cache configuration") ;

  (if DeprecatedConsistencyDelay cfg >? 0
   then store (util_WarnDeprecatedConfig consistencyDelayFlag)
   else ret tt) ;;;
  ret None.

End WithCollaborators.

End BucketStoreConfig.

Module BlocksStorageConfig.

Section WithCollaborators.
Context {prom : PrometheusConsts} {ext : Collaborators}.

Record t : Type := mk {
  Bucket : bucket_Config;
  BucketStore : BucketStoreConfig.t;
  TSDB : TSDBConfig.t
}.

Local Open Scope method_scope.

(** [func (cfg *BlocksStorageConfig) Validate(logger log.Logger) error];
    the state threaded through the body is the logger's. *)
Definition Validate (cfg : t) : Method Logger (option error) :=
  CALL bucket_Config_Validate (Bucket cfg)
  RETURN (fun err => err) ;

  CALL result TSDBConfig.Validate (TSDB cfg)
  RETURN (fun err => err) ;

  BucketStoreConfig.Validate (BucketStore cfg).

End WithCollaborators.

End BlocksStorageConfig.

(* ================================================================== *)
(** * The constraints of the configuration, as properties of the fields *)

(** A positive power of two other than 1. *)
Definition PowerOfTwoGt1 (n : Z) : Prop := exists k, 1 <= k /\ n = 2 ^ k.

Section Constraints.
Context {prom : PrometheusConsts}.
Variable cfg : TSDBConfig.t.

(** The ship concurrency is positive whenever shipping is enabled. *)
Definition ValidShipConcurrency : Prop :=
  TSDBConfig.ShipInterval cfg > 0 -> TSDBConfig.ShipConcurrency cfg > 0.

Definition ValidOpeningConcurrency : Prop :=
  TSDBConfig.MaxTSDBOpeningConcurrencyOnStartup cfg > 0.

Definition ValidCompactionInterval : Prop :=
  0 < TSDBConfig.HeadCompactionInterval cfg <= 15 * time.Minute.

Definition ValidCompactionConcurrency : Prop :=
  TSDBConfig.HeadCompactionConcurrency cfg > 0.

Definition ValidWriteBufferSize : Prop :=
  chunks_MinWriteBufferSize <= TSDBConfig.HeadChunksWriteBufferSize cfg
    <= chunks_MaxWriteBufferSize
  /\ (1024 | TSDBConfig.HeadChunksWriteBufferSize cfg).

Definition ValidStripeSize : Prop :=
  PowerOfTwoGt1 (TSDBConfig.StripeSize cfg).

Definition ValidBlockRanges : Prop := TSDBConfig.BlockRanges cfg <> [].

Definition ValidWALSegmentSize : Prop :=
  TSDBConfig.WALSegmentSizeBytes cfg > 0.

(** The fields checked before the compaction interval, before the write
    buffer size, before the stripe size and before the block ranges. *)
Definition ValidBeforeCompactionInterval : Prop :=
  ValidShipConcurrency /\ ValidOpeningConcurrency.

Definition ValidBeforeWriteBufferSize : Prop :=
  ValidBeforeCompactionInterval
  /\ ValidCompactionInterval /\ ValidCompactionConcurrency.

Definition ValidBeforeStripeSize : Prop :=
  ValidBeforeWriteBufferSize /\ ValidWriteBufferSize.

Definition ValidBeforeBlockRanges : Prop :=
  ValidBeforeStripeSize /\ ValidStripeSize.

End Constraints.

(** The first error of a sequence of checks, [None] when all pass. *)
Fixpoint first_failure (checks : list (option error)) : option error :=
  match checks with
  | [] => None
  | Some err :: _ => Some err
  | None :: rest => first_failure rest
  end.

(* ================================================================== *)
(** * Sample configurations *)

(** The configuration after [RegisterFlags] and a command line that sets
    the block ranges, the ship interval and concurrency, the head
    compaction interval, the write buffer size, the stripe size and the
    out-of-order capacity; the other flags have their defaults, with
    Prometheus's segment size. *)
Definition configured (blockRanges : list time.Duration)
  (shipInterval shipConcurrency headCompactionInterval writeBufferSize
     stripeSize outOfOrderCapacityMax : Z)
  : TSDBConfig.t := {|
  TSDBConfig.Dir := "./tsdb/";
  TSDBConfig.BlockRanges := blockRanges;
  TSDBConfig.Retention := 13 * time.Hour;
  TSDBConfig.ShipInterval := shipInterval;
  TSDBConfig.ShipConcurrency := shipConcurrency;
  TSDBConfig.HeadCompactionInterval := headCompactionInterval;
  TSDBConfig.HeadCompactionConcurrency := 1;
  TSDBConfig.HeadCompactionIdleTimeout := 1 * time.Hour;
  TSDBConfig.HeadChunksWriteBufferSize := writeBufferSize;
  TSDBConfig.HeadChunksEndTimeVariance := 0%float;
  TSDBConfig.StripeSize := stripeSize;
  TSDBConfig.WALCompressionEnabled := false;
  TSDBConfig.WALSegmentSizeBytes := 128 * 1024 * 1024;
  TSDBConfig.FlushBlocksOnShutdown := false;
  TSDBConfig.CloseIdleTSDBTimeout := 13 * time.Hour;
  TSDBConfig.MemorySnapshotOnShutdown := false;
  TSDBConfig.HeadChunksWriteQueueSize := 1000000;
  TSDBConfig.SeriesHashCacheMaxBytes := 1 * units.Gibibyte;
  TSDBConfig.MaxTSDBOpeningConcurrencyOnStartup := 10;
  TSDBConfig.KeepUserTSDBOpenOnShutdown := false;
  TSDBConfig.CloseIdleTSDBInterval := 0;
  TSDBConfig.OutOfOrderCapacityMax := outOfOrderCapacityMax;
  TSDBConfig.HeadPostingsForMatchersCacheTTL := 10 * time.Second;
  TSDBConfig.HeadPostingsForMatchersCacheSize := 100;
  TSDBConfig.HeadPostingsForMatchersCacheForce := false
|}.

(** All the defaults. *)
Definition defaults : TSDBConfig.t :=
  configured [2 * time.Hour] (1 * time.Minute) 10 (1 * time.Minute)
    (4 * 1024 * 1024) 16384 32.

(** [cfg] with another out-of-order capacity. *)
Definition with_OutOfOrderCapacityMax (v : Z) (cfg : TSDBConfig.t)
  : TSDBConfig.t := {|
  TSDBConfig.Dir := TSDBConfig.Dir cfg;
  TSDBConfig.BlockRanges := TSDBConfig.BlockRanges cfg;
  TSDBConfig.Retention := TSDBConfig.Retention cfg;
  TSDBConfig.ShipInterval := TSDBConfig.ShipInterval cfg;
  TSDBConfig.ShipConcurrency := TSDBConfig.ShipConcurrency cfg;
  TSDBConfig.HeadCompactionInterval := TSDBConfig.HeadCompactionInterval cfg;
  TSDBConfig.HeadCompactionConcurrency :=
    TSDBConfig.HeadCompactionConcurrency cfg;
  TSDBConfig.HeadCompactionIdleTimeout :=
    TSDBConfig.HeadCompactionIdleTimeout cfg;
  TSDBConfig.HeadChunksWriteBufferSize :=
    TSDBConfig.HeadChunksWriteBufferSize cfg;
  TSDBConfig.HeadChunksEndTimeVariance :=
    TSDBConfig.HeadChunksEndTimeVariance cfg;
  TSDBConfig.StripeSize := TSDBConfig.StripeSize cfg;
  TSDBConfig.WALCompressionEnabled := TSDBConfig.WALCompressionEnabled cfg;
  TSDBConfig.WALSegmentSizeBytes := TSDBConfig.WALSegmentSizeBytes cfg;
  TSDBConfig.FlushBlocksOnShutdown := TSDBConfig.FlushBlocksOnShutdown cfg;
  TSDBConfig.CloseIdleTSDBTimeout := TSDBConfig.CloseIdleTSDBTimeout cfg;
  TSDBConfig.MemorySnapshotOnShutdown :=
    TSDBConfig.MemorySnapshotOnShutdown cfg;
  TSDBConfig.HeadChunksWriteQueueSize :=
    TSDBConfig.HeadChunksWriteQueueSize cfg;
  TSDBConfig.SeriesHashCacheMaxBytes := TSDBConfig.SeriesHashCacheMaxBytes cfg;
  TSDBConfig.MaxTSDBOpeningConcurrencyOnStartup :=
    TSDBConfig.MaxTSDBOpeningConcurrencyOnStartup cfg;
  TSDBConfig.KeepUserTSDBOpenOnShutdown :=
    TSDBConfig.KeepUserTSDBOpenOnShutdown cfg;
  TSDBConfig.CloseIdleTSDBInterval := TSDBConfig.CloseIdleTSDBInterval cfg;
  TSDBConfig.OutOfOrderCapacityMax := v;
  TSDBConfig.HeadPostingsForMatchersCacheTTL :=
    TSDBConfig.HeadPostingsForMatchersCacheTTL cfg;
  TSDBConfig.HeadPostingsForMatchersCacheSize :=
    TSDBConfig.HeadPostingsForMatchersCacheSize cfg;
  TSDBConfig.HeadPostingsForMatchersCacheForce :=
    TSDBConfig.HeadPostingsForMatchersCacheForce cfg
|}.

(** Whether the byte [c] occurs in [s]. *)
Fixpoint contains_byte (c : ascii) (s : string) : bool :=
  match s with
  | EmptyString => false
  | String b rest => Ascii.eqb b c || contains_byte c rest
  end.

Definition comma_free (s : string) : Prop := contains_byte "," s = false.

(** A duration whose string form has no comma and parses back to it. *)
Definition RoundTrips {tm : TimePkg} (v : time.Duration) : Prop :=
  comma_free (Duration_String v)
  /\ ParseDuration (Duration_String v) = inl v.

(** Sample collaborators: configurations without content, a bucket
    validator that succeeds, cache validators that all fail, and a logger
    that keeps the flags it was warned about. *)
Definition failing_caches : Collaborators := {|
  bucket_Config := unit;
  IndexCacheConfig := unit;
  ChunksCacheConfig := unit;
  MetadataCacheConfig := unit;
  indexheader_Config := unit;
  Logger := list string;
  bucket_Config_Validate := fun _ => None;
  IndexCacheConfig_Validate :=
    fun _ => Some (errors.New "unsupported index cache backend");
  ChunksCacheConfig_Validate :=
    fun _ => Some (errors.New "unsupported chunks cache backend");
  MetadataCacheConfig_Validate :=
    fun _ => Some (errors.New "unsupported metadata cache backend");
  util_WarnDeprecatedConfig := fun flag logger => (logger ++ [flag])%list
|}.

(** The bucket store after [RegisterFlags] and a command line that sets
    the batch size and the deprecated consistency delay. *)
Definition store_configured (streamingBatchSize consistencyDelay : Z)
  : BucketStoreConfig.t (ext := failing_caches) :=
  BucketStoreConfig.mk (ext := failing_caches)
    "./tsdb-sync/"                  (* SyncDir *)
    (15 * time.Minute)              (* SyncInterval *)
    100                             (* MaxConcurrent *)
    10                              (* TenantSyncConcurrency *)
    20                              (* BlockSyncConcurrency *)
    20                              (* MetaSyncConcurrency *)
    consistencyDelay                (* DeprecatedConsistencyDelay *)
    tt tt tt                        (* IndexCache, ChunksCache, MetadataCache *)
    (1 * time.Hour)                 (* IgnoreDeletionMarksDelay *)
    (BucketIndexConfig.mk true time.Minute time.Hour time.Hour)
    (10 * time.Hour)                (* IgnoreBlocksWithin *)
    (2 * units.Gibibyte)            (* MaxChunkPoolBytes *)
    16000                           (* ChunkPoolMinBucketSizeBytes *)
    50000000                        (* ChunkPoolMaxBucketSizeBytes *)
    (1 * units.Gibibyte)            (* SeriesHashCacheMaxBytes *)
    true                            (* IndexHeaderLazyLoadingEnabled *)
    (60 * time.Minute)              (* IndexHeaderLazyLoadingIdleTimeout *)
    (512 * 1024)                    (* PartitionerMaxGapBytes *)
    32                              (* PostingOffsetsInMemSampling *)
    tt                              (* IndexHeader *)
    streamingBatchSize.

(** ** What the proofs about package time refer to *)

(** An int64 count of nanoseconds. *)
Definition IsDuration (d : Z) : Prop := - 2 ^ 63 <= d < 2 ^ 63.

(** One more digit in the scale of a fraction. *)
Definition times10 (scale : float) : float := PrimFloat.mul scale 10%float.

(** The float of a positive integer below [2^53]: its digits moved up to
    the 53 bits of the mantissa. *)
Definition canonical (n : positive) : spec_float :=
  let d := Zpos (digits2_pos n) in
  S754_finite false (Z.to_pos (Zpos n * 2 ^ (53 - d))) (d - 53).

(** The string of a duration of [u] nanoseconds, without the sign. *)
Definition String_magnitude (u : Z) : string :=
  if u <? time.Second then
    if u =? 0 then "0s"
    else
      let '(prec, buf) :=
        if u <? time.Microsecond then (0%nat, "ns")
        else if u <? time.Millisecond then (3%nat, gotime.micro_sign ++ "s")
        else (6%nat, "ms") in
      let '(buf, u) := gotime.fmtFrac buf u prec in
      gotime.fmtInt buf u
  else
    let '(buf, u) := gotime.fmtFrac "s" u 9 in
    let buf := gotime.fmtInt buf (u mod 60) in
    let u := u / 60 in
    if u >? 0 then
      let buf := gotime.fmtInt (String "m" buf) (u mod 60) in
      let u := u / 60 in
      if u >? 0 then gotime.fmtInt (String "h" buf) u else buf
    else buf.

(** A unit [u] of value [unit], followed by [rest]. *)
Record UnitAt (u : string) (unit : Z) (rest : string) : Prop := {
  unit_known : gotime.unitMap u = Some unit;
  unit_positive : 0 < unit;
  unit_not_empty : (0 < String.length u)%nat;
  unit_ends : gotime.unit_length (u ++ rest) = String.length u;
  unit_no_digit : gotime.starts_with is_digit (u ++ rest) = false;
  unit_no_period :
    gotime.starts_with (fun c => Ascii.eqb c ".") (u ++ rest) = false
}.


(** Two configurations with the same values in the fields that
    [Validate] reads. *)
Definition SameCheckedFields (cfg cfg' : TSDBConfig.t) : Prop :=
  TSDBConfig.ShipInterval cfg = TSDBConfig.ShipInterval cfg'
  /\ TSDBConfig.ShipConcurrency cfg = TSDBConfig.ShipConcurrency cfg'
  /\ TSDBConfig.MaxTSDBOpeningConcurrencyOnStartup cfg
     = TSDBConfig.MaxTSDBOpeningConcurrencyOnStartup cfg'
  /\ TSDBConfig.HeadCompactionInterval cfg
     = TSDBConfig.HeadCompactionInterval cfg'
  /\ TSDBConfig.HeadCompactionConcurrency cfg
     = TSDBConfig.HeadCompactionConcurrency cfg'
  /\ TSDBConfig.HeadChunksWriteBufferSize cfg
     = TSDBConfig.HeadChunksWriteBufferSize cfg'
  /\ TSDBConfig.StripeSize cfg = TSDBConfig.StripeSize cfg'
  /\ TSDBConfig.BlockRanges cfg = TSDBConfig.BlockRanges cfg'
  /\ TSDBConfig.WALSegmentSizeBytes cfg = TSDBConfig.WALSegmentSizeBytes cfg'.

(** A method that leaves its receiver as it found it. *)
Definition ReadOnly {S A : Type} (m : Method S A) : Prop :=
  forall s, after m s = s.

(* ================================================================== *)
(** * Package path/filepath of the Go standard library *)

(** [filepath.Join] and [filepath.Clean] as path_unix.go and path.go define
    them where the separator is a slash and a path has no volume name: the
    platforms the ingester runs on. [Clean] reads the path from left to
    right and writes the cleaned path into a buffer, of which it only ever
    appends to or cuts the end: the buffer is kept as the list of its
    bytes, the last one written first. *)
Module filepath.

Definition Separator : ascii := "/".

(** [os.IsPathSeparator] *)
Definition IsPathSeparator (c : ascii) : bool := Ascii.eqb c Separator.

(** The bytes written so far, the last one first; [out.w] is its length. *)
Definition lazybuf : Type := list ascii.

(** [r == n || os.IsPathSeparator(path[r])], where [s] is [path[r:]]. *)
Definition ends_element (s : string) : bool :=
  match s with
  | EmptyString => true
  | String c _ => IsPathSeparator c
  end.

(** A [..] element is removed: [out.w--], and again as long as
    [out.w > dotdot] and the byte at [out.w] is no separator. *)
Fixpoint backtrack (dotdot : nat) (out : lazybuf) : lazybuf :=
  match out with
  | [] => []
  | c :: out' =>
      if (dotdot <? List.length out')%nat && negb (IsPathSeparator c)
      then backtrack dotdot out'
      else out'
  end.

(** A real path element is copied up to the next separator. *)
Fixpoint copy_element (s : string) (out : lazybuf) : string * lazybuf :=
  match s with
  | EmptyString => (s, out)
  | String c rest =>
      if IsPathSeparator c then (s, out) else copy_element rest (c :: out)
  end.

(** The loop of [Clean], [for r < n], on [s = path[r:]]; every iteration
    moves [r] forward, so the length of the path bounds their number. The
    result is the buffer and [dotdot] when the loop ends. *)
Fixpoint clean_loop (fuel : nat) (rooted : bool) (s : string)
  (out : lazybuf) (dotdot : nat) : lazybuf * nat :=
  match fuel with
  | O => (out, dotdot)
  | S fuel' =>
      match s with
      | EmptyString => (out, dotdot)
      | String c rest =>
          if IsPathSeparator c then
            (* empty path element *)
            clean_loop fuel' rooted rest out dotdot
          else if Ascii.eqb c "." && ends_element rest then
            (* . element *)
            clean_loop fuel' rooted rest out dotdot
          else if Ascii.eqb c "."
                  && match rest with
                     | String c' rest' => Ascii.eqb c' "." && ends_element rest'
                     | EmptyString => false
                     end
          then
            (* .. element: remove to last separator *)
            let s := strings.drop 1 rest in
            if (dotdot <? List.length out)%nat then
              clean_loop fuel' rooted s (backtrack dotdot out) dotdot
            else if negb rooted then
              let out :=
                if (0 <? List.length out)%nat then Separator :: out else out in
              let out := "."%char :: "."%char :: out in
              clean_loop fuel' rooted s out (List.length out)
            else clean_loop fuel' rooted s out dotdot
          else
            (* real path element: add slash if needed, copy element *)
            let out :=
              if rooted && negb (List.length out =? 1)%nat
                 || negb rooted && negb (List.length out =? 0)%nat
              then Separator :: out else out in
            let '(s, out) := copy_element s out in
            clean_loop fuel' rooted s out dotdot
      end
  end.

(** [func Clean(path string) string] *)
Definition Clean (path : string) : string :=
  if String.eqb path "" then "."
  else
    let rooted :=
      match path with
      | String c _ => IsPathSeparator c
      | EmptyString => false
      end in
    let '(s, out, dotdot) :=
      if rooted then (strings.drop 1 path, [Separator], 1%nat)
      else (path, [], 0%nat) in
    let '(out, _) := clean_loop (String.length path) rooted s out dotdot in
    (* Turn empty string into "." *)
    let out := if (List.length out =? 0)%nat then ["."%char] else out in
    string_of_list_ascii (rev out).

(** [func Join(elem ...string) string]: the elements from the first one
    that is not empty on, joined with the separator and cleaned. *)
Fixpoint Join (elem : list string) : string :=
  match elem with
  | [] => ""
  | e :: rest =>
      if negb (String.eqb e "")
      then Clean (strings.Join elem (String Separator ""))
      else Join rest
  end.

End filepath.

(** [func (cfg *TSDBConfig) BlocksDir(userID string) string] *)
Definition BlocksDir (userID : string) : Method TSDBConfig.t string :=
  bind (load TSDBConfig.Dir) (fun dir => ret (filepath.Join [dir; userID])).

(** A name that is a path element of its own: not empty, without
    separator, and neither [.] nor [..]. *)
Definition SimpleName (s : string) : Prop :=
  s <> "" /\ s <> "." /\ s <> ".." /\ contains_byte "/" s = false.


(** The loop of [Clean] on what is left of a path, with the iterations it
    needs. *)
Definition clean_run (rooted : bool) (s : string) (out : filepath.lazybuf)
  (dotdot : nat) : filepath.lazybuf * nat :=
  filepath.clean_loop (String.length s) rooted s out dotdot.

(** The separator that [Clean] writes before a real path element. *)
Definition with_separator (rooted : bool) (out : filepath.lazybuf)
  : filepath.lazybuf :=
  if rooted && negb (List.length out =? 1)%nat
     || negb rooted && negb (List.length out =? 0)%nat
  then filepath.Separator :: out else out.

(** The string of a buffer. *)
Definition buffer_string (out : filepath.lazybuf) : string :=
  string_of_list_ascii (rev out).

(** What [filepath.Join] writes in front of a second element that is a
    simple name: nothing when [dir] is empty, and otherwise the buffer of
    [Clean] after [dir] with the separator that the name needs. *)
Definition join_base (dir : string) : string :=
  match dir with
  | EmptyString => ""
  | String c rest =>
      let rooted := filepath.IsPathSeparator c in
      let '(out, _) :=
        if rooted then clean_run true rest [filepath.Separator] 1
        else clean_run false dir [] 0 in
      buffer_string (with_separator rooted out)
  end.

(** The number of occurrences of the byte [c] in [s]. *)
Fixpoint count_byte (c : ascii) (s : string) : nat :=
  match s with
  | EmptyString => O
  | String b rest => (if Ascii.eqb b c then 1 else 0) + count_byte c rest
  end.

(** The durations [ds] are what the strings [values] parse to, one by
    one. *)
Definition ParseTo {tm : TimePkg} (values : list string)
  (ds : list time.Duration) : Prop :=
  map ParseDuration values = map inl ds.

(* ================================================================== *)
(** * Registering the flags of the bucket store and of the blocks storage *)

(** Constants of the package. *)
Definition EstimatedMaxChunkSize : Z := 16000.
Definition ChunkPoolDefaultMinBucketSize : Z := EstimatedMaxChunkSize.
Definition ChunkPoolDefaultMaxBucketSize : Z := 50000000.
Definition DefaultPostingOffsetInMemorySampling : Z := 32.
Definition DefaultPartitionerMaxGapSize : Z := 512 * 1024.

(** The collaborators of the two [RegisterFlags] methods: the methods of
    the configurations of other files and packages that register their own
    flags, each taken as a function of the prefix and of the configuration
    it fills; the two that are given the logger may log. *)
Class FlagCollaborators {ext : Collaborators} : Type := {
  bucket_Config_RegisterFlagsWithPrefixAndDefaultDirectory :
    string -> string -> bucket_Config -> Logger -> bucket_Config * Logger;
  IndexCacheConfig_RegisterFlagsWithPrefix :
    string -> IndexCacheConfig -> IndexCacheConfig;
  ChunksCacheConfig_RegisterFlagsWithPrefix :
    string -> ChunksCacheConfig -> Logger -> ChunksCacheConfig * Logger;
  MetadataCacheConfig_RegisterFlagsWithPrefix :
    string -> MetadataCacheConfig -> MetadataCacheConfig;
  indexheader_Config_RegisterFlagsWithPrefix :
    string -> indexheader_Config -> indexheader_Config
}.

(** [func (cfg *BucketIndexConfig) RegisterFlagsWithPrefix(f, prefix)], as
    far as the receiver goes: every field gets the default of its flag. *)
Definition BucketIndexConfig_RegisterFlagsWithPrefix (prefix : string)
  : Method BucketIndexConfig.t unit :=
  store (fun _ => {|
    BucketIndexConfig.Enabled := true;
    BucketIndexConfig.UpdateOnErrorInterval := time.Minute;
    BucketIndexConfig.IdleTimeout := time.Hour;
    BucketIndexConfig.MaxStalePeriod := time.Hour
  |}).

Section RegisterFlags.
Context {prom : PrometheusConsts} {ext : Collaborators}
  {flags : FlagCollaborators}.

(** [func (cfg *BucketStoreConfig) RegisterFlags(f, logger)], as far as
    the receiver and the logger go: the five configurations inside register
    their flags, then every other field gets the default of its flag. *)
Definition BucketStoreConfig_RegisterFlags
  : Method (BucketStoreConfig.t * Logger) unit :=
  fun '(cfg, logger) =>
    let indexCache :=
      IndexCacheConfig_RegisterFlagsWithPrefix
        "blocks-storage.bucket-store.index-cache."
        (BucketStoreConfig.IndexCache cfg) in
    let '(chunksCache, logger) :=
      ChunksCacheConfig_RegisterFlagsWithPrefix
        "blocks-storage.bucket-store.chunks-cache."
        (BucketStoreConfig.ChunksCache cfg) logger in
    let metadataCache :=
      MetadataCacheConfig_RegisterFlagsWithPrefix
        "blocks-storage.bucket-store.metadata-cache."
        (BucketStoreConfig.MetadataCache cfg) in
    let bucketIndex :=
      after (BucketIndexConfig_RegisterFlagsWithPrefix
               "blocks-storage.bucket-store.bucket-index.")
        (BucketStoreConfig.BucketIndex cfg) in
    let indexHeader :=
      indexheader_Config_RegisterFlagsWithPrefix
        "blocks-storage.bucket-store.index-header."
        (BucketStoreConfig.IndexHeader cfg) in
    (tt,
     ({| BucketStoreConfig.SyncDir := "./tsdb-sync/";
         BucketStoreConfig.SyncInterval := 15 * time.Minute;
         BucketStoreConfig.MaxConcurrent := 100;
         BucketStoreConfig.TenantSyncConcurrency := 10;
         BucketStoreConfig.BlockSyncConcurrency := 20;
         BucketStoreConfig.MetaSyncConcurrency := 20;
         BucketStoreConfig.DeprecatedConsistencyDelay := 0;
         BucketStoreConfig.IndexCache := indexCache;
         BucketStoreConfig.ChunksCache := chunksCache;
         BucketStoreConfig.MetadataCache := metadataCache;
         BucketStoreConfig.IgnoreDeletionMarksDelay := time.Hour * 1;
         BucketStoreConfig.BucketIndex := bucketIndex;
         BucketStoreConfig.IgnoreBlocksWithin := 10 * time.Hour;
         BucketStoreConfig.MaxChunkPoolBytes := 2 * units.Gibibyte;
         BucketStoreConfig.ChunkPoolMinBucketSizeBytes :=
           ChunkPoolDefaultMinBucketSize;
         BucketStoreConfig.ChunkPoolMaxBucketSizeBytes :=
           ChunkPoolDefaultMaxBucketSize;
         BucketStoreConfig.SeriesHashCacheMaxBytes := 1 * units.Gibibyte;
         BucketStoreConfig.IndexHeaderLazyLoadingEnabled := true;
         BucketStoreConfig.IndexHeaderLazyLoadingIdleTimeout :=
           60 * time.Minute;
         BucketStoreConfig.PartitionerMaxGapBytes :=
           DefaultPartitionerMaxGapSize;
         BucketStoreConfig.PostingOffsetsInMemSampling :=
           DefaultPostingOffsetInMemorySampling;
         BucketStoreConfig.IndexHeader := indexHeader;
         BucketStoreConfig.StreamingBatchSize := 5000 |},
      logger)).

(** [func (cfg *BlocksStorageConfig) RegisterFlags(f, logger)] *)
Definition BlocksStorageConfig_RegisterFlags
  : Method (BlocksStorageConfig.t * Logger) unit :=
  fun '(cfg, logger) =>
    let '(bucket, logger) :=
      bucket_Config_RegisterFlagsWithPrefixAndDefaultDirectory
        "blocks-storage." "blocks" (BlocksStorageConfig.Bucket cfg) logger in
    let '(bucketStore, logger) :=
      after BucketStoreConfig_RegisterFlags
        (BlocksStorageConfig.BucketStore cfg, logger) in
    let tsdb :=
      after TSDBConfig.RegisterFlags (BlocksStorageConfig.TSDB cfg) in
    (tt,
     ({| BlocksStorageConfig.Bucket := bucket;
         BlocksStorageConfig.BucketStore := bucketStore;
         BlocksStorageConfig.TSDB := tsdb |},
      logger)).

End RegisterFlags.

(** The defaults that Prometheus gives the write buffer and the segments
    of the WAL are values that [TSDBConfig.Validate] accepts. *)
Definition ValidPrometheusDefaults {prom : PrometheusConsts} : Prop :=
  chunks_MinWriteBufferSize <= chunks_DefaultWriteBufferSize
    <= chunks_MaxWriteBufferSize
  /\ (1024 | chunks_DefaultWriteBufferSize)
  /\ 0 < wlog_DefaultSegmentSize.

(** The wrapped results of the validators of the three caches. *)
Definition cache_checks {ext : Collaborators} (cfg : BucketStoreConfig.t)
  : list (option error) :=
  [ option_map (fun err => errors.Wrap err "index-cache configuration")
      (IndexCacheConfig_Validate (BucketStoreConfig.IndexCache cfg));
    option_map (fun err => errors.Wrap err "chunks-cache configuration")
      (ChunksCacheConfig_Validate (BucketStoreConfig.ChunksCache cfg));
    option_map (fun err => errors.Wrap err "metadata-cache configuration")
      (MetadataCacheConfig_Validate (BucketStoreConfig.MetadataCache cfg)) ].

(** [cfg] with other block ranges. *)
Definition with_BlockRanges (ranges : DurationList.t) (cfg : TSDBConfig.t)
  : TSDBConfig.t := {|
  TSDBConfig.Dir := TSDBConfig.Dir cfg;
  TSDBConfig.BlockRanges := ranges;
  TSDBConfig.Retention := TSDBConfig.Retention cfg;
  TSDBConfig.ShipInterval := TSDBConfig.ShipInterval cfg;
  TSDBConfig.ShipConcurrency := TSDBConfig.ShipConcurrency cfg;
  TSDBConfig.HeadCompactionInterval := TSDBConfig.HeadCompactionInterval cfg;
  TSDBConfig.HeadCompactionConcurrency :=
    TSDBConfig.HeadCompactionConcurrency cfg;
  TSDBConfig.HeadCompactionIdleTimeout :=
    TSDBConfig.HeadCompactionIdleTimeout cfg;
  TSDBConfig.HeadChunksWriteBufferSize :=
    TSDBConfig.HeadChunksWriteBufferSize cfg;
  TSDBConfig.HeadChunksEndTimeVariance :=
    TSDBConfig.HeadChunksEndTimeVariance cfg;
  TSDBConfig.StripeSize := TSDBConfig.StripeSize cfg;
  TSDBConfig.WALCompressionEnabled := TSDBConfig.WALCompressionEnabled cfg;
  TSDBConfig.WALSegmentSizeBytes := TSDBConfig.WALSegmentSizeBytes cfg;
  TSDBConfig.FlushBlocksOnShutdown := TSDBConfig.FlushBlocksOnShutdown cfg;
  TSDBConfig.CloseIdleTSDBTimeout := TSDBConfig.CloseIdleTSDBTimeout cfg;
  TSDBConfig.MemorySnapshotOnShutdown :=
    TSDBConfig.MemorySnapshotOnShutdown cfg;
  TSDBConfig.HeadChunksWriteQueueSize :=
    TSDBConfig.HeadChunksWriteQueueSize cfg;
  TSDBConfig.SeriesHashCacheMaxBytes := TSDBConfig.SeriesHashCacheMaxBytes cfg;
  TSDBConfig.MaxTSDBOpeningConcurrencyOnStartup :=
    TSDBConfig.MaxTSDBOpeningConcurrencyOnStartup cfg;
  TSDBConfig.KeepUserTSDBOpenOnShutdown :=
    TSDBConfig.KeepUserTSDBOpenOnShutdown cfg;
  TSDBConfig.CloseIdleTSDBInterval := TSDBConfig.CloseIdleTSDBInterval cfg;
  TSDBConfig.OutOfOrderCapacityMax := TSDBConfig.OutOfOrderCapacityMax cfg;
  TSDBConfig.HeadPostingsForMatchersCacheTTL :=
    TSDBConfig.HeadPostingsForMatchersCacheTTL cfg;
  TSDBConfig.HeadPostingsForMatchersCacheSize :=
    TSDBConfig.HeadPostingsForMatchersCacheSize cfg;
  TSDBConfig.HeadPostingsForMatchersCacheForce :=
    TSDBConfig.HeadPostingsForMatchersCacheForce cfg
|}.

(** A method of [DurationList] called on the field [cfg.BlockRanges], as
    the flag set does with [Set] when the command line gives the flag that
    [RegisterFlags] registered with [f.Var(&cfg.BlockRanges, ...)]. *)
Definition on_BlockRanges {A : Type} (m : Method DurationList.t A)
  : Method TSDBConfig.t A :=
  fun cfg =>
    let '(a, ranges) := m (TSDBConfig.BlockRanges cfg) in
    (a, with_BlockRanges ranges cfg).

(** Sample collaborators for the flags, with the sample configurations
    without content: nothing to fill, and nothing logged. *)
Definition sample_flags : FlagCollaborators (ext := failing_caches) := {|
  bucket_Config_RegisterFlagsWithPrefixAndDefaultDirectory :=
    fun _ _ (cfg : bucket_Config (Collaborators := failing_caches)) logger =>
      (cfg, logger);
  IndexCacheConfig_RegisterFlagsWithPrefix := fun _ cfg => cfg;
  ChunksCacheConfig_RegisterFlagsWithPrefix :=
    fun _ (cfg : ChunksCacheConfig (Collaborators := failing_caches)) logger =>
      (cfg, logger);
  MetadataCacheConfig_RegisterFlagsWithPrefix := fun _ cfg => cfg;
  indexheader_Config_RegisterFlagsWithPrefix := fun _ cfg => cfg
|}.

(* ================================================================== *)
(** * Error values and their identity *)

(** An error value of package errors is a pointer to a struct that holds
    the message, and Go's [==] on two such values compares the pointers.
    The struct of a package-level error is allocated once, when the package
    is initialised; [errors.Errorf] allocates a struct at each call. An
    address is the one of the struct of a package-level variable, or of the
    [n]-th struct allocated since the package was initialised. *)
Inductive address : Type :=
| package_level (variable : string)
| allocated (n : nat).

Record error_value : Type := {
  addr : address;
  pointee : error
}.

(** The number of structs allocated since the package was initialised. *)
Definition Heap : Type := nat.

(** [errors.Errorf], for a message that is already formatted. *)
Definition errors_Errorf (msg : string) : Method Heap error_value :=
  fun heap => ({| addr := allocated heap; pointee := fundamental msg |},
               S heap).

(** The value of a package-level variable [var name = errors.New(...)]. *)
Definition package_error (variable : string) (e : error) : error_value :=
  {| addr := package_level variable; pointee := e |}.

(** [if cond { return value }] followed by the rest of the body, for any
    type of result. *)
Definition returning_if {S A : Type} (cond : bool) (value rest : Method S A)
  : Method S A :=
  if cond then value else rest.

Notation "'WHEN' c 'RETURN' v ; k" := (returning_if c v k)
  (at level 61, c at level 99, v at level 9, right associativity)
  : method_scope.

(** A field of the receiver, read in a state that holds the receiver and
    the heap. *)
Definition field {S A : Type} (f : S -> A) : Method (S * Heap) A :=
  load (fun s => f (fst s)).

(** A computation on the heap, in such a state. *)
Definition allocating {S A : Type} (m : Method Heap A) : Method (S * Heap) A :=
  fun s => let '(a, heap) := m (snd s) in (a, (fst s, heap)).

Section ValidateValues.
Context {prom : PrometheusConsts}.

Local Open Scope method_scope.

(** [func (cfg *TSDBConfig) Validate() error] with the error values it
    returns: the state is the receiver's and the heap's. *)
Definition Validate_values
  : Method (TSDBConfig.t * Heap) (option error_value) :=
  shipInterval <- field TSDBConfig.ShipInterval ;;
  shipConcurrency <- field TSDBConfig.ShipConcurrency ;;
  WHEN (shipInterval >? 0) && (shipConcurrency <=? 0)
  RETURN (ret (Some (package_error "errInvalidShipConcurrency"
                       errInvalidShipConcurrency))) ;

  openingConcurrency <- field TSDBConfig.MaxTSDBOpeningConcurrencyOnStartup ;;
  WHEN openingConcurrency <=? 0
  RETURN (ret (Some (package_error "errInvalidOpeningConcurrency"
                       errInvalidOpeningConcurrency))) ;

  interval <- field TSDBConfig.HeadCompactionInterval ;;
  WHEN (interval <=? 0) || (interval >? 15 * time.Minute)
  RETURN (ret (Some (package_error "errInvalidCompactionInterval"
                       errInvalidCompactionInterval))) ;

  compactionConcurrency <- field TSDBConfig.HeadCompactionConcurrency ;;
  WHEN compactionConcurrency <=? 0
  RETURN (ret (Some (package_error "errInvalidCompactionConcurrency"
                       errInvalidCompactionConcurrency))) ;

  bufferSize <- field TSDBConfig.HeadChunksWriteBufferSize ;;
  WHEN (bufferSize <? chunks_MinWriteBufferSize)
       || (bufferSize >? chunks_MaxWriteBufferSize)
       || negb (GoInt.rem bufferSize 1024 =? 0)
  RETURN (err <- allocating
                   (errors_Errorf
                      ("head chunks write buffer size must be a multiple of 1024 between "
                         ++ fmt_d chunks_MinWriteBufferSize ++ " and "
                         ++ fmt_d chunks_MaxWriteBufferSize)%string) ;;
          ret (Some err)) ;

  stripeSize <- field TSDBConfig.StripeSize ;;
  WHEN (stripeSize <=? 1)
       || negb (GoInt.and stripeSize (GoInt.sub stripeSize 1) =? 0)
  RETURN (ret (Some (package_error "errInvalidStripeSize"
                       errInvalidStripeSize))) ;

  blockRanges <- field TSDBConfig.BlockRanges ;;
  WHEN (List.length blockRanges =? 0)%nat
  RETURN (ret (Some (package_error "errEmptyBlockranges"
                       errEmptyBlockranges))) ;

  walSegmentSize <- field TSDBConfig.WALSegmentSizeBytes ;;
  WHEN walSegmentSize <=? 0
  RETURN (ret (Some (package_error "errInvalidWALSegmentSizeBytes"
                       errInvalidWALSegmentSizeBytes))) ;

  ret None.

End ValidateValues.

(* ================================================================== *)
(** * Properties *)
(* ================================================================== *)

(** ** Go integers *)

Lemma wrap_in_range (z : Z) : GoInt.InRange z -> GoInt.wrap z = z.
Proof.
  unfold GoInt.InRange, GoInt.wrap, GoInt.minInt, GoInt.maxInt, GoInt.intSize.
  intros [Hlo Hhi].
  change (2 ^ (64 - 1)) with 9223372036854775808 in *.
  change (2 ^ 64) with 18446744073709551616.
  rewrite Z.mod_small; lia.
Qed.

Lemma sub_one_exact (n : Z) :
  GoInt.InRange n -> 1 < n -> GoInt.sub n 1 = n - 1.
Proof.
  intros Hn H1. unfold GoInt.sub. apply wrap_in_range.
  unfold GoInt.InRange, GoInt.minInt, GoInt.maxInt, GoInt.intSize in *.
  change (2 ^ (64 - 1)) with 9223372036854775808 in *. lia.
Qed.

(** A positive [n] shares no bit with [n - 1] exactly when it is a power
    of two: otherwise the highest bit of [n] is also set in [n - 1]. *)
Lemma land_pred_power_of_two (n : Z) :
  0 < n -> (Z.land n (n - 1) = 0 <-> exists k, 0 <= k /\ n = 2 ^ k).
Proof.
  intros Hn. split.
  - intros Hland. exists (Z.log2 n). split; [apply Z.log2_nonneg|].
    destruct (Z.eq_dec n (2 ^ Z.log2 n)) as [|Hne]; [assumption|exfalso].
    destruct (Z.log2_spec n Hn) as [Hlo Hhi].
    assert (Hlog : Z.log2 (n - 1) = Z.log2 n).
    { apply Z.log2_unique; [apply Z.log2_nonneg | lia]. }
    assert (Hbit : Z.testbit (Z.land n (n - 1)) (Z.log2 n) = true).
    { rewrite Z.land_spec, Z.bit_log2 by lia.
      rewrite <- Hlog. rewrite Z.bit_log2; [reflexivity|].
      pose proof (Z.pow_pos_nonneg 2 (Z.log2 n) ltac:(lia)
                    (Z.log2_nonneg n)). lia. }
    rewrite Hland, Z.bits_0 in Hbit. discriminate.
  - intros (k & Hk & ->).
    replace (2 ^ k - 1) with (Z.ones k) by (rewrite Z.ones_equiv; lia).
    rewrite Z.land_ones by lia. apply Z_mod_same_full.
Qed.

Lemma land_sub_power_of_two (n : Z) :
  GoInt.InRange n -> 1 < n ->
  (GoInt.and n (GoInt.sub n 1) = 0 <-> PowerOfTwoGt1 n).
Proof.
  intros Hr Hn. rewrite sub_one_exact by assumption. unfold GoInt.and.
  rewrite land_pred_power_of_two by lia. unfold PowerOfTwoGt1.
  split; intros (k & Hk & Hpow); exists k; (split; [|assumption]).
  - assert (k <> 0) by (intros ->; simpl in Hpow; lia). lia.
  - lia.
Qed.

Lemma power_of_two_gt1 (n : Z) : PowerOfTwoGt1 n -> 1 < n.
Proof.
  intros (k & Hk & ->).
  assert (2 ^ 1 <= 2 ^ k) by (apply Z.pow_le_mono_r; lia). lia.
Qed.

(** ** Methods that only read their receiver *)

Lemma ReadOnly_ret {S A : Type} (a : A) : ReadOnly (@ret S A a).
Proof. intros s. reflexivity. Qed.

Lemma ReadOnly_load {S A : Type} (field : S -> A) : ReadOnly (load field).
Proof. intros s. reflexivity. Qed.

Lemma ReadOnly_bind {S A B : Type} (m : Method S A) (k : A -> Method S B) :
  ReadOnly m -> (forall a, ReadOnly (k a)) -> ReadOnly (bind m k).
Proof.
  intros Hm Hk s. unfold after, bind.
  specialize (Hm s). unfold after in Hm.
  destruct (m s) as [a s']. simpl in Hm. subst s'. apply Hk.
Qed.

Lemma ReadOnly_failing_if {S : Type} (cond : bool) (err : error)
  (rest : Method S (option error)) :
  ReadOnly rest -> ReadOnly (failing_if cond err rest).
Proof.
  intros Hrest. unfold failing_if.
  destruct cond; [apply ReadOnly_ret|exact Hrest].
Qed.

Create HintDb readonly.
#[local] Hint Resolve ReadOnly_ret ReadOnly_load ReadOnly_failing_if : readonly.
#[local] Hint Extern 2 (ReadOnly (bind _ _)) =>
  apply ReadOnly_bind; [|intro] : readonly.

(** ** TSDBConfig.Validate *)

Section TSDBValidation.
Context {prom : PrometheusConsts}.
Implicit Type cfg : TSDBConfig.t.

Import TSDBConfig.

(** The result of [Validate] as a cascade over the fields. *)
Lemma Validate_result cfg :
  result Validate cfg =
    if (ShipInterval cfg >? 0) && (ShipConcurrency cfg <=? 0)
    then Some errInvalidShipConcurrency
    else if MaxTSDBOpeningConcurrencyOnStartup cfg <=? 0
    then Some errInvalidOpeningConcurrency
    else if (HeadCompactionInterval cfg <=? 0)
            || (HeadCompactionInterval cfg >? 15 * time.Minute)
    then Some errInvalidCompactionInterval
    else if HeadCompactionConcurrency cfg <=? 0
    then Some errInvalidCompactionConcurrency
    else if (HeadChunksWriteBufferSize cfg <? chunks_MinWriteBufferSize)
            || (HeadChunksWriteBufferSize cfg >? chunks_MaxWriteBufferSize)
            || negb (GoInt.rem (HeadChunksWriteBufferSize cfg) 1024 =? 0)
    then Some errWriteBufferSize
    else if (StripeSize cfg <=? 1)
            || negb (GoInt.and (StripeSize cfg)
                       (GoInt.sub (StripeSize cfg) 1) =? 0)
    then Some errInvalidStripeSize
    else if (List.length (BlockRanges cfg) =? 0)%nat
    then Some errEmptyBlockranges
    else if WALSegmentSizeBytes cfg <=? 0
    then Some errInvalidWALSegmentSizeBytes
    else None.
Proof.
  unfold result, Validate, bind, load, failing_if, ret. cbn [fst snd].
  repeat match goal with
         | |- context [if ?b then _ else _] => destruct b; [reflexivity|]
         end.
  reflexivity.
Qed.

(** Each condition of the cascade against the constraint it enforces. *)
Lemma ship_concurrency_check cfg :
  (ShipInterval cfg >? 0) && (ShipConcurrency cfg <=? 0) = false
  <-> ValidShipConcurrency cfg.
Proof.
  unfold ValidShipConcurrency.
  rewrite andb_false_iff, Z.gtb_ltb, Z.ltb_ge, Z.leb_gt.
  split; intros; lia.
Qed.

Lemma opening_concurrency_check cfg :
  (MaxTSDBOpeningConcurrencyOnStartup cfg <=? 0) = false
  <-> ValidOpeningConcurrency cfg.
Proof. unfold ValidOpeningConcurrency. rewrite Z.leb_gt. split; lia. Qed.

Lemma compaction_interval_check cfg :
  (HeadCompactionInterval cfg <=? 0)
    || (HeadCompactionInterval cfg >? 15 * time.Minute) = false
  <-> ValidCompactionInterval cfg.
Proof.
  unfold ValidCompactionInterval.
  rewrite orb_false_iff, Z.gtb_ltb, Z.ltb_ge, Z.leb_gt. split; lia.
Qed.

Lemma compaction_concurrency_check cfg :
  (HeadCompactionConcurrency cfg <=? 0) = false
  <-> ValidCompactionConcurrency cfg.
Proof. unfold ValidCompactionConcurrency. rewrite Z.leb_gt. split; lia. Qed.

Lemma write_buffer_size_check cfg :
  (HeadChunksWriteBufferSize cfg <? chunks_MinWriteBufferSize)
    || (HeadChunksWriteBufferSize cfg >? chunks_MaxWriteBufferSize)
    || negb (GoInt.rem (HeadChunksWriteBufferSize cfg) 1024 =? 0) = false
  <-> ValidWriteBufferSize cfg.
Proof.
  unfold ValidWriteBufferSize, GoInt.rem.
  rewrite !orb_false_iff, negb_false_iff, Z.gtb_ltb, !Z.ltb_ge, Z.eqb_eq.
  rewrite Z.rem_divide by lia. intuition lia.
Qed.

Lemma stripe_size_check cfg :
  GoInt.InRange (StripeSize cfg) ->
  ((StripeSize cfg <=? 1)
     || negb (GoInt.and (StripeSize cfg) (GoInt.sub (StripeSize cfg) 1) =? 0)
   = false
   <-> ValidStripeSize cfg).
Proof.
  intros Hr. unfold ValidStripeSize.
  rewrite orb_false_iff, negb_false_iff, Z.leb_gt, Z.eqb_eq. split.
  - intros [Hgt Hland]. apply land_sub_power_of_two; assumption.
  - intros Hpow. pose proof (power_of_two_gt1 _ Hpow) as Hgt.
    split; [assumption|]. apply land_sub_power_of_two; assumption.
Qed.

Lemma block_ranges_check cfg :
  (List.length (BlockRanges cfg) =? 0)%nat = false <-> ValidBlockRanges cfg.
Proof.
  unfold ValidBlockRanges. rewrite Nat.eqb_neq.
  destruct (BlockRanges cfg); simpl; split; congruence.
Qed.

Lemma wal_segment_size_check cfg :
  (WALSegmentSizeBytes cfg <=? 0) = false <-> ValidWALSegmentSize cfg.
Proof. unfold ValidWALSegmentSize. rewrite Z.leb_gt. split; lia. Qed.

(** The error of the write buffer size differs from the named ones. *)
Lemma errWriteBufferSize_head :
  exists rest, errWriteBufferSize = fundamental (String.String "h" rest).
Proof. unfold errWriteBufferSize, errors.New. simpl. eexists. reflexivity. Qed.

(** Passing the checks whose constraint is among the hypotheses. *)
Ltac pass_checks :=
  rewrite Validate_result;
  repeat match goal with
    | H : ValidShipConcurrency ?c |- _ =>
        rewrite (proj2 (ship_concurrency_check c) H); clear H
    | H : ValidOpeningConcurrency ?c |- _ =>
        rewrite (proj2 (opening_concurrency_check c) H); clear H
    | H : ValidCompactionInterval ?c |- _ =>
        rewrite (proj2 (compaction_interval_check c) H); clear H
    | H : ValidCompactionConcurrency ?c |- _ =>
        rewrite (proj2 (compaction_concurrency_check c) H); clear H
    | H : ValidWriteBufferSize ?c |- _ =>
        rewrite (proj2 (write_buffer_size_check c) H); clear H
    | Hr : GoInt.InRange (StripeSize ?c), H : ValidStripeSize ?c |- _ =>
        rewrite (proj2 (stripe_size_check c Hr) H); clear H
    end.

(** What is left of the cascade returns another error, or none. *)
Ltac other_result :=
  repeat match goal with
    | |- context [if ?b then _ else _] => destruct b
    | H : context [if ?b then _ else _] |- _ => destruct b
    end;
  unfold errWriteBufferSize, errors.New in *; simpl in *;
  try discriminate; try congruence.

(** C1. With the fields checked before it valid, the stripe size is
    refused, with [errInvalidStripeSize], exactly when it is not a power
    of two greater than 1, and a configuration that [Validate] accepts has
    such a stripe size; so 0, 1 and 3 are refused and 2 and 16384 raise no
    stripe-size error. *)
Theorem stripe_size_power_of_two cfg :
  GoInt.InRange (StripeSize cfg) ->
  ValidBeforeStripeSize cfg ->
  (result Validate cfg = Some errInvalidStripeSize
   <-> ~ PowerOfTwoGt1 (StripeSize cfg))
  /\ (result Validate cfg = None -> PowerOfTwoGt1 (StripeSize cfg))
  /\ (In (StripeSize cfg) [0; 1; 3] ->
      result Validate cfg = Some errInvalidStripeSize)
  /\ (In (StripeSize cfg) [2; 16384] ->
      result Validate cfg <> Some errInvalidStripeSize).
Proof.
  intros Hr (((Hs & Ho) & Hi & Hc) & Hb).
  pose proof (stripe_size_check cfg Hr) as Hcheck.
  unfold ValidStripeSize in Hcheck.
  assert (Hiff : result Validate cfg = Some errInvalidStripeSize
                 <-> ~ PowerOfTwoGt1 (StripeSize cfg)).
  { pass_checks.
    destruct ((StripeSize cfg <=? 1)
              || negb (GoInt.and (StripeSize cfg)
                         (GoInt.sub (StripeSize cfg) 1) =? 0)) eqn:E.
    - split; [|reflexivity]. intros _ Hpow.
      apply Hcheck in Hpow. congruence.
    - split; [intros H; exfalso; other_result|].
      intros Hn. exfalso. apply Hn, Hcheck. reflexivity. }
  split; [exact Hiff|]. split; [|split].
  - intros Hnone. revert Hnone. pass_checks.
    destruct ((StripeSize cfg <=? 1)
              || negb (GoInt.and (StripeSize cfg)
                         (GoInt.sub (StripeSize cfg) 1) =? 0)) eqn:E.
    + discriminate.
    + intros _. apply Hcheck. reflexivity.
  - intros Hin. apply Hiff. intros Hpow. apply Hcheck in Hpow.
    simpl in Hin.
    destruct Hin as [H|[H|[H|[]]]]; rewrite <- H in Hpow;
      vm_compute in Hpow; discriminate.
  - intros Hin Herr. apply Hiff in Herr. apply Herr, Hcheck.
    simpl in Hin. destruct Hin as [H|[H|[]]]; rewrite <- H; reflexivity.
Qed.

(** C3. With a valid ship and opening concurrency, [Validate] returns
    [errInvalidCompactionInterval] exactly when the head compaction
    interval is not positive or exceeds 15 minutes. *)
Theorem head_compaction_interval_bounds cfg :
  ValidBeforeCompactionInterval cfg ->
  (result Validate cfg = Some errInvalidCompactionInterval
   <-> HeadCompactionInterval cfg <= 0
       \/ HeadCompactionInterval cfg > 15 * time.Minute).
Proof.
  intros (Hs & Ho).
  pose proof (compaction_interval_check cfg) as Hcheck.
  unfold ValidCompactionInterval in Hcheck. pass_checks.
  destruct ((HeadCompactionInterval cfg <=? 0)
            || (HeadCompactionInterval cfg >? 15 * time.Minute)) eqn:E.
  - split; [|reflexivity]. intros _.
    destruct (Z_le_gt_dec (HeadCompactionInterval cfg) 0) as [|Hpos];
      [left; assumption|].
    destruct (Z_le_gt_dec (HeadCompactionInterval cfg) (15 * time.Minute))
      as [Hle|]; [|right; assumption].
    assert (Hfalse : true = false) by (apply Hcheck; lia). discriminate.
  - split; [intros H; exfalso; other_result|].
    assert (Hv : 0 < HeadCompactionInterval cfg <= 15 * time.Minute)
      by (apply Hcheck; reflexivity).
    intros [H|H]; lia.
Qed.

(** C4, as the code has it. When shipping is enabled, that is when the
    ship interval is positive, a ship concurrency that is not positive
    makes [Validate] return [errInvalidShipConcurrency]. *)
Theorem ship_concurrency_checked_when_shipping cfg :
  result IsBlocksShippingEnabled cfg = true ->
  ShipConcurrency cfg <= 0 ->
  result Validate cfg = Some errInvalidShipConcurrency.
Proof.
  unfold result, IsBlocksShippingEnabled, bind, load, ret. cbn [fst].
  intros Hon Hconc. fold (result Validate cfg). rewrite Validate_result.
  rewrite Hon. apply Z.leb_le in Hconc. rewrite Hconc. reflexivity.
Qed.

(** X3. When shipping is disabled, that is when the ship interval is not
    positive, the ship concurrency is not looked at: [Validate] does not
    return [errInvalidShipConcurrency]. *)
Lemma ship_concurrency_unchecked_when_disabled cfg :
  result IsBlocksShippingEnabled cfg = false ->
  result Validate cfg <> Some errInvalidShipConcurrency.
Proof.
  unfold result at 1. unfold IsBlocksShippingEnabled, bind, load, ret.
  cbn [fst]. intros Hoff. rewrite Validate_result, Hoff. cbn [andb].
  intros H. other_result.
Qed.

(** C5. With the fields checked before it valid, [Validate] returns the
    error of the write buffer size exactly when the size is below the
    minimum, above the maximum, or not a multiple of 1024. *)
Theorem write_buffer_size_bounds cfg :
  ValidBeforeWriteBufferSize cfg ->
  (result Validate cfg = Some errWriteBufferSize
   <-> HeadChunksWriteBufferSize cfg < chunks_MinWriteBufferSize
       \/ HeadChunksWriteBufferSize cfg > chunks_MaxWriteBufferSize
       \/ ~ (1024 | HeadChunksWriteBufferSize cfg)).
Proof.
  intros ((Hs & Ho) & Hi & Hc).
  pose proof (write_buffer_size_check cfg) as Hcheck.
  unfold ValidWriteBufferSize in Hcheck. pass_checks.
  destruct ((HeadChunksWriteBufferSize cfg <? chunks_MinWriteBufferSize)
            || (HeadChunksWriteBufferSize cfg >? chunks_MaxWriteBufferSize)
            || negb (GoInt.rem (HeadChunksWriteBufferSize cfg) 1024 =? 0))
    eqn:E.
  - split; [|reflexivity]. intros _.
    destruct (Z_lt_ge_dec (HeadChunksWriteBufferSize cfg)
                chunks_MinWriteBufferSize) as [|Hlo];
      [left; assumption|].
    destruct (Z_le_gt_dec (HeadChunksWriteBufferSize cfg)
                chunks_MaxWriteBufferSize) as [Hhi|];
      [|right; left; assumption].
    right; right. intros Hdiv.
    assert (Hfalse : true = false)
      by (apply Hcheck; split; [lia|assumption]).
    discriminate.
  - split; [intros H; exfalso; other_result|].
    assert (Hv : chunks_MinWriteBufferSize
                   <= HeadChunksWriteBufferSize cfg
                   <= chunks_MaxWriteBufferSize
                 /\ (1024 | HeadChunksWriteBufferSize cfg))
      by (apply Hcheck; reflexivity).
    destruct Hv as [Hrange Hdiv]. intros [H|[H|H]]; [lia|lia|tauto].
Qed.

(** C6. With the fields checked before them valid, an empty list of block
    ranges makes [Validate] return [errEmptyBlockranges], whose message is
    [empty block ranges for TSDB]. *)
Theorem empty_block_ranges_rejected cfg :
  GoInt.InRange (StripeSize cfg) ->
  ValidBeforeBlockRanges cfg ->
  BlockRanges cfg = [] ->
  result Validate cfg = Some errEmptyBlockranges
  /\ errors.Error errEmptyBlockranges = "empty block ranges for TSDB".
Proof.
  intros Hr ((((Hs & Ho) & Hi & Hc) & Hb) & Hstripe) Hempty.
  split; [|reflexivity]. pass_checks. rewrite Hempty. reflexivity.
Qed.

(** C2, as the code has it. [Validate] does not look at the out-of-order
    capacity: whatever value the field is given, the result is the one of
    the configuration it was given to. *)
Theorem out_of_order_capacity_not_validated cfg (v : Z) :
  result Validate (with_OutOfOrderCapacityMax v cfg) = result Validate cfg.
Proof. rewrite !Validate_result. reflexivity. Qed.

(** [Validate] only reads its receiver. *)
Lemma Validate_ReadOnly : ReadOnly Validate.
Proof. unfold Validate. auto 40 with readonly. Qed.

(** [RegisterFlags], on the contrary, writes the receiver. *)
Lemma RegisterFlags_writes : ~ ReadOnly RegisterFlags.
Proof. intros H. specialize (H zero). discriminate H. Qed.

(** C10. [Validate] is a pure check. It leaves every field of the
    configuration as it was, whatever it returns; so a call returns what
    the first call returned, however many calls came before it; and what
    it returns is decided by the nine fields that it reads: a configuration
    that agrees with [cfg] on them gets the result of [cfg], nil or the
    same error. Errors are compared by what they hold, their message; the
    values that hold them are told apart with the error values, below. *)
Theorem Validate_pure cfg :
  after Validate cfg = cfg
  /\ (forall n : nat,
        result Validate (Nat.iter n (after Validate) cfg)
        = result Validate cfg)
  /\ (forall cfg',
        SameCheckedFields cfg cfg' ->
        result Validate cfg' = result Validate cfg).
Proof.
  split; [apply Validate_ReadOnly|]. split.
  - intros n. f_equal. induction n as [|n IH]; [reflexivity|].
    rewrite Nat.iter_succ, IH. apply Validate_ReadOnly.
  - intros cfg' (H1 & H2 & H3 & H4 & H5 & H6 & H7 & H8 & H9).
    rewrite !Validate_result, H1, H2, H3, H4, H5, H6, H7, H8, H9.
    reflexivity.
Qed.

(** X7. The result of [Validate] is a function of the nine fields it
    reads: two configurations that agree on them get the same result. *)
Theorem Validate_footprint cfg cfg' :
  SameCheckedFields cfg cfg' ->
  result Validate cfg = result Validate cfg'.
Proof.
  intros (H1 & H2 & H3 & H4 & H5 & H6 & H7 & H8 & H9).
  rewrite !Validate_result, H1, H2, H3, H4, H5, H6, H7, H8, H9.
  reflexivity.
Qed.

(** X8. [RegisterFlags] leaves block ranges that are set as they are and
    gives the default of 2 hours when none is set: after it the list is
    never empty. *)
Theorem RegisterFlags_block_ranges cfg :
  (BlockRanges cfg = [] ->
   BlockRanges (after RegisterFlags cfg) = [2 * time.Hour])
  /\ (BlockRanges cfg <> [] ->
      BlockRanges (after RegisterFlags cfg) = BlockRanges cfg)
  /\ ValidBlockRanges (after RegisterFlags cfg).
Proof.
  unfold ValidBlockRanges, after, RegisterFlags, store. cbn [snd BlockRanges].
  destruct (BlockRanges cfg) as [|r rs]; cbn [List.length Nat.eqb].
  - split; [reflexivity|]. split; [congruence|discriminate].
  - split; [discriminate|]. split; [reflexivity|discriminate].
Qed.

(** X2. [Validate] accepts a configuration exactly when its eight
    constraints hold. *)
Lemma Validate_accepts_iff cfg :
  GoInt.InRange (StripeSize cfg) ->
  (result Validate cfg = None
   <-> ValidBeforeBlockRanges cfg
       /\ ValidBlockRanges cfg /\ ValidWALSegmentSize cfg).
Proof.
  intros Hr. rewrite Validate_result.
  unfold ValidBeforeBlockRanges, ValidBeforeStripeSize,
    ValidBeforeWriteBufferSize, ValidBeforeCompactionInterval.
  rewrite <- ship_concurrency_check, <- opening_concurrency_check,
    <- compaction_interval_check, <- compaction_concurrency_check,
    <- write_buffer_size_check, <- (stripe_size_check cfg Hr),
    <- block_ranges_check, <- wal_segment_size_check.
  repeat match goal with
         | |- context [if ?b then _ else _] => destruct b
         end;
    intuition discriminate.
Qed.

End TSDBValidation.

(** ** BucketStoreConfig.Validate and BlocksStorageConfig.Validate *)

Section StoreValidation.
Context {prom : PrometheusConsts} {ext : Collaborators}.

(** C7. A streaming batch size that is not positive makes [Validate]
    return [errInvalidStreamingBatchSize], whatever the validators of the
    caches would return and before anything is logged: the check comes
    first. *)
Theorem streaming_batch_size_checked_first
  (cfg : BucketStoreConfig.t) (logger : Logger) :
  BucketStoreConfig.StreamingBatchSize cfg <= 0 ->
  BucketStoreConfig.Validate cfg logger
  = (Some errInvalidStreamingBatchSize, logger).
Proof.
  intros Hsize. unfold BucketStoreConfig.Validate, failing_if, ret.
  apply Z.leb_le in Hsize. rewrite Hsize. reflexivity.
Qed.

(** X4. With a positive batch size, [BucketStoreConfig.Validate] returns
    the first failure of the validators of the index cache, of the chunks
    cache and of the metadata cache, wrapped with the name of the cache. *)
Lemma BucketStoreConfig_Validate_result
  (cfg : BucketStoreConfig.t) (logger : Logger) :
  0 < BucketStoreConfig.StreamingBatchSize cfg ->
  result (BucketStoreConfig.Validate cfg) logger
  = first_failure
      [ option_map (fun err => errors.Wrap err "index-cache configuration")
          (IndexCacheConfig_Validate (BucketStoreConfig.IndexCache cfg));
        option_map (fun err => errors.Wrap err "chunks-cache configuration")
          (ChunksCacheConfig_Validate (BucketStoreConfig.ChunksCache cfg));
        option_map
          (fun err => errors.Wrap err "metadata-cache configuration")
          (MetadataCacheConfig_Validate
             (BucketStoreConfig.MetadataCache cfg)) ].
Proof.
  intros Hsize. apply Z.leb_gt in Hsize.
  unfold result, BucketStoreConfig.Validate, failing_if, failing_on, bind,
    store, ret.
  rewrite Hsize.
  destruct (IndexCacheConfig_Validate _); [reflexivity|].
  destruct (ChunksCacheConfig_Validate _); [reflexivity|].
  destruct (MetadataCacheConfig_Validate _); [reflexivity|].
  simpl. destruct (_ >? 0); reflexivity.
Qed.

(** C8. [BlocksStorageConfig.Validate] returns the first failure of the
    validators of the bucket, of the TSDB and of the bucket store, in that
    order, and no error exactly when the three succeed. *)
Theorem blocks_storage_first_failure
  (cfg : BlocksStorageConfig.t) (logger : Logger) :
  let rb := bucket_Config_Validate (BlocksStorageConfig.Bucket cfg) in
  let rt := result TSDBConfig.Validate (BlocksStorageConfig.TSDB cfg) in
  let rs :=
    result (BucketStoreConfig.Validate (BlocksStorageConfig.BucketStore cfg))
      logger in
  let r := result (BlocksStorageConfig.Validate cfg) logger in
  r = first_failure [rb; rt; rs]
  /\ (r = None <-> rb = None /\ rt = None /\ rs = None).
Proof.
  cbv zeta.
  unfold result at 3. unfold BlocksStorageConfig.Validate, failing_on, ret.
  destruct (bucket_Config_Validate _) as [eb|].
  - split; [reflexivity|]. split; [discriminate|intros [H _]; discriminate].
  - destruct (result TSDBConfig.Validate _) as [et|].
    + split; [reflexivity|].
      split; [discriminate|intros (_ & H & _); discriminate].
    + fold (result (BucketStoreConfig.Validate
                      (BlocksStorageConfig.BucketStore cfg)) logger).
      simpl. destruct (result _ logger); split; try reflexivity;
        split; try discriminate; try tauto; intros (_ & _ & H); discriminate.
Qed.

(** X5. When the validator of the bucket or of the TSDB fails,
    [BlocksStorageConfig.Validate] leaves the logger alone. *)
Lemma blocks_storage_early_failure_silent
  (cfg : BlocksStorageConfig.t) (logger : Logger) :
  bucket_Config_Validate (BlocksStorageConfig.Bucket cfg) <> None
  \/ result TSDBConfig.Validate (BlocksStorageConfig.TSDB cfg) <> None ->
  after (BlocksStorageConfig.Validate cfg) logger = logger.
Proof.
  unfold after, BlocksStorageConfig.Validate, failing_on, ret.
  destruct (bucket_Config_Validate _); [reflexivity|].
  destruct (result TSDBConfig.Validate _); [reflexivity|].
  intros [H|H]; congruence.
Qed.

End StoreValidation.

(** ** Joining and splitting on a comma *)

Lemma comma_free_cons (b : ascii) (s : string) :
  comma_free (String b s) <-> b <> ","%char /\ comma_free s.
Proof.
  unfold comma_free. simpl. rewrite orb_false_iff, Ascii.eqb_neq. tauto.
Qed.

Lemma prefix_empty (s : string) : String.prefix "" s = true.
Proof. destruct s; reflexivity. Qed.

(** Looking for a comma from the first byte on. *)
Lemma index_comma_cons (b : ascii) (s : string) :
  String.index 0 "," (String b s)
  = if Ascii.eqb b "," then Some 0%nat
    else option_map S (String.index 0 "," s).
Proof.
  cbn [String.index String.prefix].
  destruct (ascii_dec "," b) as [Heq|Hne].
  - subst b. rewrite prefix_empty. reflexivity.
  - destruct (Ascii.eqb_spec b ","%char) as [Heq|_]; [congruence|].
    destruct (String.index 0 "," s); reflexivity.
Qed.

Lemma index_comma_none (x : string) :
  comma_free x -> String.index 0 "," x = None.
Proof.
  induction x as [|b x IH]; intros Hx; [reflexivity|].
  apply comma_free_cons in Hx. destruct Hx as [Hb Hx].
  rewrite index_comma_cons, (IH Hx).
  apply Ascii.eqb_neq in Hb. rewrite Hb. reflexivity.
Qed.

Lemma index_comma_first (x rest : string) :
  comma_free x ->
  String.index 0 "," (x ++ "," ++ rest) = Some (String.length x).
Proof.
  induction x as [|b x IH]; intros Hx.
  - cbn [append]. rewrite index_comma_cons. reflexivity.
  - apply comma_free_cons in Hx. destruct Hx as [Hb Hx].
    cbn [append String.length] in IH |- *.
    rewrite index_comma_cons, (IH Hx).
    apply Ascii.eqb_neq in Hb. rewrite Hb. reflexivity.
Qed.

Lemma substring_app_prefix (x rest : string) :
  String.substring 0 (String.length x) (x ++ rest) = x.
Proof.
  induction x as [|b x IH]; simpl.
  - destruct rest; reflexivity.
  - rewrite IH. reflexivity.
Qed.

Lemma drop_app_separator (x rest : string) :
  strings.drop (String.length x + String.length ",") (x ++ "," ++ rest)
  = rest.
Proof. induction x as [|b x IH]; simpl; [reflexivity|exact IH]. Qed.

Lemma genSplit_Join (xs : list string) :
  xs <> [] -> Forall comma_free xs ->
  forall n, (List.length xs <= S n)%nat ->
  strings.genSplit n (strings.Join xs ",") "," = xs.
Proof.
  induction xs as [|x xs IH]; [congruence|]. intros _ Hfree n Hn.
  inversion Hfree as [|? ? Hx Hxs]; subst.
  destruct xs as [|y ys].
  - simpl. destruct n; [reflexivity|].
    simpl. rewrite (index_comma_none x Hx). reflexivity.
  - change (strings.Join (x :: y :: ys) ",")
      with (x ++ "," ++ strings.Join (y :: ys) ",")%string.
    destruct n as [|n]; [simpl in Hn; lia|].
    cbn [strings.genSplit].
    rewrite (index_comma_first x _ Hx), substring_app_prefix,
      drop_app_separator.
    f_equal. apply IH; [discriminate|assumption|simpl in *; lia].
Qed.

Lemma length_after (x rest : string) :
  (String.length rest <= String.length (x ++ rest))%nat.
Proof. induction x as [|b x IH]; simpl; lia. Qed.

Lemma Join_length (xs : list string) :
  (List.length xs <= S (String.length (strings.Join xs ",")))%nat.
Proof.
  induction xs as [|x xs IH]; [simpl; lia|].
  destruct xs as [|y ys]; [simpl; lia|].
  change (strings.Join (x :: y :: ys) ",")
    with (x ++ String "," (strings.Join (y :: ys) ","))%string.
  pose proof (length_after x (String "," (strings.Join (y :: ys) ","))) as H.
  cbn [String.length List.length] in *. lia.
Qed.

(** Splitting the joined strings gives them back, when there is at least
    one and none holds a comma. *)
Lemma Split_Join (xs : list string) :
  xs <> [] -> Forall comma_free xs ->
  strings.Split (strings.Join xs ",") "," = xs.
Proof.
  intros Hne Hfree. unfold strings.Split.
  apply genSplit_Join; [assumption|assumption|apply Join_length].
Qed.

(* ================================================================== *)
(** * Package time: [ParseDuration] reads what [String] writes *)

(** ** Floats: exact products of small integers *)

Lemma digits2_pos_log2 (n : positive) :
  Zpos (digits2_pos n) = Z.log2 (Zpos n) + 1.
Proof.
  induction n as [n IH|n IH|]; simpl digits2_pos; rewrite ?Pos2Z.inj_succ, ?IH.
  - rewrite (Pos2Z.inj_xI n), Z.log2_succ_double by lia. lia.
  - rewrite (Pos2Z.inj_xO n), Z.log2_double by lia. lia.
  - reflexivity.
Qed.

Lemma digits2_pos_bounds (n : positive) :
  2 ^ (Zpos (digits2_pos n) - 1) <= Zpos n < 2 ^ Zpos (digits2_pos n).
Proof.
  rewrite digits2_pos_log2.
  replace (Z.log2 (Zpos n) + 1 - 1) with (Z.log2 (Zpos n)) by lia.
  replace (Z.log2 (Zpos n) + 1) with (Z.succ (Z.log2 (Zpos n))) by lia.
  apply Z.log2_spec. lia.
Qed.

Lemma digits2_pos_unique (n : positive) (d : Z) :
  2 ^ (d - 1) <= Zpos n < 2 ^ d -> Zpos (digits2_pos n) = d.
Proof.
  intros H. rewrite digits2_pos_log2.
  assert (0 < d).
  { destruct (Z_lt_le_dec 0 d); [assumption|].
    assert (2 ^ d <= 2 ^ 0) by (apply Z.pow_le_mono_r; lia).
    change (2 ^ 0) with 1 in *. lia. }
  assert (Z.log2 (Zpos n) = d - 1); [|lia].
  apply Z.log2_unique; [lia|]. replace (Z.succ (d - 1)) with d by lia. exact H.
Qed.

(** Shifting out [p] zero bits. *)
Lemma shr_1_even (q : Z) :
  0 < q ->
  shr_1 (Build_shr_record (q * 2) false false) = Build_shr_record q false false.
Proof.
  intros Hq. destruct q as [|q|q]; try lia.
  replace (Z.pos q * 2) with (Z.pos q~0) by lia. reflexivity.
Qed.

Lemma iter_pos_shr_1_exact (p : positive) : forall q : Z,
  0 < q ->
  iter_pos shr_1 p (Build_shr_record (q * 2 ^ Zpos p) false false)
  = Build_shr_record q false false.
Proof.
  induction p as [p IH|p IH|]; intros q Hq; cbn [iter_pos].
  - assert (Hpow : 0 < 2 ^ Zpos p) by (apply Z.pow_pos_nonneg; lia).
    replace (q * 2 ^ Zpos p~1) with (q * 2 ^ Zpos p * 2 ^ Zpos p * 2).
    + rewrite shr_1_even by nia. rewrite IH by nia. apply IH. assumption.
    + replace (Zpos p~1) with (Zpos p + Zpos p + 1) by lia.
      rewrite !Z.pow_add_r by lia. change (2 ^ 1) with 2. ring.
  - assert (Hpow : 0 < 2 ^ Zpos p) by (apply Z.pow_pos_nonneg; lia).
    replace (q * 2 ^ Zpos p~0) with (q * 2 ^ Zpos p * 2 ^ Zpos p).
    + rewrite IH by nia. apply IH. assumption.
    + replace (Zpos p~0) with (Zpos p + Zpos p) by lia.
      rewrite !Z.pow_add_r by lia. ring.
  - change (2 ^ 1) with 2. apply shr_1_even. assumption.
Qed.

Lemma fexp_53 (d : Z) : -1021 <= d -> fexp prec emax d = d - 53.
Proof. unfold fexp, emin, prec, emax. lia. Qed.

(** A mantissa of 53 bits is not rounded. *)
Lemma binary_round_aux_53 (m : positive) (e : Z) :
  Zpos (digits2_pos m) = 53 -> -1074 <= e <= 971 ->
  binary_round_aux prec emax false (Zpos m) e loc_Exact = S754_finite false m e.
Proof.
  intros Hd He. unfold binary_round_aux, shr_fexp.
  cbn [Zdigits2 shr_record_of_loc].
  rewrite Hd, fexp_53 by lia.
  replace (53 + e - 53 - e) with 0 by lia.
  cbn [shr shr_m loc_of_shr_record round_nearest_even Zdigits2
       shr_record_of_loc].
  rewrite Hd, fexp_53 by lia.
  replace (53 + e - 53 - e) with 0 by lia. cbn [shr shr_m].
  unfold emax, prec. destruct (Z.leb_spec e (1024 - 53)); [reflexivity|lia].
Qed.

Lemma pos_iter_xO (n k : positive) :
  Zpos (Pos.iter xO n k) = Zpos n * 2 ^ Zpos k.
Proof.
  rewrite <- (Pos2Z.inj_pow 2 k), <- Pos2Z.inj_mul. f_equal.
  revert n. induction k using Pos.peano_ind; intros n.
  - rewrite Pos.iter_succ_r || simpl. lia.
  - rewrite Pos.iter_succ, IHk, Pos.pow_succ_r. lia.
Qed.

Lemma canonical_digits (n : positive) :
  Zpos n < 2 ^ 53 ->
  let d := Zpos (digits2_pos n) in
  1 <= d <= 53
  /\ 0 < Zpos n * 2 ^ (53 - d)
  /\ Zpos (digits2_pos (Z.to_pos (Zpos n * 2 ^ (53 - d)))) = 53.
Proof.
  intros Hn d. pose proof (digits2_pos_bounds n) as Hb. fold d in Hb.
  assert (Hd1 : 1 <= d) by (unfold d; lia).
  assert (Hd : d <= 53).
  { destruct (Z_le_gt_dec d 53); [assumption|exfalso].
    assert (2 ^ 53 <= 2 ^ (d - 1)) by (apply Z.pow_le_mono_r; lia). lia. }
  assert (Hpow : 0 < 2 ^ (53 - d)) by (apply Z.pow_pos_nonneg; lia).
  split; [lia|]. split; [nia|].
  apply digits2_pos_unique. rewrite Z2Pos.id by nia.
  assert (H1 : 2 ^ (53 - 1) = 2 ^ (d - 1) * 2 ^ (53 - d))
    by (rewrite <- Z.pow_add_r by lia; f_equal; lia).
  assert (H2 : 2 ^ 53 = 2 ^ d * 2 ^ (53 - d))
    by (rewrite <- Z.pow_add_r by lia; f_equal; lia).
  rewrite H1, H2. split.
  - apply Z.mul_le_mono_nonneg_r; lia.
  - apply Z.mul_lt_mono_pos_r; lia.
Qed.

(** The conversion of an integer below [2^53] is exact. *)
Lemma binary_normalize_canonical (n : positive) :
  Zpos n < 2 ^ 53 ->
  binary_normalize prec emax (Zpos n) 0 false = canonical n.
Proof.
  intros Hn. destruct (canonical_digits n Hn) as (Hd & Hpos & Hdig).
  unfold binary_normalize, binary_round, canonical.
  rewrite Z.add_0_r, fexp_53 by lia. unfold shl_align.
  set (d := Zpos (digits2_pos n)) in *.
  destruct (d - 53 - 0) as [|k|k] eqn:Hk; try lia.
  - assert (d = 53) by lia.
    replace (53 - d) with 0 in * by lia. rewrite Z.mul_1_r in *.
    rewrite Pos2Z.id in *. replace (d - 53) with 0 by lia.
    apply binary_round_aux_53; [assumption|lia].
  - assert (Hm : Pos.iter xO n k = Z.to_pos (Zpos n * 2 ^ (53 - d))).
    { apply Pos2Z.inj. rewrite pos_iter_xO, Z2Pos.id by lia.
      f_equal. f_equal. lia. }
    rewrite Hm. apply binary_round_aux_53; [assumption|lia].
Qed.

(** A mantissa of 53 bits followed by [s] zero bits is shifted back. *)
Lemma binary_round_aux_shift (M m : positive) (s : positive) (e : Z) :
  Zpos M = Zpos m * 2 ^ Zpos s ->
  Zpos (digits2_pos m) = 53 ->
  -1074 <= e + Zpos s <= 971 ->
  binary_round_aux prec emax false (Zpos M) e loc_Exact
  = S754_finite false m (e + Zpos s).
Proof.
  intros HM Hd He.
  assert (HdM : Zpos (digits2_pos M) = 53 + Zpos s).
  { apply digits2_pos_unique. rewrite HM.
    pose proof (digits2_pos_bounds m) as Hb. rewrite Hd in Hb.
    assert (Hpow : 0 < 2 ^ Zpos s) by (apply Z.pow_pos_nonneg; lia).
    assert (H1 : 2 ^ (53 + Zpos s - 1) = 2 ^ (53 - 1) * 2 ^ Zpos s)
      by (rewrite <- Z.pow_add_r by lia; f_equal; lia).
    assert (H2 : 2 ^ (53 + Zpos s) = 2 ^ 53 * 2 ^ Zpos s)
      by (rewrite <- Z.pow_add_r by lia; f_equal; lia).
    rewrite H1, H2. split.
    - apply Z.mul_le_mono_nonneg_r; lia.
    - apply Z.mul_lt_mono_pos_r; lia. }
  unfold binary_round_aux, shr_fexp at 1.
  cbn [Zdigits2 shr_record_of_loc].
  rewrite HdM, fexp_53 by lia.
  replace (53 + Zpos s + e - 53 - e) with (Zpos s) by lia.
  cbn [shr]. rewrite HM, iter_pos_shr_1_exact by lia.
  cbn [shr_m loc_of_shr_record round_nearest_even].
  unfold shr_fexp. cbn [Zdigits2 shr_record_of_loc].
  rewrite Hd, fexp_53 by lia.
  replace (53 + (e + Zpos s) - 53 - (e + Zpos s)) with 0 by lia.
  cbn [shr shr_m]. unfold emax, prec.
  destruct (Z.leb_spec (e + Zpos s) (1024 - 53)); [reflexivity|lia].
Qed.

(** The product of two integers is exact when it is below [2^53]. *)
Lemma SFmul_canonical (a b : positive) :
  Zpos a * Zpos b < 2 ^ 53 ->
  SFmul prec emax (canonical a) (canonical b) = canonical (a * b).
Proof.
  intros Hab.
  assert (Ha : Zpos a < 2 ^ 53) by nia.
  assert (Hb : Zpos b < 2 ^ 53) by nia.
  destruct (canonical_digits a Ha) as (Hda & Hpa & Hma).
  destruct (canonical_digits b Hb) as (Hdb & Hpb & Hmb).
  destruct (canonical_digits (a * b) ltac:(rewrite Pos2Z.inj_mul; exact Hab))
    as (Hdab & Hpab & Hmab).
  pose proof (digits2_pos_bounds a) as Ba.
  pose proof (digits2_pos_bounds b) as Bb.
  pose proof (digits2_pos_bounds (a * b)) as Bab.
  rewrite Pos2Z.inj_mul in Bab, Hpab, Hmab.
  unfold canonical, SFmul. rewrite Pos2Z.inj_mul. cbn [xorb].
  set (da := Zpos (digits2_pos a)) in *.
  set (db := Zpos (digits2_pos b)) in *.
  set (dab := Zpos (digits2_pos (a * b))) in *.
  (* The digits of the product. *)
  assert (Hlo : da + db - 1 <= dab).
  { destruct (Z_le_gt_dec (da + db - 1) dab); [assumption|exfalso].
    assert (2 ^ dab <= 2 ^ (da + db - 2)) by (apply Z.pow_le_mono_r; lia).
    assert (2 ^ (da + db - 2) = 2 ^ (da - 1) * 2 ^ (db - 1))
      by (rewrite <- Z.pow_add_r by lia; f_equal; lia).
    assert (0 < 2 ^ (da - 1)) by (apply Z.pow_pos_nonneg; lia).
    assert (0 < 2 ^ (db - 1)) by (apply Z.pow_pos_nonneg; lia).
    nia. }
  assert (Hhi : dab <= da + db).
  { destruct (Z_le_gt_dec dab (da + db)); [assumption|exfalso].
    assert (2 ^ (da + db) <= 2 ^ (dab - 1)) by (apply Z.pow_le_mono_r; lia).
    assert (2 ^ (da + db) = 2 ^ da * 2 ^ db)
      by (rewrite <- Z.pow_add_r by lia; reflexivity).
    nia. }
  set (s := 53 + dab - da - db).
  assert (Hs : 0 < s) by (unfold s; lia).
  replace (da - 53 + (db - 53)) with (dab - 53 - s) by (unfold s; lia).
  replace (dab - 53) with (dab - 53 - s + Zpos (Z.to_pos s)) at 2
    by (rewrite Z2Pos.id by lia; lia).
  apply binary_round_aux_shift.
  - rewrite Pos2Z.inj_mul, !Z2Pos.id by lia.
    assert (Hpow : 2 ^ (53 - da) * 2 ^ (53 - db) = 2 ^ (53 - dab) * 2 ^ s).
    { rewrite <- !Z.pow_add_r by lia. f_equal. unfold s. lia. }
    replace (Zpos a * 2 ^ (53 - da) * (Zpos b * 2 ^ (53 - db)))
      with (Zpos a * Zpos b * (2 ^ (53 - da) * 2 ^ (53 - db))) by ring.
    rewrite Hpow, Pos2Z.inj_mul.
    generalize (2 ^ (53 - dab)) (2 ^ s). intros x y. ring.
  - exact Hmab.
  - rewrite Z2Pos.id by lia. lia.
Qed.

Lemma float64_of_uint64_canonical (n : positive) :
  Zpos n < 2 ^ 53 -> Prim2SF (gotime.float64_of_uint64 (Zpos n)) = canonical n.
Proof.
  intros Hn. unfold gotime.float64_of_uint64.
  destruct (Z.ltb_spec (Zpos n) (2 ^ 63)) as [_|H]; [|lia].
  rewrite of_uint63_spec, Uint63.of_Z_spec, Z.mod_small.
  - apply binary_normalize_canonical. assumption.
  - unfold wB, size. change (2 ^ Z.of_nat 63) with (2 ^ 63). lia.
Qed.

Lemma uint64_of_canonical (x : float) (n : positive) :
  Zpos n < 2 ^ 53 -> Prim2SF x = canonical n ->
  gotime.uint64_of_float64 x = Zpos n.
Proof.
  intros Hn Hx. unfold gotime.uint64_of_float64. rewrite Hx. unfold canonical.
  destruct (canonical_digits n Hn) as (Hd & Hpos & _).
  set (d := Zpos (digits2_pos n)) in *.
  rewrite Z2Pos.id by assumption.
  assert (Hpow : 0 < 2 ^ (53 - d)) by (apply Z.pow_pos_nonneg; lia).
  assert (Hval : (if 0 <=? d - 53 then Zpos n * 2 ^ (53 - d) * 2 ^ (d - 53)
                  else Zpos n * 2 ^ (53 - d) / 2 ^ (- (d - 53))) = Zpos n).
  { destruct (Z.leb_spec 0 (d - 53)).
    - replace (53 - d) with 0 by lia. replace (d - 53) with 0 by lia.
      change (2 ^ 0) with 1. lia.
    - replace (- (d - 53)) with (53 - d) by lia. apply Z.div_mul. lia. }
  rewrite Hval. unfold gotime.uint64. apply Z.mod_small. lia.
Qed.

(** Multiplying the float of [f] by the float of [c] and truncating gives
    [f * c], as long as the product is below [2^53]. *)
Lemma float_mul_exact (f c : Z) (C : float) :
  0 < f -> 0 < c -> f * c < 2 ^ 53 ->
  Prim2SF C = canonical (Z.to_pos c) ->
  gotime.uint64_of_float64 (PrimFloat.mul (gotime.float64_of_uint64 f) C)
  = f * c.
Proof.
  intros Hf Hc Hfc HC.
  destruct f as [|f|f]; try lia. destruct c as [|c|c]; try lia.
  cbn [Z.to_pos] in HC.
  rewrite <- Pos2Z.inj_mul. apply uint64_of_canonical.
  - rewrite Pos2Z.inj_mul. assumption.
  - rewrite mul_spec, HC, float64_of_uint64_canonical by nia.
    apply SFmul_canonical. assumption.
Qed.

(** ** Digits *)

Lemma digit_cases (d : Z) :
  0 <= d <= 9 ->
  d = 0 \/ d = 1 \/ d = 2 \/ d = 3 \/ d = 4 \/ d = 5 \/ d = 6 \/ d = 7
  \/ d = 8 \/ d = 9.
Proof. lia. Qed.

Ltac each_digit d H :=
  destruct (digit_cases d H)
    as [->|[->|[->|[->|[->|[->|[->|[->|[->| ->]]]]]]]]].

Lemma digit_byte_is_digit (d : Z) :
  0 <= d <= 9 -> is_digit (gotime.digit_byte d) = true.
Proof. intros H. each_digit d H; reflexivity. Qed.

Lemma digit_byte_value (d : Z) :
  0 <= d <= 9 -> byte_val (gotime.digit_byte d) - byte_val "0" = d.
Proof. intros H. each_digit d H; reflexivity. Qed.

Lemma digit_byte_not_period (d : Z) :
  0 <= d <= 9 -> Ascii.eqb (gotime.digit_byte d) "." = false.
Proof. intros H. each_digit d H; reflexivity. Qed.

Lemma digit_byte_not_comma (d : Z) :
  0 <= d <= 9 -> Ascii.eqb (gotime.digit_byte d) "," = false.
Proof. intros H. each_digit d H; reflexivity. Qed.

Lemma mod_10_digit (v : Z) : 0 <= v mod 10 <= 9.
Proof. pose proof (Z.mod_pos_bound v 10). lia. Qed.

(** ** Integers: [fmtInt] against [leadingInt] *)

(** One digit read by [leadingInt]. *)
Lemma leadingInt_loop_digit (x d : Z) (buf : string) :
  0 <= x -> 0 <= d <= 9 -> x * 10 + d <= 2 ^ 63 ->
  gotime.leadingInt_loop x (String (gotime.digit_byte d) buf)
  = gotime.leadingInt_loop (x * 10 + d) buf.
Proof.
  intros Hx Hd Hb. cbn [gotime.leadingInt_loop].
  rewrite (digit_byte_is_digit d Hd). cbn [negb].
  assert (Hdiv : x <= 2 ^ 63 / 10) by (apply Z.div_le_lower_bound; lia).
  destruct (Z.gtb_spec x (2 ^ 63 / 10)) as [H|_]; [lia|].
  replace (x * 10 + byte_val (gotime.digit_byte d) - byte_val "0")
    with (x * 10 + d) by (pose proof (digit_byte_value d Hd); lia).
  unfold gotime.uint64.
  rewrite Z.mod_small
    by (change (2 ^ 64) with 18446744073709551616;
        change (2 ^ 63) with 9223372036854775808 in Hb; lia).
  destruct (Z.gtb_spec (x * 10 + d) (2 ^ 63)) as [H|_]; [lia|]. reflexivity.
Qed.

Lemma fmtInt_loop_zero (fuel : nat) (buf : string) :
  gotime.fmtInt_loop fuel buf 0 = buf.
Proof. destruct fuel; reflexivity. Qed.

(** Reading what [fmtInt] wrote in front of [buf] amounts to reading
    [buf] from the number written. *)
Lemma leadingInt_fmtInt_loop (fuel : nat) : forall (buf : string) (v : Z),
  0 < v <= 2 ^ 63 -> v < 10 ^ Z.of_nat fuel ->
  gotime.leadingInt_loop 0 (gotime.fmtInt_loop fuel buf v)
  = gotime.leadingInt_loop v buf.
Proof.
  induction fuel as [|fuel IH]; intros buf v Hv Hfuel.
  - change (10 ^ Z.of_nat 0) with 1 in Hfuel. lia.
  - cbn [gotime.fmtInt_loop].
    destruct (Z.gtb_spec v 0) as [_|H]; [|lia].
    pose proof (mod_10_digit v) as Hd.
    pose proof (Z.div_mod v 10 ltac:(lia)) as Hdm.
    destruct (Z.eq_dec (v / 10) 0) as [Hz|Hnz].
    + rewrite Hz, fmtInt_loop_zero, leadingInt_loop_digit by lia.
      f_equal. lia.
    + assert (Hq : 0 < v / 10) by (pose proof (Z.div_pos v 10); lia).
      rewrite IH.
      * rewrite leadingInt_loop_digit by lia. f_equal. lia.
      * lia.
      * rewrite Nat2Z.inj_succ, Z.pow_succ_r in Hfuel by lia.
        apply Z.div_lt_upper_bound; lia.
Qed.

Lemma leadingInt_loop_stop (x : Z) (buf : string) :
  gotime.starts_with is_digit buf = false ->
  gotime.leadingInt_loop x buf = Some (x, buf).
Proof.
  destruct buf as [|c buf]; [reflexivity|].
  cbn [gotime.starts_with gotime.leadingInt_loop].
  intros ->. reflexivity.
Qed.

Lemma leadingInt_fmtInt (buf : string) (v : Z) :
  0 <= v <= 2 ^ 63 -> gotime.starts_with is_digit buf = false ->
  gotime.leadingInt (gotime.fmtInt buf v) = Some (v, buf).
Proof.
  intros Hv Hbuf. unfold gotime.leadingInt, gotime.fmtInt.
  destruct (Z.eqb_spec v 0) as [->|Hnz].
  - change (String "0" buf) with (String (gotime.digit_byte 0) buf).
    rewrite leadingInt_loop_digit by lia. apply leadingInt_loop_stop, Hbuf.
  - rewrite leadingInt_fmtInt_loop.
    + apply leadingInt_loop_stop, Hbuf.
    + lia.
    + change (2 ^ 63) with 9223372036854775808 in Hv.
      change (10 ^ Z.of_nat 20) with 100000000000000000000. lia.
Qed.

Lemma fmtInt_loop_20 (buf : string) (v : Z) :
  gotime.fmtInt_loop 20 buf v
  = if v >? 0
    then gotime.fmtInt_loop 19 (String (gotime.digit_byte (v mod 10)) buf)
           (v / 10)
    else buf.
Proof. reflexivity. Qed.

(** What [fmtInt] writes is not empty and starts with a digit. *)
Lemma fmtInt_loop_length (fuel : nat) : forall (buf : string) (v : Z),
  (String.length buf <= String.length (gotime.fmtInt_loop fuel buf v))%nat.
Proof.
  induction fuel as [|fuel IH]; intros buf v; cbn [gotime.fmtInt_loop]; [lia|].
  destruct (v >? 0); [|lia].
  specialize (IH (String (gotime.digit_byte (v mod 10)) buf) (v / 10)).
  cbn [String.length] in IH. lia.
Qed.

Lemma fmtInt_length (buf : string) (v : Z) :
  0 <= v ->
  (String.length buf < String.length (gotime.fmtInt buf v))%nat.
Proof.
  intros Hv. unfold gotime.fmtInt.
  destruct (Z.eqb_spec v 0); [cbn [String.length]; lia|].
  rewrite fmtInt_loop_20.
  destruct (Z.gtb_spec v 0); [|lia].
  pose proof (fmtInt_loop_length 19
                (String (gotime.digit_byte (v mod 10)) buf) (v / 10)) as Hlen.
  cbn [String.length] in Hlen. lia.
Qed.

Lemma fmtInt_loop_starts (p : ascii -> bool) (fuel : nat) :
  forall (buf : string) (v : Z),
  (forall d, 0 <= d <= 9 -> p (gotime.digit_byte d) = true) ->
  gotime.starts_with p buf = true ->
  gotime.starts_with p (gotime.fmtInt_loop fuel buf v) = true.
Proof.
  induction fuel as [|fuel IH]; intros buf v Hp Hbuf;
    cbn [gotime.fmtInt_loop]; [assumption|].
  destruct (v >? 0); [|assumption].
  apply IH; [assumption|]. cbn [gotime.starts_with].
  apply Hp, mod_10_digit.
Qed.

Lemma fmtInt_starts (p : ascii -> bool) (buf : string) (v : Z) :
  0 <= v ->
  (forall d, 0 <= d <= 9 -> p (gotime.digit_byte d) = true) ->
  gotime.starts_with p (gotime.fmtInt buf v) = true.
Proof.
  intros Hv Hp. unfold gotime.fmtInt.
  destruct (Z.eqb_spec v 0); [apply (Hp 0); lia|].
  rewrite fmtInt_loop_20.
  destruct (Z.gtb_spec v 0); [|lia].
  apply fmtInt_loop_starts; [assumption|]. apply Hp, mod_10_digit.
Qed.

(** ** Fractions: [fmtFrac] against [leadingFraction] *)

Lemma leadingFraction_loop_digit (x d : Z) (scale : float) (buf : string) :
  0 <= x -> 0 <= d <= 9 -> x * 10 + d <= 2 ^ 63 - 1 ->
  gotime.leadingFraction_loop x scale false (String (gotime.digit_byte d) buf)
  = gotime.leadingFraction_loop (x * 10 + d) (times10 scale) false buf.
Proof.
  intros Hx Hd Hb. cbn [gotime.leadingFraction_loop].
  rewrite (digit_byte_is_digit d Hd). cbn [negb].
  change (2 ^ 63) with 9223372036854775808 in *.
  assert (Hdiv : x <= (9223372036854775808 - 1) / 10)
    by (apply Z.div_le_lower_bound; lia).
  destruct (Z.gtb_spec x ((9223372036854775808 - 1) / 10)) as [H|_]; [lia|].
  replace (x * 10 + byte_val (gotime.digit_byte d) - byte_val "0")
    with (x * 10 + d) by (pose proof (digit_byte_value d Hd); lia).
  unfold gotime.uint64.
  rewrite Z.mod_small by (change (2 ^ 64) with 18446744073709551616; lia).
  destruct (Z.gtb_spec (x * 10 + d) 9223372036854775808) as [H|_]; [lia|].
  reflexivity.
Qed.

Lemma leadingFraction_loop_stop (x : Z) (scale : float) (buf : string) :
  gotime.starts_with is_digit buf = false ->
  gotime.leadingFraction_loop x scale false buf = (x, scale, buf).
Proof.
  destruct buf as [|c buf]; [reflexivity|].
  cbn [gotime.starts_with gotime.leadingFraction_loop]. intros ->. reflexivity.
Qed.

Lemma mod_pow10_succ (v : Z) (n : nat) :
  0 <= v ->
  v mod 10 ^ Z.of_nat (S n) = (v / 10) mod 10 ^ Z.of_nat n * 10 + v mod 10.
Proof.
  intros Hv. rewrite Nat2Z.inj_succ, Z.pow_succ_r by lia.
  assert (Hp : 0 < 10 ^ Z.of_nat n) by (apply Z.pow_pos_nonneg; lia).
  rewrite Z.rem_mul_r by lia. lia.
Qed.

Lemma div_pow10_succ (v : Z) (n : nat) :
  0 <= v -> v / 10 ^ Z.of_nat (S n) = v / 10 / 10 ^ Z.of_nat n.
Proof.
  intros Hv. rewrite Nat2Z.inj_succ, Z.pow_succ_r by lia.
  assert (Hp : 0 < 10 ^ Z.of_nat n) by (apply Z.pow_pos_nonneg; lia).
  rewrite Z.div_div by lia. reflexivity.
Qed.

(** Once a digit has been printed, the [n] digits left are all printed,
    and read back in front of [buf]. *)
Lemma fmtFrac_loop_printing (n : nat) : forall (buf : string) (v : Z),
  0 <= v ->
  exists buf',
    gotime.fmtFrac_loop n buf v true = (buf', v / 10 ^ Z.of_nat n, true)
    /\ String.length buf' = (n + String.length buf)%nat
    /\ forall x scale,
         0 <= x ->
         x * 10 ^ Z.of_nat n + v mod 10 ^ Z.of_nat n <= 2 ^ 63 - 1 ->
         gotime.leadingFraction_loop x scale false buf'
         = gotime.leadingFraction_loop
             (x * 10 ^ Z.of_nat n + v mod 10 ^ Z.of_nat n)
             (Nat.iter n times10 scale) false buf.
Proof.
  induction n as [|n IH]; intros buf v Hv.
  - exists buf. cbn [gotime.fmtFrac_loop Nat.iter nat_rect].
    change (10 ^ Z.of_nat 0) with 1. rewrite Z.div_1_r, Z.mod_1_r.
    split; [reflexivity|]. split; [reflexivity|].
    intros x scale _ _. f_equal. lia.
  - cbn [gotime.fmtFrac_loop orb].
    pose proof (mod_10_digit v) as Hd.
    destruct (IH (String (gotime.digit_byte (v mod 10)) buf) (v / 10)
                ltac:(apply Z.div_pos; lia)) as (buf' & Heq & Hlen & Hread).
    exists buf'. rewrite Heq, div_pow10_succ by assumption.
    split; [reflexivity|]. split; [cbn [String.length] in Hlen; lia|].
    intros x scale Hx Hb. rewrite mod_pow10_succ in * by assumption.
    assert (Hp : 0 < 10 ^ Z.of_nat n) by (apply Z.pow_pos_nonneg; lia).
    pose proof (Z.mod_pos_bound (v / 10) (10 ^ Z.of_nat n) Hp) as Hm.
    rewrite Nat2Z.inj_succ, Z.pow_succ_r in * by lia.
    rewrite Hread by nia.
    rewrite leadingFraction_loop_digit by nia.
    cbn [Nat.iter nat_rect]. f_equal. ring.
Qed.

(** The fraction of [v / 10^n] as [fmtFrac] prints it: nothing when it is
    zero, and otherwise its [k] digits down to the last one that is not
    zero, read back as the numerator over [10^k]. *)
Lemma fmtFrac_loop_skipping (n : nat) : forall (buf : string) (v : Z),
  (n <= 18)%nat -> 0 <= v ->
  (v mod 10 ^ Z.of_nat n = 0
   /\ gotime.fmtFrac_loop n buf v false = (buf, v / 10 ^ Z.of_nat n, false))
  \/ (v mod 10 ^ Z.of_nat n <> 0
      /\ exists buf' (k j : nat) (f : Z),
           (1 <= k)%nat /\ (k + j = n)%nat
           /\ v mod 10 ^ Z.of_nat n = f * 10 ^ Z.of_nat j
           /\ gotime.fmtFrac_loop n buf v false
              = (buf', v / 10 ^ Z.of_nat n, true)
           /\ String.length buf' = (k + String.length buf)%nat
           /\ forall scale,
                gotime.starts_with is_digit buf = false ->
                gotime.leadingFraction_loop 0 scale false buf'
                = (f, Nat.iter k times10 scale, buf)).
Proof.
  induction n as [|n IH]; intros buf v Hn Hv.
  - left. change (10 ^ Z.of_nat 0) with 1. rewrite Z.div_1_r, Z.mod_1_r.
    split; reflexivity.
  - cbn [gotime.fmtFrac_loop orb].
    pose proof (mod_10_digit v) as Hd.
    assert (Hq : 0 <= v / 10) by (apply Z.div_pos; lia).
    assert (Hp : 0 < 10 ^ Z.of_nat n) by (apply Z.pow_pos_nonneg; lia).
    pose proof (Z.mod_pos_bound (v / 10) (10 ^ Z.of_nat n) Hp) as Hm.
    rewrite mod_pow10_succ, div_pow10_succ by assumption.
    destruct (Z.eqb_spec (v mod 10) 0) as [Hz|Hnz]; cbn [negb].
    + destruct (IH buf (v / 10) ltac:(lia) Hq)
        as [[Hzero Heq]|(Hnonzero & buf' & k & j & f & Hk & Hkj & Hf & Heq
                         & Hlen & Hread)].
      * left. rewrite Hzero, Hz, Heq. split; reflexivity.
      * right. split; [lia|].
        exists buf', k, (S j), f. rewrite Heq.
        split; [assumption|]. split; [lia|]. split.
        { rewrite Hf, Hz, Nat2Z.inj_succ, Z.pow_succ_r by lia. ring. }
        split; [reflexivity|]. split; [assumption|]. exact Hread.
    + right. split; [lia|].
      destruct (fmtFrac_loop_printing n
                  (String (gotime.digit_byte (v mod 10)) buf) (v / 10) Hq)
        as (buf' & Heq & Hlen & Hread).
      exists buf', (S n), O, ((v / 10) mod 10 ^ Z.of_nat n * 10 + v mod 10).
      rewrite Heq. split; [lia|]. split; [lia|]. split.
      { change (10 ^ Z.of_nat 0) with 1. ring. }
      split; [reflexivity|]. split; [cbn [String.length] in Hlen; lia|].
      intros scale Hstop.
      assert (Hbound : 10 ^ Z.of_nat n <= 10 ^ 17)
        by (apply Z.pow_le_mono_r; lia).
      change (10 ^ 17) with 100000000000000000 in Hbound.
      rewrite Hread by
        (change (2 ^ 63) with 9223372036854775808; lia).
      rewrite Z.mul_0_l, Z.add_0_l.
      rewrite leadingFraction_loop_digit by
        (change (2 ^ 63) with 9223372036854775808; lia).
      apply leadingFraction_loop_stop, Hstop.
Qed.

(** [fmtFrac] in the same terms. *)
Lemma fmtFrac_spec (n : nat) (buf : string) (v : Z) :
  (n <= 18)%nat -> 0 <= v ->
  (v mod 10 ^ Z.of_nat n = 0
   /\ gotime.fmtFrac buf v n = (buf, v / 10 ^ Z.of_nat n))
  \/ (v mod 10 ^ Z.of_nat n <> 0
      /\ exists buf' (k j : nat) (f : Z),
           (1 <= k)%nat /\ (k + j = n)%nat
           /\ v mod 10 ^ Z.of_nat n = f * 10 ^ Z.of_nat j
           /\ gotime.fmtFrac buf v n
              = (String "." buf', v / 10 ^ Z.of_nat n)
           /\ (String.length buf < String.length buf')%nat
           /\ forall scale,
                gotime.starts_with is_digit buf = false ->
                gotime.leadingFraction_loop 0 scale false buf'
                = (f, Nat.iter k times10 scale, buf)).
Proof.
  intros Hn Hv. unfold gotime.fmtFrac.
  destruct (fmtFrac_loop_skipping n buf v Hn Hv)
    as [[Hzero Heq]|(Hnonzero & buf' & k & j & f & Hk & Hkj & Hf & Heq
                     & Hlen & Hread)].
  - left. rewrite Heq. split; [assumption|reflexivity].
  - right. split; [assumption|]. exists buf', k, j, f. rewrite Heq.
    repeat (split; [first [assumption|reflexivity|lia]|]). exact Hread.
Qed.

(** ** One term of a duration, read by [ParseDuration] *)

Lemma eqb_empty_false (s : string) :
  (0 < String.length s)%nat -> String.eqb s "" = false.
Proof. destruct s; [cbn; lia|reflexivity]. Qed.

Lemma drop_app (u rest : string) :
  strings.drop (String.length u) (u ++ rest) = rest.
Proof. induction u as [|c u IH]; [destruct rest; reflexivity|exact IH]. Qed.


Lemma uint64_small (z : Z) : 0 <= z <= 2 ^ 63 -> gotime.uint64 z = z.
Proof.
  intros H. unfold gotime.uint64. apply Z.mod_small.
  change (2 ^ 63) with 9223372036854775808 in H.
  change (2 ^ 64) with 18446744073709551616. lia.
Qed.

Lemma parse_terms_unfold (fuel : nat) (orig s : string) (d : Z) :
  gotime.parse_terms (S fuel) orig s d =
      if String.eqb s "" then inl d
      else if negb (gotime.starts_with (fun c => Ascii.eqb c "." || is_digit c) s)
      then inr (gotime.errInvalidDuration orig)
      else
        let pl := String.length s in
        match gotime.leadingInt s with
        | None => inr (gotime.errInvalidDuration orig)
        | Some (v, s) =>
            let pre := negb (pl =? String.length s)%nat in
            let '(f, scale, s, post) :=
              if gotime.starts_with (fun c => Ascii.eqb c ".") s then
                let s := strings.drop 1 s in
                let pl := String.length s in
                let '(f, scale, s) := gotime.leadingFraction s in
                (f, scale, s, negb (pl =? String.length s)%nat)
              else (0, 1%float, s, false) in
            if negb pre && negb post then inr (gotime.errInvalidDuration orig)
            else
              let i := gotime.unit_length s in
              if (i =? 0)%nat
              then inr (fundamental
                          ("time: missing unit in duration " ++ gotime.quote orig))
              else
                let u := String.substring 0 i s in
                let s := strings.drop i s in
                match gotime.unitMap u with
                | None =>
                    inr (fundamental
                           ("time: unknown unit " ++ gotime.quote u
                              ++ " in duration " ++ gotime.quote orig))
                | Some unit =>
                    if v >? 2 ^ 63 / unit then inr (gotime.errInvalidDuration orig)
                    else
                      let v := gotime.uint64 (v * unit) in
                      let v :=
                        if f >? 0 then
                          gotime.uint64
                            (v + gotime.uint64_of_float64
                                   (PrimFloat.mul (gotime.float64_of_uint64 f)
                                      (PrimFloat.div (gotime.float64_of_uint64 unit)
                                         scale)))
                        else v in
                      if (f >? 0) && (v >? 2 ^ 63)
                      then inr (gotime.errInvalidDuration orig)
                      else
                        let d := gotime.uint64 (d + v) in
                        if d >? 2 ^ 63 then inr (gotime.errInvalidDuration orig)
                        else gotime.parse_terms fuel orig s d
                end
        end.
Proof. reflexivity. Qed.

Lemma term_start_digit (d : Z) :
  0 <= d <= 9 ->
  (fun c => Ascii.eqb c "." || is_digit c) (gotime.digit_byte d) = true.
Proof.
  intros H. cbv beta. rewrite digit_byte_is_digit by assumption.
  apply orb_true_r.
Qed.

(** A term without fraction. *)
Lemma parse_terms_int_term (fuel : nat) (orig u rest : string) (d v unit : Z) :
  (0 < fuel)%nat ->
  UnitAt u unit rest ->
  0 <= v -> v <= 2 ^ 63 / unit -> 0 <= d -> d + v * unit <= 2 ^ 63 ->
  gotime.parse_terms fuel orig (gotime.fmtInt (u ++ rest) v) d
  = gotime.parse_terms (Nat.pred fuel) orig rest (d + v * unit).
Proof.
  intros Hfuel [Hknown Hpos Hne Hends Hnd Hnp] Hv Hvu Hd Hsum.
  destruct fuel as [|fuel]; [lia|]. cbn [Nat.pred].
  assert (Hvunit : v * unit <= 2 ^ 63).
  { pose proof (Z.mul_div_le (2 ^ 63) unit Hpos). nia. }
  assert (Hv63 : v <= 2 ^ 63) by nia.
  pose proof (fmtInt_length (u ++ rest) v Hv) as Hlen.
  rewrite parse_terms_unfold.
  rewrite eqb_empty_false by lia.
  rewrite (fmtInt_starts _ (u ++ rest) v Hv term_start_digit). cbn [negb].
  rewrite leadingInt_fmtInt by (try split; assumption).
  cbv zeta. rewrite Hnp.
  destruct (Nat.eqb_spec (String.length (gotime.fmtInt (u ++ rest) v))
              (String.length (u ++ rest))) as [Heq|_]; [lia|].
  cbn [negb andb]. rewrite Hends.
  destruct (Nat.eqb_spec (String.length u) 0) as [Heq|_]; [lia|].
  rewrite substring_app_prefix, drop_app, Hknown.
  destruct (Z.gtb_spec v (2 ^ 63 / unit)) as [H|_]; [lia|].
  cbn [Z.gtb Z.compare andb].
  rewrite (uint64_small (v * unit)) by nia.
  rewrite uint64_small by nia.
  destruct (Z.gtb_spec (d + v * unit) (2 ^ 63)) as [H|_]; [lia|].
  reflexivity.
Qed.

(** The scale of [k] digits divides the unit of [n] digits exactly. *)
Lemma unit_over_scale (n k j : nat) :
  n = 3%nat \/ n = 6%nat \/ n = 9%nat ->
  (1 <= k)%nat -> (k + j = n)%nat ->
  Prim2SF (PrimFloat.div (gotime.float64_of_uint64 (10 ^ Z.of_nat n))
             (Nat.iter k times10 1%float))
  = canonical (Z.to_pos (10 ^ Z.of_nat j)).
Proof.
  intros Hn Hk Hkj.
  assert (Hj : j = (n - k)%nat) by lia. subst j.
  destruct Hn as [->|[->| ->]];
    do 10 (destruct k as [|k]; [try lia; vm_compute; reflexivity|]); lia.
Qed.

(** A term with a fraction. *)
Lemma parse_terms_frac_term (fuel : nat) (orig u rest fracbuf : string)
  (d v f : Z) (n k j : nat) :
  (0 < fuel)%nat ->
  n = 3%nat \/ n = 6%nat \/ n = 9%nat ->
  UnitAt u (10 ^ Z.of_nat n) rest ->
  0 <= v -> v <= 2 ^ 63 / 10 ^ Z.of_nat n -> 0 <= d ->
  (1 <= k)%nat -> (k + j = n)%nat ->
  0 < f -> f * 10 ^ Z.of_nat j < 10 ^ Z.of_nat n ->
  (String.length (u ++ rest) < String.length fracbuf)%nat ->
  (forall scale,
     gotime.leadingFraction_loop 0 scale false fracbuf
     = (f, Nat.iter k times10 scale, u ++ rest)) ->
  d + v * 10 ^ Z.of_nat n + f * 10 ^ Z.of_nat j <= 2 ^ 63 ->
  gotime.parse_terms fuel orig (gotime.fmtInt (String "." fracbuf) v) d
  = gotime.parse_terms (Nat.pred fuel) orig rest
      (d + v * 10 ^ Z.of_nat n + f * 10 ^ Z.of_nat j).
Proof.
  intros Hfuel Hn [Hknown Hpos Hne Hends Hnd Hnp] Hv Hvu Hd Hk Hkj Hf Hfj
    Hlenf Hread Hsum.
  destruct fuel as [|fuel]; [lia|]. cbn [Nat.pred].
  set (unit := 10 ^ Z.of_nat n) in *.
  assert (Hj : 0 < 10 ^ Z.of_nat j) by (apply Z.pow_pos_nonneg; lia).
  assert (Hunit9 : unit <= 10 ^ 9).
  { unfold unit. apply Z.pow_le_mono_r; lia. }
  change (10 ^ 9) with 1000000000 in Hunit9.
  assert (Hvunit : v * unit <= 2 ^ 63).
  { pose proof (Z.mul_div_le (2 ^ 63) unit Hpos). nia. }
  assert (Hv63 : v <= 2 ^ 63) by nia.
  pose proof (fmtInt_length (String "." fracbuf) v Hv) as Hlen.
  rewrite parse_terms_unfold.
  rewrite eqb_empty_false by lia.
  rewrite (fmtInt_starts _ (String "." fracbuf) v Hv term_start_digit).
  cbn [negb].
  rewrite leadingInt_fmtInt by (try split; first [assumption|reflexivity]).
  cbv zeta. cbn [gotime.starts_with Ascii.eqb Bool.eqb strings.drop].
  unfold gotime.leadingFraction. rewrite Hread.
  destruct (Nat.eqb_spec (String.length (gotime.fmtInt (String "." fracbuf) v))
              (String.length (String "." fracbuf))) as [Heq|_]; [lia|].
  destruct (Nat.eqb_spec (String.length fracbuf) (String.length (u ++ rest)))
    as [Heq|_]; [lia|].
  cbn [negb andb]. rewrite Hends.
  destruct (Nat.eqb_spec (String.length u) 0) as [Heq|_]; [lia|].
  rewrite substring_app_prefix, drop_app, Hknown.
  destruct (Z.gtb_spec v (2 ^ 63 / unit)) as [H|_]; [lia|].
  destruct (Z.gtb_spec f 0) as [_|H]; [|lia]. cbn [andb].
  rewrite (uint64_small (v * unit)) by nia.
  rewrite (float_mul_exact f (10 ^ Z.of_nat j)).
  - change (2 ^ 63) with 9223372036854775808 in *.
    rewrite (uint64_small (v * unit + _))
      by (change (2 ^ 63) with 9223372036854775808; nia).
    rewrite Z.add_assoc.
    rewrite uint64_small by (change (2 ^ 63) with 9223372036854775808; nia).
    destruct (Z.gtb_spec (v * unit + f * 10 ^ Z.of_nat j) 9223372036854775808)
      as [H|_]; [nia|].
    destruct (Z.gtb_spec (d + v * unit + f * 10 ^ Z.of_nat j)
                9223372036854775808) as [H|_]; [nia|].
    reflexivity.
  - assumption.
  - assumption.
  - change (2 ^ 53) with 9007199254740992. lia.
  - apply unit_over_scale; assumption.
Qed.

(** ** The string of a duration, term by term *)

Lemma String_sign (d : Z) :
  - 2 ^ 63 <= d < 2 ^ 63 ->
  gotime.String d
  = if d <? 0 then String "-" (String_magnitude (- d))
    else String_magnitude d.
Proof.
  intros Hd. change (2 ^ 63) with 9223372036854775808 in Hd.
  unfold gotime.String, String_magnitude.
  destruct (Z.ltb_spec d 0) as [Hneg|Hpos].
  - assert (Hu : gotime.uint64 (- gotime.uint64 d) = - d).
    { unfold gotime.uint64. change (2 ^ 64) with 18446744073709551616.
      assert (H1 : d mod 18446744073709551616 = d + 18446744073709551616)
        by (symmetry; apply (Z.mod_unique _ _ (-1)); lia).
      rewrite H1. symmetry. apply (Z.mod_unique _ _ (-1)); lia. }
    rewrite Hu.
    destruct (- d <? time.Second).
    + destruct (Z.eqb_spec (- d) 0); [lia|].
      destruct (if - d <? time.Microsecond then _ else _) as [prec buf].
      destruct (gotime.fmtFrac buf (- d) prec). reflexivity.
    + destruct (gotime.fmtFrac "s" (- d) 9). reflexivity.
  - assert (Hu : gotime.uint64 d = d).
    { unfold gotime.uint64. change (2 ^ 64) with 18446744073709551616.
      apply Z.mod_small. lia. }
    rewrite Hu.
    destruct (d <? time.Second).
    + destruct (d =? 0); [reflexivity|].
      destruct (if d <? time.Microsecond then _ else _) as [prec buf].
      destruct (gotime.fmtFrac buf d prec). reflexivity.
    + destruct (gotime.fmtFrac "s" d 9). reflexivity.
Qed.

Lemma parse_terms_end (fuel : nat) (orig : string) (d : Z) :
  gotime.parse_terms fuel orig "" d = inl d.
Proof. destruct fuel; reflexivity. Qed.

Lemma unit_length_digit (s : string) :
  gotime.starts_with is_digit s = true -> gotime.unit_length s = O.
Proof.
  destruct s as [|c s]; [reflexivity|].
  cbn [gotime.starts_with gotime.unit_length]. intros ->.
  rewrite orb_true_r. reflexivity.
Qed.

(** The units, where [String] writes them. *)
Lemma UnitAt_last (u : string) (unit : Z) :
  (u = "ns" /\ unit = 1)
  \/ (u = gotime.micro_sign ++ "s" /\ unit = 10 ^ Z.of_nat 3)
  \/ (u = "ms" /\ unit = 10 ^ Z.of_nat 6)
  \/ (u = "s" /\ unit = 10 ^ Z.of_nat 9) ->
  UnitAt u unit "".
Proof.
  intros [[-> ->]|[[-> ->]|[[-> ->]|[-> ->]]]]; split; try reflexivity;
    cbn; lia.
Qed.

Lemma UnitAt_m (rest : string) :
  gotime.starts_with is_digit rest = true -> UnitAt "m" time.Minute rest.
Proof.
  intros Hrest. split; try reflexivity; try (cbn; lia).
  cbn [append gotime.unit_length]. rewrite (unit_length_digit rest Hrest).
  reflexivity.
Qed.

Lemma UnitAt_h (rest : string) :
  gotime.starts_with is_digit rest = true -> UnitAt "h" time.Hour rest.
Proof.
  intros Hrest. split; try reflexivity; try (cbn; lia).
  cbn [append gotime.unit_length]. rewrite (unit_length_digit rest Hrest).
  reflexivity.
Qed.

Lemma append_nil_r (s : string) : s ++ "" = s.
Proof.
  induction s as [|c s IH]; [reflexivity|cbn; rewrite IH; reflexivity].
Qed.

(** The last term of a duration: an integer, the fraction of [w] over
    [10^n] and the unit of [10^n] nanoseconds. *)
Lemma parse_terms_last_term (fuel : nat) (orig u : string) (d v w : Z)
  (n : nat) :
  (0 < fuel)%nat ->
  n = 3%nat \/ n = 6%nat \/ n = 9%nat ->
  UnitAt u (10 ^ Z.of_nat n) "" ->
  0 <= v -> v <= 2 ^ 63 / 10 ^ Z.of_nat n -> 0 <= d -> 0 <= w ->
  d + v * 10 ^ Z.of_nat n + w mod 10 ^ Z.of_nat n <= 2 ^ 63 ->
  gotime.parse_terms fuel orig
    (gotime.fmtInt (fst (gotime.fmtFrac u w n)) v) d
  = inl (d + v * 10 ^ Z.of_nat n + w mod 10 ^ Z.of_nat n).
Proof.
  intros Hfuel Hn Hunit Hv Hvu Hd Hw Hsum.
  assert (Hn18 : (n <= 18)%nat) by lia.
  pose proof (unit_no_digit _ _ _ Hunit) as Hnd.
  rewrite append_nil_r in Hnd.
  assert (Hp : 0 < 10 ^ Z.of_nat n) by (apply Z.pow_pos_nonneg; lia).
  pose proof (Z.mod_pos_bound w (10 ^ Z.of_nat n) Hp) as Hm.
  destruct (fmtFrac_spec n u w Hn18 Hw)
    as [[Hzero Heq]|(Hnonzero & buf' & k & j & f & Hk & Hkj & Hf & Heq
                     & Hlen & Hread)].
  - rewrite Heq, Hzero, Z.add_0_r. cbn [fst].
    rewrite <- (append_nil_r u) at 1.
    rewrite (parse_terms_int_term fuel orig u "" d v (10 ^ Z.of_nat n))
      by (first [assumption|lia]).
    apply parse_terms_end.
  - rewrite Heq, Hf. cbn [fst].
    assert (Hj : 0 < 10 ^ Z.of_nat j) by (apply Z.pow_pos_nonneg; lia).
    rewrite (parse_terms_frac_term fuel orig u "" buf' d v f n k j);
      try assumption.
    + apply parse_terms_end.
    + nia.
    + lia.
    + rewrite append_nil_r. assumption.
    + intros scale. rewrite append_nil_r. apply Hread. assumption.
    + lia.
Qed.

Lemma fmtFrac_snd (n : nat) (buf : string) (v : Z) :
  (n <= 18)%nat -> 0 <= v ->
  snd (gotime.fmtFrac buf v n) = v / 10 ^ Z.of_nat n.
Proof.
  intros Hn Hv.
  destruct (fmtFrac_spec n buf v Hn Hv)
    as [[_ Heq]|(_ & buf' & k & j & f & _ & _ & _ & Heq & _)];
    rewrite Heq; reflexivity.
Qed.

(** The string of a positive duration parses to it. *)
Lemma magnitude_parses (u : Z) (fuel : nat) (orig : string) :
  0 < u <= 2 ^ 63 ->
  (String.length (String_magnitude u) <= fuel)%nat ->
  gotime.parse_terms fuel orig (String_magnitude u) 0 = inl u.
Proof.
  intros Hu. change (2 ^ 63) with 9223372036854775808 in Hu.
  unfold String_magnitude.
  unfold time.Second, time.Millisecond, time.Microsecond, time.Nanosecond.
  change (1000 * (1000 * (1000 * 1))) with 1000000000.
  change (1000 * (1000 * 1)) with 1000000.
  change (1000 * 1) with 1000.
  destruct (Z.ltb_spec u 1000000000) as [Hsub|Hsec].
  - destruct (Z.eqb_spec u 0) as [H|_]; [lia|].
    destruct (Z.ltb_spec u 1000) as [Hns|Hus].
    + (* nanoseconds *)
      change (gotime.fmtFrac "ns" u 0) with ("ns", u). cbv beta iota.
      intros Hfuel. pose proof (fmtInt_length "ns" u ltac:(lia)) as Hlen.
      assert (Hstep := parse_terms_int_term fuel orig "ns" "" 0 u 1).
      cbn [append] in Hstep. rewrite Hstep.
      * rewrite parse_terms_end. f_equal. lia.
      * lia.
      * apply UnitAt_last. left. split; reflexivity.
      * lia.
      * change (2 ^ 63 / 1) with 9223372036854775808. lia.
      * lia.
      * change (2 ^ 63) with 9223372036854775808. lia.
    + destruct (Z.ltb_spec u 1000000) as [Hus'|Hms].
      * (* microseconds *)
        destruct (gotime.fmtFrac (gotime.micro_sign ++ "s") u 3)
          as [buf q] eqn:Heq.
        assert (Hq : q = u / 10 ^ Z.of_nat 3).
        { rewrite <- (fmtFrac_snd 3 (gotime.micro_sign ++ "s") u) by lia.
          rewrite Heq. reflexivity. }
        assert (Hbuf : buf
                       = fst (gotime.fmtFrac (gotime.micro_sign ++ "s") u 3))
          by (rewrite Heq; reflexivity).
        subst q buf. intros Hfuel.
        pose proof (fmtInt_length
                      (fst (gotime.fmtFrac (gotime.micro_sign ++ "s") u 3))
                      (u / 10 ^ Z.of_nat 3)
                      ltac:(apply Z.div_pos; [lia|reflexivity])) as Hlen.
        rewrite parse_terms_last_term.
        -- f_equal.
           pose proof (Z.div_mod u (10 ^ Z.of_nat 3) ltac:(discriminate)).
           lia.
        -- lia.
        -- left. reflexivity.
        -- apply UnitAt_last. right. left. split; reflexivity.
        -- apply Z.div_pos; [lia|reflexivity].
        -- change (10 ^ Z.of_nat 3) with 1000.
           apply Z.div_le_lower_bound; [lia|].
           pose proof (Z.mul_div_le u 1000 ltac:(lia)).
           change (2 ^ 63 / 1000) with 9223372036854775. lia.
        -- lia.
        -- lia.
        -- pose proof (Z.div_mod u (10 ^ Z.of_nat 3) ltac:(discriminate)).
           change (2 ^ 63) with 9223372036854775808. lia.
      * (* milliseconds *)
        destruct (gotime.fmtFrac "ms" u 6) as [buf q] eqn:Heq.
        assert (Hq : q = u / 10 ^ Z.of_nat 6).
        { rewrite <- (fmtFrac_snd 6 "ms" u) by lia. rewrite Heq. reflexivity. }
        assert (Hbuf : buf = fst (gotime.fmtFrac "ms" u 6))
          by (rewrite Heq; reflexivity).
        subst q buf. intros Hfuel.
        pose proof (fmtInt_length (fst (gotime.fmtFrac "ms" u 6))
                      (u / 10 ^ Z.of_nat 6)
                      ltac:(apply Z.div_pos; [lia|reflexivity])) as Hlen.
        rewrite parse_terms_last_term.
        -- f_equal.
           pose proof (Z.div_mod u (10 ^ Z.of_nat 6) ltac:(discriminate)).
           lia.
        -- lia.
        -- right. left. reflexivity.
        -- apply UnitAt_last. right. right. left. split; reflexivity.
        -- apply Z.div_pos; [lia|reflexivity].
        -- change (10 ^ Z.of_nat 6) with 1000000.
           apply Z.div_le_lower_bound; [lia|].
           pose proof (Z.mul_div_le u 1000000 ltac:(lia)).
           change (2 ^ 63 / 1000000) with 9223372036854. lia.
        -- lia.
        -- lia.
        -- pose proof (Z.div_mod u (10 ^ Z.of_nat 6) ltac:(discriminate)).
           change (2 ^ 63) with 9223372036854775808. lia.
  - (* seconds, minutes and hours *)
    destruct (gotime.fmtFrac "s" u 9) as [buf q] eqn:Heq.
    assert (Hq : q = u / 10 ^ Z.of_nat 9).
    { rewrite <- (fmtFrac_snd 9 "s" u) by lia. rewrite Heq. reflexivity. }
    assert (Hbuf : buf = fst (gotime.fmtFrac "s" u 9))
      by (rewrite Heq; reflexivity).
    clear Heq. change (10 ^ Z.of_nat 9) with 1000000000 in Hq.
    pose proof (Z.div_mod u 1000000000 ltac:(lia)) as Hu9.
    pose proof (Z.mod_pos_bound u 1000000000 ltac:(lia)) as Hm9.
    rewrite <- Hq in Hu9.
    assert (Hq1 : 1 <= q) by (subst q; apply Z.div_le_lower_bound; lia).
    pose proof (Z.div_mod q 60 ltac:(lia)) as Hq60.
    pose proof (Z.mod_pos_bound q 60 ltac:(lia)) as Hm60.
    set (secs := q mod 60) in *. set (mins := q / 60) in *.
    pose proof (Z.div_mod mins 60 ltac:(lia)) as Hmin60.
    pose proof (Z.mod_pos_bound mins 60 ltac:(lia)) as Hmm60.
    set (mins60 := mins mod 60) in *. set (hours := mins / 60) in *.
    assert (Hmins : 0 <= mins) by (apply Z.div_pos; lia).
    assert (Hhours : 0 <= hours) by (apply Z.div_pos; lia).
    set (buf2 := gotime.fmtInt buf secs).
    assert (Hstart2 : gotime.starts_with is_digit buf2 = true)
      by (apply fmtInt_starts; [lia|exact digit_byte_is_digit]).
    pose proof (fmtInt_length buf secs ltac:(lia)) as Hlen2. fold buf2 in Hlen2.
    assert (Hlast : forall fuel' d,
              (0 < fuel')%nat -> 0 <= d ->
              d + secs * 1000000000 + u mod 1000000000 <= 9223372036854775808 ->
              gotime.parse_terms fuel' orig buf2 d
              = inl (d + secs * 1000000000 + u mod 1000000000)).
    { intros fuel' d Hf' Hd Hsum. unfold buf2. rewrite Hbuf.
      apply (parse_terms_last_term fuel' orig "s" d secs u 9).
      - assumption.
      - right. right. reflexivity.
      - apply UnitAt_last. right. right. right. split; reflexivity.
      - lia.
      - change (2 ^ 63 / 10 ^ Z.of_nat 9) with 9223372036. lia.
      - assumption.
      - lia.
      - change (10 ^ Z.of_nat 9) with 1000000000.
        change (2 ^ 63) with 9223372036854775808. assumption. }
    destruct (Z.gtb_spec mins 0) as [Hmpos|Hmzero].
    + set (buf3 := gotime.fmtInt (String "m" buf2) mins60).
      assert (Hstart3 : gotime.starts_with is_digit buf3 = true)
        by (apply fmtInt_starts; [lia|exact digit_byte_is_digit]).
      pose proof (fmtInt_length (String "m" buf2) mins60 ltac:(lia)) as Hlen3.
      fold buf3 in Hlen3. cbn [String.length] in Hlen3.
      assert (Hmin : forall fuel' d,
                (1 < fuel')%nat -> 0 <= d ->
                d + mins60 * 60000000000 + secs * 1000000000
                  + u mod 1000000000 <= 9223372036854775808 ->
                gotime.parse_terms fuel' orig buf3 d
                = inl (d + mins60 * 60000000000 + secs * 1000000000
                       + u mod 1000000000)).
      { intros fuel' d Hf' Hd Hsum. unfold buf3.
        assert (Hstep := parse_terms_int_term fuel' orig "m" buf2 d mins60
                           time.Minute).
        cbn [append] in Hstep. rewrite Hstep.
        - change time.Minute with 60000000000.
          rewrite Hlast; [f_equal; lia|lia|lia|lia].
        - lia.
        - apply UnitAt_m, Hstart2.
        - lia.
        - change (2 ^ 63 / time.Minute) with 153722867. lia.
        - assumption.
        - change time.Minute with 60000000000.
          change (2 ^ 63) with 9223372036854775808. lia. }
      destruct (Z.gtb_spec hours 0) as [Hhpos|Hhzero].
      * intros Hfuel.
        pose proof (fmtInt_length (String "h" buf3) hours ltac:(lia)) as Hlen4.
        cbn [String.length] in Hlen4.
        assert (Hstep := parse_terms_int_term fuel orig "h" buf3 0 hours
                           time.Hour).
        cbn [append] in Hstep. rewrite Hstep.
        -- change time.Hour with 3600000000000.
           rewrite Hmin; [f_equal; lia|lia|lia|lia].
        -- lia.
        -- apply UnitAt_h, Hstart3.
        -- lia.
        -- change (2 ^ 63 / time.Hour) with 2562047. lia.
        -- lia.
        -- change time.Hour with 3600000000000.
           change (2 ^ 63) with 9223372036854775808. lia.
      * intros Hfuel. rewrite Hmin; [f_equal; lia|lia|lia|lia].
    + intros Hfuel. rewrite Hlast; [f_equal; lia|lia|lia|lia].
Qed.

(** ** No comma in the string of a duration *)

Lemma fmtInt_loop_comma_free (fuel : nat) : forall (buf : string) (v : Z),
  comma_free buf -> comma_free (gotime.fmtInt_loop fuel buf v).
Proof.
  induction fuel as [|fuel IH]; intros buf v Hbuf;
    cbn [gotime.fmtInt_loop]; [assumption|].
  destruct (v >? 0); [|assumption].
  apply IH. apply comma_free_cons. split; [|assumption].
  apply Ascii.eqb_neq, digit_byte_not_comma, mod_10_digit.
Qed.

Lemma fmtInt_comma_free (buf : string) (v : Z) :
  comma_free buf -> comma_free (gotime.fmtInt buf v).
Proof.
  intros Hbuf. unfold gotime.fmtInt. destruct (v =? 0).
  - apply comma_free_cons. split; [discriminate|assumption].
  - apply fmtInt_loop_comma_free, Hbuf.
Qed.

Lemma fmtFrac_loop_comma_free (n : nat) :
  forall (buf : string) (v : Z) (print : bool),
  comma_free buf ->
  comma_free (fst (fst (gotime.fmtFrac_loop n buf v print))).
Proof.
  induction n as [|n IH]; intros buf v print Hbuf;
    cbn [gotime.fmtFrac_loop]; [assumption|].
  apply IH. destruct (print || negb (v mod 10 =? 0)); [|assumption].
  apply comma_free_cons. split; [|assumption].
  apply Ascii.eqb_neq, digit_byte_not_comma, mod_10_digit.
Qed.

Lemma fmtFrac_comma_free (n : nat) (buf : string) (v : Z) :
  comma_free buf -> comma_free (fst (gotime.fmtFrac buf v n)).
Proof.
  intros Hbuf. unfold gotime.fmtFrac.
  pose proof (fmtFrac_loop_comma_free n buf v false Hbuf) as H.
  destruct (gotime.fmtFrac_loop n buf v false) as [[buf' v'] print].
  cbn [fst] in *. destruct print; [|assumption].
  apply comma_free_cons. split; [discriminate|assumption].
Qed.

Lemma fmtFrac_length (n : nat) (buf : string) (v : Z) :
  (n <= 18)%nat -> 0 <= v ->
  (String.length buf <= String.length (fst (gotime.fmtFrac buf v n)))%nat.
Proof.
  intros Hn Hv.
  destruct (fmtFrac_spec n buf v Hn Hv)
    as [[_ Heq]|(_ & buf' & k & j & f & _ & _ & _ & Heq & Hlen & _)];
    rewrite Heq; cbn [fst String.length]; lia.
Qed.

(** The string of a duration without its sign: a number first, two bytes
    at least, and no comma. *)
Lemma magnitude_shape (u : Z) :
  0 <= u ->
  gotime.starts_with is_digit (String_magnitude u) = true
  /\ (2 <= String.length (String_magnitude u))%nat
  /\ comma_free (String_magnitude u).
Proof.
  intros Hu.
  assert (Hshape : exists buf v,
            String_magnitude u = gotime.fmtInt buf v
            /\ 0 <= v /\ (1 <= String.length buf)%nat /\ comma_free buf).
  { unfold String_magnitude. destruct (u <? time.Second).
    - destruct (u =? 0).
      + exists "s", 0. repeat split; try reflexivity; cbn; lia.
      + assert (Hcase : exists (prec : nat) (buf : string),
                  (if u <? time.Microsecond then (0%nat, "ns")
                   else if u <? time.Millisecond
                        then (3%nat, gotime.micro_sign ++ "s")
                        else (6%nat, "ms")) = (prec, buf)
                  /\ (prec <= 18)%nat /\ (1 <= String.length buf)%nat
                  /\ comma_free buf).
        { destruct (u <? time.Microsecond);
            [|destruct (u <? time.Millisecond)];
            eexists _, _; (split; [reflexivity|]);
            repeat split; try reflexivity; cbn; lia. }
        destruct Hcase as (prec & buf & -> & Hprec & Hlen & Hfree).
        pose proof (fmtFrac_snd prec buf u Hprec Hu) as Hsnd.
        pose proof (fmtFrac_length prec buf u Hprec Hu) as Hl.
        pose proof (fmtFrac_comma_free prec buf u Hfree) as Hc.
        destruct (gotime.fmtFrac buf u prec) as [buf' q]. cbn [fst snd] in *.
        exists buf', q. split; [reflexivity|]. subst q.
        split; [apply Z.div_pos; [lia|apply Z.pow_pos_nonneg; lia]|].
        split; [lia|assumption].
    - pose proof (fmtFrac_snd 9 "s" u ltac:(lia) Hu) as Hsnd.
      pose proof (fmtFrac_length 9 "s" u ltac:(lia) Hu) as Hl.
      pose proof (fmtFrac_comma_free 9 "s" u ltac:(reflexivity)) as Hc.
      destruct (gotime.fmtFrac "s" u 9) as [buf q]. cbn [fst snd] in *.
      assert (Hq : 0 <= q)
        by (subst q; apply Z.div_pos; [lia|reflexivity]).
      pose proof (Z.mod_pos_bound q 60 ltac:(lia)) as Hm60.
      pose proof (Z.mod_pos_bound (q / 60) 60 ltac:(lia)) as Hmm60.
      pose proof (fmtInt_length buf (q mod 60) ltac:(lia)) as Hl2.
      pose proof (fmtInt_comma_free buf (q mod 60) Hc) as Hc2.
      destruct (q / 60 >? 0).
      + pose proof (fmtInt_length
                      (String "m" (gotime.fmtInt buf (q mod 60)))
                      (q / 60 mod 60) ltac:(lia)) as Hl3.
        cbn [String.length] in Hl3.
        assert (Hc3 : comma_free (String "m" (gotime.fmtInt buf (q mod 60))))
          by (apply comma_free_cons; split; [discriminate|assumption]).
        destruct (Z.gtb_spec (q / 60 / 60) 0).
        * eexists _, _. split; [reflexivity|]. split; [lia|].
          split; [cbn [String.length]; lia|].
          apply comma_free_cons. split; [discriminate|].
          apply fmtInt_comma_free, Hc3.
        * eexists _, _. split; [reflexivity|]. split; [lia|].
          split; [cbn [String.length]; lia|assumption].
      + eexists _, _. split; [reflexivity|]. split; [lia|].
        split; [cbn in Hl; lia|assumption]. }
  destruct Hshape as (buf & v & -> & Hv & Hlen & Hfree).
  pose proof (fmtInt_length buf v Hv).
  split; [apply fmtInt_starts; [assumption|exact digit_byte_is_digit]|].
  split; [lia|]. apply fmtInt_comma_free, Hfree.
Qed.

Lemma int64_small (z : Z) : - 2 ^ 63 <= z < 2 ^ 63 -> gotime.int64 z = z.
Proof.
  intros H. unfold gotime.int64. change (2 ^ 63) with 9223372036854775808 in *.
  change (2 ^ 64) with 18446744073709551616. rewrite Z.mod_small; lia.
Qed.

Lemma eqb_longer (s t : string) :
  (String.length t < String.length s)%nat -> String.eqb s t = false.
Proof.
  intros Hlen. apply String.eqb_neq. intros ->. lia.
Qed.

(** ** [ParseDuration] after [String] *)

Theorem ParseDuration_String (d : Z) :
  - 2 ^ 63 <= d < 2 ^ 63 ->
  gotime.ParseDuration (gotime.String d) = inl d.
Proof.
  intros Hd. rewrite String_sign by assumption.
  change (2 ^ 63) with 9223372036854775808 in Hd.
  destruct (Z.ltb_spec d 0) as [Hneg|Hpos].
  - destruct (magnitude_shape (- d) ltac:(lia)) as (Hstart & Hlen & _).
    unfold gotime.ParseDuration. cbn [Ascii.eqb Bool.eqb orb].
    rewrite (eqb_longer _ "0") by (cbn [String.length]; lia).
    rewrite (eqb_longer _ "") by (cbn [String.length]; lia).
    rewrite magnitude_parses
      by (change (2 ^ 63) with 9223372036854775808; lia).
    f_equal. destruct (Z.eq_dec d (- 9223372036854775808)) as [->|Hne].
    + reflexivity.
    + rewrite (int64_small (- d))
        by (change (2 ^ 63) with 9223372036854775808; lia).
      rewrite Z.opp_involutive. apply int64_small.
      change (2 ^ 63) with 9223372036854775808. lia.
  - destruct (Z.eq_dec d 0) as [->|Hnz]; [reflexivity|].
    destruct (magnitude_shape d Hpos) as (Hstart & Hlen & _).
    unfold gotime.ParseDuration.
    destruct (String_magnitude d) as [|c s] eqn:Hs;
      [cbn [String.length] in Hlen; lia|].
    cbn [gotime.starts_with] in Hstart.
    assert (Hsign : Ascii.eqb c "-" || Ascii.eqb c "+" = false).
    { destruct (Ascii.eqb_spec c "-") as [->|_]; [discriminate|].
      destruct (Ascii.eqb_spec c "+") as [->|_]; [discriminate|].
      reflexivity. }
    rewrite Hsign, <- Hs. rewrite <- Hs in Hlen.
    rewrite (eqb_longer _ "0") by (cbn [String.length]; lia).
    rewrite (eqb_longer _ "") by (cbn [String.length]; lia).
    rewrite magnitude_parses
      by (change (2 ^ 63) with 9223372036854775808; lia).
    destruct (Z.gtb_spec d (2 ^ 63 - 1)) as [H|_];
      [change (2 ^ 63) with 9223372036854775808 in H; lia|].
    f_equal. apply int64_small.
    change (2 ^ 63) with 9223372036854775808. lia.
Qed.

Theorem String_comma_free (d : Z) :
  - 2 ^ 63 <= d < 2 ^ 63 -> comma_free (gotime.String d).
Proof.
  intros Hd. rewrite String_sign by assumption.
  change (2 ^ 63) with 9223372036854775808 in Hd.
  destruct (Z.ltb_spec d 0).
  - apply comma_free_cons. split; [discriminate|].
    apply magnitude_shape. lia.
  - apply magnitude_shape. lia.
Qed.


(* ================================================================== *)
(** ** DurationList *)

Section DurationListRoundTrip.
Context {tm : TimePkg}.

Lemma Set_range_parses (d acc : DurationList.t) :
  Forall (fun v => ParseDuration (Duration_String v) = inl v) d ->
  DurationList.Set_range (map Duration_String d) acc = (None, (acc ++ d)%list).
Proof.
  intros Hd. revert acc.
  induction Hd as [|v d Hv Hd IH]; intros acc; simpl.
  - rewrite app_nil_r. reflexivity.
  - rewrite Hv. unfold bind, store. rewrite IH, <- app_assoc. reflexivity.
Qed.

(** X1. Whatever the functions of package time are: for a list [d] that
    is not empty, whose durations each have a string form without comma
    that parses back to them, [Set] on the string of [d] succeeds and
    leaves the receiver, whatever it held, equal to [d]. *)
Theorem DurationList_round_trip (d receiver : DurationList.t) :
  d <> [] ->
  Forall RoundTrips d ->
  DurationList.Set_ (result DurationList.String d) receiver = (None, d).
Proof.
  intros Hne Hd.
  unfold result, DurationList.String, DurationList.Set_, bind, load, store,
    ret.
  cbn [fst].
  rewrite Split_Join.
  - rewrite Set_range_parses; [reflexivity|].
    eapply Forall_impl; [|exact Hd]. intros v [_ Hv]. exact Hv.
  - destruct d; [congruence|discriminate].
  - apply Forall_map. eapply Forall_impl; [|exact Hd].
    intros v [Hv _]. exact Hv.
Qed.

(** [String] only reads the list. *)
Lemma DurationList_String_ReadOnly : ReadOnly DurationList.String.
Proof. unfold DurationList.String. auto with readonly. Qed.

End DurationListRoundTrip.

(** With the functions of Go's package time, every duration round-trips. *)
Lemma go_time_round_trips (v : time.Duration) :
  IsDuration v -> RoundTrips (tm := go_time) v.
Proof.
  intros Hv. split; [apply String_comma_free|apply ParseDuration_String];
    exact Hv.
Qed.

(** C9. [DurationList] round-trips through its string form, with the
    functions of Go's package time: for every list [d] of durations that
    is not empty, [Set] on the string of [d] succeeds and leaves the
    receiver, whatever it held, equal to [d]. *)
Theorem DurationList_round_trip_go (d receiver : DurationList.t) :
  d <> [] ->
  Forall IsDuration d ->
  DurationList.Set_ (tm := go_time)
    (result (DurationList.String (tm := go_time)) d) receiver
  = (None, d).
Proof.
  intros Hne Hd.
  assert (Hrt : Forall (RoundTrips (tm := go_time)) d)
    by (eapply Forall_impl; [exact go_time_round_trips|exact Hd]).
  unfold result, DurationList.String, DurationList.Set_, bind, load, store,
    ret.
  cbn [fst].
  rewrite Split_Join.
  - rewrite Set_range_parses; [reflexivity|].
    eapply Forall_impl; [|exact Hrt]. intros v [_ Hv]. exact Hv.
  - destruct d; [congruence|discriminate].
  - apply Forall_map. eapply Forall_impl; [|exact Hrt].
    intros v [Hv _]. exact Hv.
Qed.

(** X6. The string of the empty list is empty, and Go's [ParseDuration]
    refuses it: the empty list does not come back. *)
Lemma DurationList_empty_no_round_trip (receiver : DurationList.t) :
  result (DurationList.String (tm := go_time)) [] = ""
  /\ DurationList.Set_ (tm := go_time) "" receiver
     = (Some (gotime.errInvalidDuration ""), []).
Proof. split; reflexivity. Qed.

(* ================================================================== *)
(** * Reading and registering the flags *)

(** ** Splitting any string on a comma *)

Lemma count_comma_free (s : string) :
  comma_free s <-> count_byte "," s = O.
Proof.
  unfold comma_free. induction s as [|b s IH]; [simpl; tauto|].
  cbn [contains_byte count_byte]. rewrite orb_false_iff, IH.
  destruct (Ascii.eqb b ","); simpl; split;
    try tauto; try lia; try (intros [H _]; discriminate).
Qed.

(** A string has no comma, or a first one. *)
Lemma index_comma_spec (s : string) :
  match String.index 0 "," s with
  | None => comma_free s
  | Some m =>
      exists x rest, s = (x ++ "," ++ rest)%string
                     /\ comma_free x /\ m = String.length x
  end.
Proof.
  induction s as [|b s IH]; [reflexivity|].
  rewrite index_comma_cons.
  destruct (Ascii.eqb_spec b ",") as [->|Hb].
  - exists "", s. repeat split.
  - destruct (String.index 0 "," s) as [m|]; cbn [option_map].
    + destruct IH as (x & rest & -> & Hx & ->).
      exists (String b x), rest. split; [reflexivity|].
      split; [|reflexivity]. apply comma_free_cons. tauto.
    + apply comma_free_cons. tauto.
Qed.

Lemma count_byte_app (c : ascii) (x y : string) :
  count_byte c (x ++ y) = (count_byte c x + count_byte c y)%nat.
Proof. induction x as [|b x IH]; simpl; [reflexivity|rewrite IH; lia]. Qed.

(** [Split] gives one element more than the string has commas. *)
Lemma genSplit_length (n : nat) : forall s : string,
  (count_byte "," s <= n)%nat ->
  List.length (strings.genSplit n s ",") = S (count_byte "," s).
Proof.
  induction n as [|n IH]; intros s Hn.
  - simpl. lia.
  - cbn [strings.genSplit]. pose proof (index_comma_spec s) as Hs.
    destruct (String.index 0 "," s) as [m|].
    + destruct Hs as (x & rest & -> & Hx & ->).
      rewrite drop_app_separator. cbn [List.length].
      rewrite count_byte_app in Hn |- *.
      apply count_comma_free in Hx. rewrite Hx in Hn |- *.
      cbn [append count_byte Ascii.eqb Bool.eqb] in Hn |- *.
      cbn in Hn |- *. rewrite IH by lia. reflexivity.
    + apply count_comma_free in Hs. rewrite Hs. reflexivity.
Qed.

Lemma count_byte_length (c : ascii) (s : string) :
  (count_byte c s <= String.length s)%nat.
Proof.
  induction s as [|b s IH]; simpl; [lia|]. destruct (Ascii.eqb b c); lia.
Qed.

Lemma Split_length (s : string) :
  List.length (strings.Split s ",") = S (count_byte "," s).
Proof. apply genSplit_length, count_byte_length. Qed.

Section DurationListSet.
Context {tm : TimePkg}.

(** ** [DurationList.Set] on any string *)

Lemma ParseTo_cons (v : string) (values : list string) (ds : list Z) :
  ParseTo (v :: values) ds
  <-> exists t ds', ds = t :: ds' /\ ParseDuration v = inl t
                    /\ ParseTo values ds'.
Proof.
  unfold ParseTo. split.
  - destruct ds as [|t ds']; [discriminate|]. cbn [map].
    intros H. injection H as Hv Hrest. eauto.
  - intros (t & ds' & -> & Hv & Hrest). cbn [map]. congruence.
Qed.

Lemma ParseTo_length (values : list string) (ds : list Z) :
  ParseTo values ds -> List.length ds = List.length values.
Proof.
  unfold ParseTo. intros H.
  rewrite <- (length_map (@inl Z error) ds), <- H. apply length_map.
Qed.

Lemma Set_range_succeeds (values : list string) :
  forall (acc d : DurationList.t),
  DurationList.Set_range values acc = (None, d)
  <-> exists ds, ParseTo values ds /\ d = (acc ++ ds)%list.
Proof.
  induction values as [|v values IH]; intros acc d.
  - cbn [DurationList.Set_range]. unfold ret. split.
    + intros H. injection H as <-. exists []. rewrite app_nil_r.
      split; reflexivity.
    + intros (ds & Hds & ->). destruct ds; [|discriminate].
      rewrite app_nil_r. reflexivity.
  - cbn [DurationList.Set_range]. split.
    + destruct (ParseDuration v) as [t|err] eqn:Hv; [|discriminate].
      unfold bind, store. intros H. apply IH in H.
      destruct H as (ds & Hds & ->). exists (t :: ds).
      split; [|rewrite <- app_assoc; reflexivity].
      apply ParseTo_cons. eauto.
    + intros (ds & Hds & ->). apply ParseTo_cons in Hds.
      destruct Hds as (t & ds' & -> & Hv & Hds). rewrite Hv.
      unfold bind, store. apply IH. exists ds'.
      split; [assumption|rewrite <- app_assoc; reflexivity].
Qed.

Lemma Set_range_fails (good : list string) :
  forall (bad : string) (rest : list string) (ds acc : DurationList.t)
    (err : error),
  ParseTo good ds -> ParseDuration bad = inr err ->
  DurationList.Set_range (good ++ bad :: rest) acc
  = (Some err, (acc ++ ds)%list).
Proof.
  induction good as [|v good IH]; intros bad rest ds acc err Hgood Hbad.
  - destruct ds; [|discriminate]. cbn [app DurationList.Set_range].
    rewrite Hbad, app_nil_r. reflexivity.
  - apply ParseTo_cons in Hgood.
    destruct Hgood as (t & ds' & -> & Hv & Hgood).
    cbn [app DurationList.Set_range]. rewrite Hv. unfold bind, store.
    rewrite (IH bad rest ds' _ err Hgood Hbad), <- app_assoc. reflexivity.
Qed.

Lemma Set_unfold (s : string) (receiver : DurationList.t) :
  DurationList.Set_ s receiver
  = DurationList.Set_range (strings.Split s ",") [].
Proof. reflexivity. Qed.

(** X12. [Set] succeeds exactly when every element of the string between
    commas parses, and then leaves the parsed durations, in their order, in
    place of what the receiver held. *)
Theorem Set_succeeds_iff (s : string) (receiver d : DurationList.t) :
  DurationList.Set_ s receiver = (None, d)
  <-> ParseTo (strings.Split s ",") d.
Proof.
  rewrite Set_unfold, Set_range_succeeds. split.
  - intros (ds & Hds & ->). exact Hds.
  - intros Hd. exists d. split; [assumption|reflexivity].
Qed.

(** X13. When an element does not parse, [Set] returns the error of the first
    such element, and the receiver is left with the durations of the
    elements before it: neither what it held nor the whole list. *)
Theorem Set_failure_keeps_prefix (s bad : string) (good rest : list string)
  (ds receiver : DurationList.t) (err : error) :
  strings.Split s "," = (good ++ bad :: rest)%list ->
  ParseTo good ds ->
  ParseDuration bad = inr err ->
  DurationList.Set_ s receiver = (Some err, ds).
Proof.
  intros Hs Hgood Hbad. rewrite Set_unfold, Hs.
  apply (Set_range_fails good bad rest ds [] err Hgood Hbad).
Qed.

(** X14. After a [Set] that succeeds the list has one duration for each
    element of the string, one more than the string has commas: it is
    never empty. *)
Theorem Set_one_duration_per_element (s : string) (receiver : DurationList.t) :
  result (DurationList.Set_ s) receiver = None ->
  List.length (after (DurationList.Set_ s) receiver) = S (count_byte "," s)
  /\ after (DurationList.Set_ s) receiver <> [].
Proof.
  unfold result, after. rewrite Set_unfold.
  destruct (DurationList.Set_range _ []) as [r d] eqn:Hset. cbn [fst snd].
  intros ->. apply Set_range_succeeds in Hset.
  destruct Hset as (ds & Hds & ->). cbn [app].
  apply ParseTo_length in Hds. rewrite Split_length in Hds.
  split; [exact Hds|]. destruct ds; [discriminate|discriminate].
Qed.

End DurationListSet.

(** ** [Set] with Go's package time *)

Lemma int64_range (z : Z) : IsDuration (gotime.int64 z).
Proof.
  unfold IsDuration, gotime.int64.
  pose proof (Z.mod_pos_bound (z + 2 ^ 63) (2 ^ 64) ltac:(lia)).
  change (2 ^ 64) with (2 * 2 ^ 63) in *. lia.
Qed.

(** [ParseDuration] returns an int64. *)
Lemma ParseDuration_range (s : string) (d : Z) :
  gotime.ParseDuration s = inl d -> IsDuration d.
Proof.
  unfold gotime.ParseDuration.
  assert (H0 : IsDuration 0) by (unfold IsDuration; lia).
  destruct (match s with
            | EmptyString => (false, s)
            | String c rest =>
                if Ascii.eqb c "-" || Ascii.eqb c "+"
                then (Ascii.eqb c "-", rest) else (false, s)
            end) as [neg s'].
  destruct (String.eqb s' "0"); [intros H; injection H as <-; exact H0|].
  destruct (String.eqb s' ""); [discriminate|].
  destruct (gotime.parse_terms _ _ _ _) as [v|err]; [|discriminate].
  destruct neg.
  - intros H. injection H as <-. apply int64_range.
  - destruct (v >? 2 ^ 63 - 1); [discriminate|].
    intros H. injection H as <-. apply int64_range.
Qed.

Lemma ParseTo_Forall {tm : TimePkg} (P : Z -> Prop) (values : list string) :
  (forall v t, ParseDuration v = inl t -> P t) ->
  forall ds, ParseTo values ds -> Forall P ds.
Proof.
  intros HP. induction values as [|v values IH]; intros ds Hds.
  - destruct ds; [constructor|discriminate].
  - apply ParseTo_cons in Hds. destruct Hds as (t & ds' & -> & Hv & Hds).
    constructor; [exact (HP v t Hv)|exact (IH ds' Hds)].
Qed.

(** X15. The string of a list that [Set] has read is read back as the same
    list, whatever the string was that [Set] read: [String] after [Set]
    gives a canonical form of that string. *)
Theorem Set_String_Set (s : string) (receiver receiver' d : DurationList.t) :
  DurationList.Set_ (tm := go_time) s receiver = (None, d) ->
  DurationList.Set_ (tm := go_time)
    (result (DurationList.String (tm := go_time)) d) receiver'
  = (None, d).
Proof.
  rewrite Set_unfold. intros Hset. apply Set_range_succeeds in Hset.
  destruct Hset as (ds & Hds & ->). cbn [app].
  assert (Hne : ds <> []).
  { apply ParseTo_length in Hds. rewrite Split_length in Hds.
    destruct ds; [discriminate|discriminate]. }
  assert (Hrt : Forall (RoundTrips (tm := go_time)) ds).
  { apply (ParseTo_Forall (tm := go_time) _ (strings.Split s ","));
      [|exact Hds].
    intros v t Hv. apply go_time_round_trips.
    exact (ParseDuration_range v t Hv). }
  unfold result, DurationList.String, DurationList.Set_, bind, load, store,
    ret.
  cbn [fst].
  rewrite Split_Join.
  - rewrite Set_range_parses; [reflexivity|].
    eapply Forall_impl; [|exact Hrt]. intros v [_ Hv]. exact Hv.
  - destruct ds; [congruence|discriminate].
  - apply Forall_map. eapply Forall_impl; [|exact Hrt].
    intros v [Hv _]. exact Hv.
Qed.

(** ** The errors of [TSDBConfig.Validate], and [Validate] after
    [RegisterFlags] *)

Section TSDBFlags.
Context {prom : PrometheusConsts}.
Implicit Type cfg : TSDBConfig.t.
Import TSDBConfig.

(** X9. [Validate] reports the first constraint that does not hold, in the
    order of the source: each of its errors is returned exactly when the
    constraints before the one it names hold and that one does not. *)
Theorem Validate_reports_first_violation cfg :
  GoInt.InRange (StripeSize cfg) ->
  let r := result Validate cfg in
  (r = Some errInvalidShipConcurrency <-> ~ ValidShipConcurrency cfg)
  /\ (r = Some errInvalidOpeningConcurrency
      <-> ValidShipConcurrency cfg /\ ~ ValidOpeningConcurrency cfg)
  /\ (r = Some errInvalidCompactionInterval
      <-> ValidBeforeCompactionInterval cfg /\ ~ ValidCompactionInterval cfg)
  /\ (r = Some errInvalidCompactionConcurrency
      <-> ValidBeforeCompactionInterval cfg /\ ValidCompactionInterval cfg
          /\ ~ ValidCompactionConcurrency cfg)
  /\ (r = Some errWriteBufferSize
      <-> ValidBeforeWriteBufferSize cfg /\ ~ ValidWriteBufferSize cfg)
  /\ (r = Some errInvalidStripeSize
      <-> ValidBeforeStripeSize cfg /\ ~ ValidStripeSize cfg)
  /\ (r = Some errEmptyBlockranges
      <-> ValidBeforeBlockRanges cfg /\ ~ ValidBlockRanges cfg)
  /\ (r = Some errInvalidWALSegmentSizeBytes
      <-> ValidBeforeBlockRanges cfg /\ ValidBlockRanges cfg
          /\ ~ ValidWALSegmentSize cfg).
Proof.
  intros Hr. cbv zeta. rewrite Validate_result.
  unfold ValidBeforeBlockRanges, ValidBeforeStripeSize,
    ValidBeforeWriteBufferSize, ValidBeforeCompactionInterval.
  rewrite <- ship_concurrency_check, <- opening_concurrency_check,
    <- compaction_interval_check, <- compaction_concurrency_check,
    <- write_buffer_size_check, <- (stripe_size_check cfg Hr),
    <- block_ranges_check, <- wal_segment_size_check.
  destruct errWriteBufferSize_head as (rest & Hw). rewrite Hw.
  unfold errInvalidShipConcurrency, errInvalidOpeningConcurrency,
    errInvalidCompactionInterval, errInvalidCompactionConcurrency,
    errInvalidStripeSize, errEmptyBlockranges, errInvalidWALSegmentSizeBytes,
    errors.New.
  repeat match goal with
         | |- context [if ?b then _ else _] => destruct b
         end;
    repeat split; intros; try discriminate; try reflexivity;
    try tauto; try (intuition discriminate).
Qed.

(** [Validate] after [RegisterFlags]: the two defaults of Prometheus are
    all that is left to check. *)
Lemma Validate_registered cfg :
  result Validate (after RegisterFlags cfg) =
    if (chunks_DefaultWriteBufferSize <? chunks_MinWriteBufferSize)
       || (chunks_DefaultWriteBufferSize >? chunks_MaxWriteBufferSize)
       || negb (GoInt.rem chunks_DefaultWriteBufferSize 1024 =? 0)
    then Some errWriteBufferSize
    else if wlog_DefaultSegmentSize <=? 0
    then Some errInvalidWALSegmentSizeBytes
    else None.
Proof.
  rewrite Validate_result. unfold after, RegisterFlags, store.
  cbn [snd ShipInterval ShipConcurrency MaxTSDBOpeningConcurrencyOnStartup
         HeadCompactionInterval HeadCompactionConcurrency
         HeadChunksWriteBufferSize StripeSize BlockRanges
         WALSegmentSizeBytes].
  change ((1 * time.Minute >? 0) && (10 <=? 0)) with false.
  change (10 <=? 0) with false.
  change ((1 * time.Minute <=? 0) || (1 * time.Minute >? 15 * time.Minute))
    with false.
  change (1 <=? 0) with false.
  change ((16384 <=? 1)
          || negb (GoInt.and 16384 (GoInt.sub 16384 1) =? 0)) with false.
  cbv iota.
  assert (Hranges :
            Nat.eqb
              (List.length
                 (if (List.length (BlockRanges cfg) =? 0)%nat
                  then [2 * time.Hour] else BlockRanges cfg)) 0 = false).
  { destruct (BlockRanges cfg); reflexivity. }
  rewrite Hranges. reflexivity.
Qed.

Lemma prometheus_defaults_check :
  ValidPrometheusDefaults <->
  ((chunks_DefaultWriteBufferSize <? chunks_MinWriteBufferSize)
   || (chunks_DefaultWriteBufferSize >? chunks_MaxWriteBufferSize)
   || negb (GoInt.rem chunks_DefaultWriteBufferSize 1024 =? 0) = false
   /\ (wlog_DefaultSegmentSize <=? 0) = false).
Proof.
  unfold ValidPrometheusDefaults, GoInt.rem.
  rewrite !orb_false_iff, negb_false_iff, Z.gtb_ltb, !Z.ltb_ge, Z.eqb_eq,
    Z.leb_gt.
  rewrite Z.rem_divide by lia. intuition lia.
Qed.

(** X10. After [RegisterFlags] the configuration is valid, whatever it held
    before, exactly when the defaults that Prometheus gives the write
    buffer and the WAL segments are: every other default of a checked
    field is a valid value. *)
Theorem RegisterFlags_defaults_valid_iff cfg :
  result Validate (after RegisterFlags cfg) = None
  <-> ValidPrometheusDefaults.
Proof.
  rewrite Validate_registered, prometheus_defaults_check.
  destruct (_ || _); [intuition discriminate|].
  destruct (_ <=? _); intuition discriminate.
Qed.

End TSDBFlags.

(** ** The error values of [TSDBConfig.Validate] *)

Section ErrorIdentity.
Context {prom : PrometheusConsts}.
Implicit Type cfg : TSDBConfig.t.
Import TSDBConfig.

(** A call from one heap and a call from another: either both return the
    error of the write buffer size, each in a struct that it allocates, or
    both return the same result and leave their heap as it is. *)
Lemma Validate_values_call cfg (heap heap' : Heap) :
  (result Validate cfg = Some errWriteBufferSize
   /\ Validate_values (cfg, heap)
      = (Some {| addr := allocated heap; pointee := errWriteBufferSize |},
         (cfg, S heap))
   /\ Validate_values (cfg, heap')
      = (Some {| addr := allocated heap'; pointee := errWriteBufferSize |},
         (cfg, S heap')))
  \/ (result Validate cfg <> Some errWriteBufferSize
      /\ exists r,
           option_map pointee r = result Validate cfg
           /\ Validate_values (cfg, heap) = (r, (cfg, heap))
           /\ Validate_values (cfg, heap') = (r, (cfg, heap'))).
Proof.
  rewrite Validate_result.
  cbv [Validate_values returning_if field allocating bind load ret fst snd
         errors_Errorf].
  destruct errWriteBufferSize_head as (rest & Hw).
  repeat match goal with
         | |- context [if ?b then _ else _] =>
             destruct b;
             [first
                [ left; split; [reflexivity|]; split; reflexivity
                | right; split; [rewrite Hw; discriminate|];
                  eexists; split; [|split; reflexivity];
                  reflexivity ]|]
         end.
  right. split; [discriminate|]. exists None. repeat split.
Qed.

(** X27. The named errors are package-level values, the same at every call;
    the error of the write buffer size is built by [errors.Errorf] at
    each call. Two calls of [Validate] in a row on a configuration return
    errors that hold what [Validate] returns, and leave the configuration
    as it was; the two error values are the same value, except when they
    are the error of the write buffer size: then they are two values,
    with the same message. *)
Theorem Validate_error_identity cfg (heap : Heap) :
  let first := Validate_values (cfg, heap) in
  let second := Validate_values (snd first) in
  fst (snd first) = cfg
  /\ option_map pointee (fst first) = result Validate cfg
  /\ option_map pointee (fst second) = result Validate cfg
  /\ (result Validate cfg <> Some errWriteBufferSize ->
      fst second = fst first)
  /\ (result Validate cfg = Some errWriteBufferSize ->
      fst second <> fst first).
Proof.
  cbv zeta.
  destruct (Validate_values_call cfg heap (S heap))
    as [(Hw & Hfirst & Hsecond)|(Hother & r & Hr & Hfirst & _)];
    unfold Heap in *.
  - rewrite Hfirst. cbn [fst snd]. rewrite Hsecond.
    cbn [fst snd option_map pointee].
    repeat split; try (symmetry; exact Hw); [contradiction|].
    intros _ H. injection H as H. exact (n_Sn _ (eq_sym H)).
  - rewrite Hfirst. cbn [fst snd]. rewrite Hfirst. cbn [fst].
    repeat split; try exact Hr. contradiction.
Qed.

End ErrorIdentity.

(** ** [Validate] after [RegisterFlags], for the bucket store and the
    blocks storage *)

Section StoreFlags.
Context {prom : PrometheusConsts} {ext : Collaborators}
  {flags : FlagCollaborators}.

Lemma BucketStoreConfig_Validate_registered
  (cfg : BucketStoreConfig.t) (logger : Logger) :
  let '(cfg', logger') := after BucketStoreConfig_RegisterFlags (cfg, logger) in
  BucketStoreConfig.Validate cfg' logger'
  = (first_failure (cache_checks cfg'), logger').
Proof.
  unfold after, BucketStoreConfig_RegisterFlags.
  destruct (ChunksCacheConfig_RegisterFlagsWithPrefix _ _ logger)
    as [chunksCache logger'].
  cbn [snd].
  unfold BucketStoreConfig.Validate, cache_checks, failing_if, failing_on,
    bind, store, ret.
  cbn [BucketStoreConfig.StreamingBatchSize BucketStoreConfig.IndexCache
         BucketStoreConfig.ChunksCache BucketStoreConfig.MetadataCache
         BucketStoreConfig.DeprecatedConsistencyDelay].
  change (5000 <=? 0) with false. change (0 >? 0) with false. cbv iota.
  destruct (IndexCacheConfig_Validate _); [reflexivity|].
  destruct (ChunksCacheConfig_Validate _); [reflexivity|].
  destruct (MetadataCacheConfig_Validate _); reflexivity.
Qed.

(** X23. Right after [RegisterFlags] the bucket store passes the checks of its
    own fields: [Validate] returns the first failure of the validators of
    the three caches, wrapped, or nil, and logs nothing, the deprecated
    consistency delay being 0. *)
Theorem BucketStoreConfig_registered_validation
  (cfg : BucketStoreConfig.t) (logger : Logger) :
  let registered := after BucketStoreConfig_RegisterFlags (cfg, logger) in
  BucketStoreConfig.Validate (fst registered) (snd registered)
  = (first_failure (cache_checks (fst registered)), snd registered)
  /\ result (BucketStoreConfig.Validate (fst registered)) (snd registered)
     <> Some errInvalidStreamingBatchSize.
Proof.
  cbv zeta.
  pose proof (BucketStoreConfig_Validate_registered cfg logger) as H.
  destruct (after BucketStoreConfig_RegisterFlags (cfg, logger))
    as [cfg' logger'].
  cbn [fst snd]. split; [exact H|]. unfold result. rewrite H. cbn [fst].
  unfold cache_checks. cbn [first_failure].
  destruct (IndexCacheConfig_Validate _); [discriminate|].
  destruct (ChunksCacheConfig_Validate _); [discriminate|].
  destruct (MetadataCacheConfig_Validate _); discriminate.
Qed.

(** X24. Right after [RegisterFlags], with defaults of Prometheus that are
    valid, the blocks storage passes the checks of the TSDB and of the
    fields of the bucket store: [Validate] returns the first failure of the
    validator of the bucket and of the validators of the three caches, or
    nil, and logs nothing. *)
Theorem BlocksStorageConfig_registered_validation
  (cfg : BlocksStorageConfig.t) (logger : Logger) :
  ValidPrometheusDefaults ->
  let registered := after BlocksStorageConfig_RegisterFlags (cfg, logger) in
  BlocksStorageConfig.Validate (fst registered) (snd registered)
  = (first_failure
       (bucket_Config_Validate (BlocksStorageConfig.Bucket (fst registered))
          :: cache_checks (BlocksStorageConfig.BucketStore (fst registered))),
     snd registered).
Proof.
  intros Hprom. cbv zeta.
  change (after BlocksStorageConfig_RegisterFlags (cfg, logger))
    with (snd (BlocksStorageConfig_RegisterFlags (cfg, logger))).
  unfold BlocksStorageConfig_RegisterFlags.
  destruct (bucket_Config_RegisterFlagsWithPrefixAndDefaultDirectory _ _ _ _)
    as [bucket logger1].
  pose proof (BucketStoreConfig_Validate_registered
                (BlocksStorageConfig.BucketStore cfg) logger1) as Hstore.
  destruct (after BucketStoreConfig_RegisterFlags _) as [store' logger2].
  cbn [fst snd BlocksStorageConfig.Bucket BlocksStorageConfig.BucketStore].
  unfold BlocksStorageConfig.Validate, failing_on, ret.
  cbn [BlocksStorageConfig.Bucket BlocksStorageConfig.BucketStore
         BlocksStorageConfig.TSDB first_failure].
  destruct (bucket_Config_Validate bucket); [reflexivity|].
  rewrite Validate_registered.
  apply prometheus_defaults_check in Hprom. destruct Hprom as [-> ->].
  exact Hstore.
Qed.

End StoreFlags.

(** ** DurationList.ToMilliseconds *)

Section Milliseconds.
Implicit Type d : DurationList.t.

Lemma Millisecond_value : time.Millisecond = 1000000.
Proof. reflexivity. Qed.

Lemma ToMilliseconds_result d :
  result DurationList.ToMilliseconds d
  = map (fun t => Z.quot t time.Millisecond) d.
Proof. reflexivity. Qed.

(** X16. The milliseconds give the durations back exactly when every duration
    is a whole number of milliseconds. *)
Theorem ToMilliseconds_exact_iff d :
  map (fun ms => ms * time.Millisecond) (result DurationList.ToMilliseconds d)
  = d
  <-> Forall (fun t => (time.Millisecond | t)) d.
Proof.
  rewrite ToMilliseconds_result, Millisecond_value.
  induction d as [|t d IH]; cbn [map].
  - split; [constructor|reflexivity].
  - split.
    + intros H. injection H as Ht Hd. constructor; [|apply IH, Hd].
      exists (Z.quot t 1000000). lia.
    + intros H. inversion H as [|? ? [q Hq] Hd]; subst. f_equal.
      * rewrite Z.quot_mul by lia. reflexivity.
      * apply IH, Hd.
Qed.

(** X17. [ToMilliseconds] leaves the list as it is and returns one number for
    each duration, in the same order: the duration without its fraction of
    a millisecond, which is dropped towards zero (less than a millisecond
    of either sign gives 0); durations in ascending order give milliseconds
    in ascending order. *)
Theorem ToMilliseconds_truncates d :
  after DurationList.ToMilliseconds d = d
  /\ Forall2
       (fun t ms =>
          (0 <= t -> 0 <= t - ms * time.Millisecond < time.Millisecond)
          /\ (t <= 0 -> - time.Millisecond < t - ms * time.Millisecond <= 0))
       d (result DurationList.ToMilliseconds d)
  /\ (Sorted Z.le d -> Sorted Z.le (result DurationList.ToMilliseconds d)).
Proof.
  split; [reflexivity|].
  rewrite ToMilliseconds_result, Millisecond_value. split.
  - induction d as [|t d IH]; cbn [map]; constructor; [|exact IH].
    pose proof (Z.quot_rem t 1000000 ltac:(lia)) as Hqr.
    split; intros Ht.
    + pose proof (Z.rem_bound_pos t 1000000 Ht ltac:(lia)). lia.
    + pose proof (Z.rem_bound_pos_neg t 1000000 ltac:(lia) Ht). lia.
  - intros Hsorted. induction Hsorted as [|t d Hd IH Hhd]; cbn [map].
    + constructor.
    + constructor; [exact IH|].
      destruct Hhd as [|t' d' Hle]; cbn [map]; constructor.
      apply Z.quot_le_mono; lia.
Qed.

End Milliseconds.

(** ** The block ranges given on the command line *)

Lemma on_BlockRanges_result {A : Type} (m : Method DurationList.t A)
  (cfg : TSDBConfig.t) :
  result (on_BlockRanges m) cfg = result m (TSDBConfig.BlockRanges cfg).
Proof.
  unfold result, on_BlockRanges. destruct (m _). reflexivity.
Qed.

Lemma on_BlockRanges_after {A : Type} (m : Method DurationList.t A)
  (cfg : TSDBConfig.t) :
  after (on_BlockRanges m) cfg
  = with_BlockRanges (after m (TSDBConfig.BlockRanges cfg)) cfg.
Proof.
  unfold after, on_BlockRanges. destruct (m _). reflexivity.
Qed.

Section BlockRangesFlag.
Context {prom : PrometheusConsts} {tm : TimePkg}.
Implicit Type cfg : TSDBConfig.t.

(** X11. The block ranges flag cannot make a registered configuration invalid:
    after [RegisterFlags], with defaults of Prometheus that are valid, a
    [Set] of the block ranges that succeeds leaves a configuration that
    [Validate] accepts, whatever the durations are that were read. *)
Theorem block_ranges_flag_keeps_valid cfg (s : string) :
  ValidPrometheusDefaults ->
  let registered := after TSDBConfig.RegisterFlags cfg in
  result (on_BlockRanges (DurationList.Set_ s)) registered = None ->
  result TSDBConfig.Validate
    (after (on_BlockRanges (DurationList.Set_ s)) registered) = None.
Proof.
  intros Hprom. cbv zeta.
  rewrite on_BlockRanges_result, on_BlockRanges_after.
  pose proof (Validate_registered cfg) as Hvalid.
  apply prometheus_defaults_check in Hprom. destruct Hprom as [Hb Hw].
  rewrite Hb, Hw in Hvalid.
  generalize dependent (after TSDBConfig.RegisterFlags cfg).
  intros registered Hvalid.
  unfold result at 1. unfold after. rewrite Set_unfold.
  destruct (DurationList.Set_range _ []) as [r ranges] eqn:Hset.
  cbn [fst snd]. intros ->. apply Set_range_succeeds in Hset.
  destruct Hset as (ds & Hds & ->). cbn [app].
  apply ParseTo_length in Hds. rewrite Split_length in Hds.
  rewrite Validate_result in Hvalid |- *.
  cbn [with_BlockRanges TSDBConfig.ShipInterval TSDBConfig.ShipConcurrency
         TSDBConfig.MaxTSDBOpeningConcurrencyOnStartup
         TSDBConfig.HeadCompactionInterval
         TSDBConfig.HeadCompactionConcurrency
         TSDBConfig.HeadChunksWriteBufferSize TSDBConfig.StripeSize
         TSDBConfig.BlockRanges TSDBConfig.WALSegmentSizeBytes].
  repeat match type of Hvalid with
         | context [if ?b then _ else _] =>
             destruct b; [discriminate Hvalid|]
         end.
  destruct ds; [discriminate|]. reflexivity.
Qed.

(** X25. [Validate] wants block ranges, and does not look at what they are:
    any two lists that are not empty get the same result, be their
    durations zero, negative or in no order. *)
Theorem block_ranges_values_not_validated cfg
  (ranges ranges' : DurationList.t) :
  ranges <> [] -> ranges' <> [] ->
  result TSDBConfig.Validate (with_BlockRanges ranges cfg)
  = result TSDBConfig.Validate (with_BlockRanges ranges' cfg).
Proof.
  intros Hne Hne'. rewrite !Validate_result.
  cbn [with_BlockRanges TSDBConfig.ShipInterval TSDBConfig.ShipConcurrency
         TSDBConfig.MaxTSDBOpeningConcurrencyOnStartup
         TSDBConfig.HeadCompactionInterval
         TSDBConfig.HeadCompactionConcurrency
         TSDBConfig.HeadChunksWriteBufferSize TSDBConfig.StripeSize
         TSDBConfig.BlockRanges TSDBConfig.WALSegmentSizeBytes].
  destruct ranges; [congruence|]. destruct ranges'; [congruence|].
  reflexivity.
Qed.

End BlockRangesFlag.

(** ** What the validators log *)

Section DeprecationWarning.
Context {prom : PrometheusConsts} {ext : Collaborators}.

(** X21. [BucketStoreConfig.Validate] logs exactly one thing: the warning about
    the deprecated consistency delay, when the delay is positive and
    validation succeeds. A validation that fails logs nothing. *)
Theorem BucketStoreConfig_deprecation_warning
  (cfg : BucketStoreConfig.t) (logger : Logger) :
  after (BucketStoreConfig.Validate cfg) logger
  = match result (BucketStoreConfig.Validate cfg) logger with
    | None =>
        if BucketStoreConfig.DeprecatedConsistencyDelay cfg >? 0
        then util_WarnDeprecatedConfig
               "blocks-storage.bucket-store.consistency-delay" logger
        else logger
    | Some _ => logger
    end.
Proof.
  unfold after, result, BucketStoreConfig.Validate, failing_if, failing_on,
    bind, store, ret.
  destruct (_ <=? 0); [reflexivity|].
  destruct (IndexCacheConfig_Validate _); [reflexivity|].
  destruct (ChunksCacheConfig_Validate _); [reflexivity|].
  destruct (MetadataCacheConfig_Validate _); [reflexivity|].
  destruct (_ >? 0); reflexivity.
Qed.

(** X22. The same holds of [BlocksStorageConfig.Validate], for the delay of its
    bucket store. *)
Theorem BlocksStorageConfig_deprecation_warning
  (cfg : BlocksStorageConfig.t) (logger : Logger) :
  after (BlocksStorageConfig.Validate cfg) logger
  = match result (BlocksStorageConfig.Validate cfg) logger with
    | None =>
        if BucketStoreConfig.DeprecatedConsistencyDelay
             (BlocksStorageConfig.BucketStore cfg) >? 0
        then util_WarnDeprecatedConfig
               "blocks-storage.bucket-store.consistency-delay" logger
        else logger
    | Some _ => logger
    end.
Proof.
  unfold after, result at 1. unfold BlocksStorageConfig.Validate, failing_on, ret.
  destruct (bucket_Config_Validate _); [reflexivity|].
  destruct (result TSDBConfig.Validate (BlocksStorageConfig.TSDB cfg));
    [reflexivity|].
  unfold BucketStoreConfig.Validate, failing_if, failing_on,
    bind, store, ret.
  destruct (_ <=? 0); [reflexivity|].
  destruct (IndexCacheConfig_Validate _); [reflexivity|].
  destruct (ChunksCacheConfig_Validate _); [reflexivity|].
  destruct (MetadataCacheConfig_Validate _); [reflexivity|].
  destruct (_ >? 0); reflexivity.
Qed.

End DeprecationWarning.

(* ================================================================== *)
(** * The blocks directory: [filepath.Join] on a simple name *)

(** ** The loop of [Clean] *)

Lemma copy_element_length (s : string) : forall out,
  (String.length (fst (filepath.copy_element s out)) <= String.length s)%nat.
Proof.
  induction s as [|c s IH]; intros out; cbn [filepath.copy_element].
  - simpl. lia.
  - destruct (filepath.IsPathSeparator c); cbn [fst String.length].
    + lia.
    + specialize (IH (c :: out)). lia.
Qed.

Lemma drop_1_length (s : string) :
  (String.length (strings.drop 1 s) <= String.length s)%nat.
Proof. destruct s; simpl; lia. Qed.

(** More iterations than the path has bytes change nothing. *)
Lemma clean_loop_fuel (rooted : bool) (fuel : nat) :
  forall (fuel' : nat) (s : string) (out : filepath.lazybuf) (dotdot : nat),
  (String.length s <= fuel)%nat -> (String.length s <= fuel')%nat ->
  filepath.clean_loop fuel rooted s out dotdot
  = filepath.clean_loop fuel' rooted s out dotdot.
Proof.
  induction fuel as [|fuel IH]; intros fuel' s out dotdot Hf Hf'.
  - destruct s; [|simpl in Hf; lia]. destruct fuel'; reflexivity.
  - destruct s as [|c rest]; [destruct fuel'; reflexivity|].
    destruct fuel' as [|fuel']; [simpl in Hf'; lia|].
    cbn [String.length] in Hf, Hf'.
    cbn [filepath.clean_loop].
    destruct (filepath.IsPathSeparator c) eqn:Hsep; [apply IH; lia|].
    destruct (Ascii.eqb c "." && filepath.ends_element rest);
      [apply IH; lia|].
    pose proof (drop_1_length rest) as Hdrop.
    match goal with |- (if ?b then _ else _) = _ => destruct b end.
    + destruct (_ <? _)%nat; [apply IH; lia|].
      destruct (negb rooted); apply IH; lia.
    + pose proof (copy_element_length (String c rest)
                    (with_separator rooted out)) as Hlen.
      unfold with_separator in Hlen.
      destruct (filepath.copy_element (String c rest) _) as [s' out'] eqn:Hcopy.
      cbn [filepath.copy_element] in Hcopy. rewrite Hsep in Hcopy.
      pose proof (copy_element_length rest
                    (c :: with_separator rooted out)) as Hlen'.
      unfold with_separator in Hlen'. rewrite Hcopy in Hlen'.
      cbn [fst] in Hlen'. apply IH; lia.
Qed.

(** One iteration of the loop. *)
Lemma clean_run_cons (rooted : bool) (c : ascii) (rest : string)
  (out : filepath.lazybuf) (dotdot : nat) :
  clean_run rooted (String c rest) out dotdot =
    if filepath.IsPathSeparator c then clean_run rooted rest out dotdot
    else if Ascii.eqb c "." && filepath.ends_element rest
    then clean_run rooted rest out dotdot
    else if Ascii.eqb c "."
            && match rest with
               | String c' rest' =>
                   Ascii.eqb c' "." && filepath.ends_element rest'
               | EmptyString => false
               end
    then
      let s := strings.drop 1 rest in
      if (dotdot <? List.length out)%nat
      then clean_run rooted s (filepath.backtrack dotdot out) dotdot
      else if negb rooted then
        let out :=
          if (0 <? List.length out)%nat then filepath.Separator :: out
          else out in
        let out := "."%char :: "."%char :: out in
        clean_run rooted s out (List.length out)
      else clean_run rooted s out dotdot
    else
      let '(s, out) :=
        filepath.copy_element (String c rest) (with_separator rooted out) in
      clean_run rooted s out dotdot.
Proof.
  unfold clean_run. cbn [String.length filepath.clean_loop].
  destruct (filepath.IsPathSeparator c) eqn:Hsep; [reflexivity|].
  destruct (Ascii.eqb c "." && filepath.ends_element rest); [reflexivity|].
  pose proof (drop_1_length rest) as Hdrop.
  match goal with |- (if ?b then _ else _) = _ => destruct b end.
  - cbv zeta. destruct (_ <? _)%nat; [apply clean_loop_fuel; lia|].
    destruct (negb rooted); apply clean_loop_fuel; lia.
  - fold (with_separator rooted out).
    pose proof (copy_element_length (String c rest)
                  (with_separator rooted out)) as Hlen.
    destruct (filepath.copy_element (String c rest) _) as [s' out'] eqn:Hcopy.
    cbn [filepath.copy_element] in Hcopy. rewrite Hsep in Hcopy.
    pose proof (copy_element_length rest
                  (c :: with_separator rooted out)) as Hlen'.
    rewrite Hcopy in Hlen'. cbn [fst] in Hlen'.
    apply clean_loop_fuel; lia.
Qed.

(** ** What follows a separator does not change how what precedes it is
    cleaned *)

Lemma ends_element_app (rest q : string) :
  filepath.ends_element (rest ++ String "/" q) = filepath.ends_element rest.
Proof. destruct rest; reflexivity. Qed.

Lemma copy_element_app (p q : string) : forall out,
  filepath.copy_element (p ++ String "/" q) out
  = let '(s, out') := filepath.copy_element p out in (s ++ String "/" q, out').
Proof.
  induction p as [|c p IH]; intros out; [reflexivity|].
  cbn [append filepath.copy_element].
  destruct (filepath.IsPathSeparator c); [reflexivity|apply IH].
Qed.

Lemma clean_run_app (rooted : bool) (q : string) (n : nat) :
  forall (p : string) (out : filepath.lazybuf) (dotdot : nat),
  (String.length p <= n)%nat ->
  clean_run rooted (p ++ String "/" q) out dotdot
  = let '(out', dotdot') := clean_run rooted p out dotdot in
    clean_run rooted (String "/" q) out' dotdot'.
Proof.
  induction n as [|n IH]; intros p out dotdot Hn.
  - destruct p; [reflexivity|simpl in Hn; lia].
  - destruct p as [|c rest]; [reflexivity|].
    cbn [String.length] in Hn. cbn [append].
    rewrite (clean_run_cons rooted c (rest ++ String "/" q)).
    rewrite (clean_run_cons rooted c rest).
    rewrite ends_element_app.
    destruct (filepath.IsPathSeparator c) eqn:Hsep; [apply IH; lia|].
    destruct (Ascii.eqb c "." && filepath.ends_element rest);
      [apply IH; lia|].
    destruct rest as [|c' rest'].
    + (* the last element of [p] is the single byte [c] *)
      cbn [append]. rewrite andb_false_r.
      change (filepath.IsPathSeparator "/") with true.
      rewrite andb_false_r. cbn [andb].
      change (String c (String "/" q)) with (String c "" ++ String "/" q).
      rewrite copy_element_app.
      destruct (filepath.copy_element (String c "") _) as [s' out'] eqn:Hcopy.
      pose proof (copy_element_length (String c "")
                    (with_separator rooted out)) as Hlen.
      rewrite Hcopy in Hlen. cbn [fst String.length] in Hlen.
      cbn [filepath.copy_element] in Hcopy. rewrite Hsep in Hcopy.
      injection Hcopy as <- <-. reflexivity.
    + cbn [append]. rewrite ends_element_app.
      destruct (Ascii.eqb c "."
                && (Ascii.eqb c' "." && filepath.ends_element rest')).
      * cbn [strings.drop]. cbn [String.length] in Hn. cbv zeta.
        destruct (_ <? _)%nat; [apply IH; lia|].
        destruct (negb rooted); apply IH; lia.
      * change (String c (String c' (rest' ++ String "/" q)))
          with (String c (String c' rest') ++ String "/" q).
        rewrite copy_element_app.
        pose proof (copy_element_length (String c' rest')
                      (c :: with_separator rooted out)) as Hlen.
        destruct (filepath.copy_element (String c (String c' rest')) _)
          as [s' out'] eqn:Hcopy.
        cbn [filepath.copy_element] in Hcopy. rewrite Hsep in Hcopy.
        cbn [filepath.copy_element] in Hlen. rewrite Hcopy in Hlen.
        cbn [fst] in Hlen. apply IH. lia.
Qed.

(** ** A name that is a path element of its own *)

Lemma contains_separator_cons (c : ascii) (s : string) :
  contains_byte "/" (String c s) = false
  <-> filepath.IsPathSeparator c = false /\ contains_byte "/" s = false.
Proof. cbn [contains_byte]. apply orb_false_iff. Qed.

Lemma ends_element_separator_free (s : string) :
  contains_byte "/" s = false ->
  filepath.ends_element s = true -> s = "".
Proof.
  destruct s as [|c s]; [reflexivity|]. intros Hfree Hend.
  apply contains_separator_cons in Hfree.
  cbn [filepath.ends_element] in Hend.
  destruct Hfree as [Hc _]. congruence.
Qed.

(** A separator-free string is copied whole, up to what ends it. *)
Lemma copy_element_name (u rest : string) : forall out,
  contains_byte "/" u = false -> filepath.ends_element rest = true ->
  filepath.copy_element (u ++ rest) out
  = (rest, (rev (list_ascii_of_string u) ++ out)%list).
Proof.
  induction u as [|c u IH]; intros out Hfree Hend.
  - cbn [append list_ascii_of_string rev app].
    destruct rest as [|c rest]; [reflexivity|].
    cbn in Hend. cbn [filepath.copy_element]. rewrite Hend. reflexivity.
  - apply contains_separator_cons in Hfree. destruct Hfree as [Hc Hfree].
    cbn [append filepath.copy_element]. rewrite Hc.
    rewrite IH by assumption.
    cbn [list_ascii_of_string rev]. rewrite <- app_assoc. reflexivity.
Qed.

(** A simple name is a real path element for [Clean]: it is written to the
    buffer, after a separator when one is needed. *)
Lemma clean_run_name (rooted : bool) (u rest : string)
  (out : filepath.lazybuf) (dotdot : nat) :
  SimpleName u -> filepath.ends_element rest = true ->
  clean_run rooted (u ++ rest) out dotdot
  = clean_run rooted rest
      (rev (list_ascii_of_string u) ++ with_separator rooted out)%list dotdot.
Proof.
  intros (Hne & Hdot & Hdotdot & Hfree) Hend.
  destruct u as [|c u]; [congruence|].
  pose proof Hfree as Hfree'.
  apply contains_separator_cons in Hfree'. destruct Hfree' as [Hc Hu].
  cbn [append]. rewrite clean_run_cons, Hc.
  assert (Hcase2 : Ascii.eqb c "." && filepath.ends_element (u ++ rest)
                   = false).
  { destruct (Ascii.eqb_spec c ".") as [->|_]; [|reflexivity].
    destruct u as [|c' u]; [congruence|].
    apply contains_separator_cons in Hu. destruct Hu as [Hc' _].
    cbn. exact Hc'. }
  rewrite Hcase2.
  assert (Hcase3 :
            Ascii.eqb c "."
            && match (u ++ rest)%string with
               | String c' rest' =>
                   Ascii.eqb c' "." && filepath.ends_element rest'
               | EmptyString => false
               end = false).
  { destruct (Ascii.eqb_spec c ".") as [->|_]; [|reflexivity].
    destruct u as [|c' u]; [congruence|]. cbn [append andb].
    destruct (Ascii.eqb_spec c' ".") as [->|_]; [|reflexivity].
    destruct u as [|c'' u]; [congruence|].
    apply contains_separator_cons in Hu. destruct Hu as [_ Hu].
    apply contains_separator_cons in Hu. destruct Hu as [Hc'' _].
    cbn. exact Hc''. }
  rewrite Hcase3.
  change (String c (u ++ rest)) with (String c u ++ rest).
  rewrite copy_element_name by assumption. reflexivity.
Qed.

(** ** The buffer of a rooted path keeps its leading separator *)



(** ** [Join] of a directory and a simple name *)

Lemma string_of_list_ascii_app (a b : list ascii) :
  string_of_list_ascii (a ++ b)
  = (string_of_list_ascii a ++ string_of_list_ascii b)%string.
Proof. induction a as [|c a IH]; simpl; [reflexivity|rewrite IH; reflexivity]. Qed.

Lemma buffer_string_name (u : string) (out : filepath.lazybuf) :
  buffer_string (rev (list_ascii_of_string u) ++ out)%list
  = (buffer_string out ++ u)%string.
Proof.
  unfold buffer_string.
  rewrite rev_app_distr, rev_involutive, string_of_list_ascii_app,
    string_of_list_ascii_of_string.
  reflexivity.
Qed.

(** A simple name, written as it is, after [./] or before a slash, is
    cleaned to the name. *)
Lemma clean_run_decorated (rooted : bool) (pre u post : string)
  (out : filepath.lazybuf) (dotdot : nat) :
  In pre [""; "./"] -> In post [""; "/"] -> SimpleName u ->
  clean_run rooted (pre ++ u ++ post) out dotdot
  = ((rev (list_ascii_of_string u) ++ with_separator rooted out)%list, dotdot).
Proof.
  intros Hpre Hpost Hu.
  assert (Hend : filepath.ends_element post = true)
    by (destruct Hpost as [<-|[<-|[]]]; reflexivity).
  assert (Hstart : clean_run rooted (pre ++ u ++ post) out dotdot
                   = clean_run rooted (u ++ post) out dotdot).
  { destruct Hpre as [<-|[<-|[]]]; [reflexivity|].
    cbn [append]. rewrite clean_run_cons.
    change (filepath.IsPathSeparator ".") with false. cbv iota.
    cbn [Ascii.eqb Bool.eqb filepath.ends_element andb].
    change (filepath.IsPathSeparator "/") with true. cbv iota.
    rewrite clean_run_cons.
    change (filepath.IsPathSeparator "/") with true. reflexivity. }
  rewrite Hstart, clean_run_name by assumption.
  destruct Hpost as [<-|[<-|[]]]; [reflexivity|].
  rewrite clean_run_cons. reflexivity.
Qed.

Lemma decorated_not_empty (pre u post : string) :
  SimpleName u -> (pre ++ u ++ post)%string <> "".
Proof.
  intros (Hne & _) H. destruct pre; [|discriminate].
  destruct u; [congruence|discriminate].
Qed.

Lemma decorated_first (pre u post : string) :
  In pre [""; "./"] -> SimpleName u ->
  exists c rest, (pre ++ u ++ post)%string = String c rest
                 /\ filepath.IsPathSeparator c = false.
Proof.
  intros Hpre (Hne & _ & _ & Hfree).
  destruct Hpre as [<-|[<-|[]]].
  - destruct u as [|c u]; [congruence|].
    apply contains_separator_cons in Hfree. destruct Hfree as [Hc _].
    exists c, (u ++ post)%string. split; [reflexivity|exact Hc].
  - eexists _, _. split; reflexivity.
Qed.

Lemma list_not_empty {A : Type} (a b : list A) :
  a <> [] -> (List.length (a ++ b) =? 0)%nat = false.
Proof.
  intros Ha. destruct a; [congruence|reflexivity].
Qed.

Lemma name_bytes_not_empty (u : string) :
  SimpleName u -> rev (list_ascii_of_string u) <> [].
Proof.
  intros (Hne & _). destruct u as [|c u]; [congruence|].
  cbn [list_ascii_of_string rev]. intros H.
  apply app_eq_nil in H. destruct H as [_ H]. discriminate.
Qed.

(** [Join] of a directory and a simple name, written as it is or after
    [./] or before a slash: the base of the directory, then the name. *)
Lemma Join_name (dir pre u post : string) :
  In pre [""; "./"] -> In post [""; "/"] -> SimpleName u ->
  filepath.Join [dir; pre ++ u ++ post] = (join_base dir ++ u)%string.
Proof.
  intros Hpre Hpost Hu.
  pose proof (decorated_not_empty pre u post Hu) as Hne.
  pose proof (name_bytes_not_empty u Hu) as Hbytes.
  destruct dir as [|c rest].
  - cbn [filepath.Join String.eqb negb strings.Join join_base append].
    destruct (String.eqb_spec (pre ++ u ++ post) "") as [|_]; [congruence|].
    cbn [negb]. unfold filepath.Clean.
    destruct (String.eqb_spec (pre ++ u ++ post) "") as [|_]; [congruence|].
    destruct (decorated_first pre u post Hpre Hu) as (c & rest & Hfirst & Hc).
    assert (Hrooted : match (pre ++ u ++ post)%string with
                      | String c _ => filepath.IsPathSeparator c
                      | EmptyString => false
                      end = false) by (rewrite Hfirst; exact Hc).
    rewrite Hrooted.
    fold (clean_run false (pre ++ u ++ post) [] 0).
    rewrite clean_run_decorated by assumption.
    rewrite list_not_empty by assumption.
    fold (buffer_string
            (rev (list_ascii_of_string u) ++ with_separator false [])%list).
    rewrite buffer_string_name. reflexivity.
  - cbn [filepath.Join String.eqb negb strings.Join].
    unfold filepath.Clean.
    cbn [append String.eqb String.length strings.drop].
    unfold join_base, filepath.Separator.
    destruct (filepath.IsPathSeparator c) eqn:Hc.
    + rewrite (clean_loop_fuel true _
                 (String.length (rest ++ String "/" (pre ++ u ++ post))))
        by lia.
      fold (clean_run true (rest ++ String "/" (pre ++ u ++ post))
              ["/"%char] 1).
      rewrite (clean_run_app true _ (String.length rest)) by lia.
      destruct (clean_run true rest ["/"%char] 1) as [out' dotdot'].
      rewrite clean_run_cons.
      change (filepath.IsPathSeparator "/") with true. cbv iota.
      rewrite clean_run_decorated by assumption.
      rewrite list_not_empty by assumption.
      fold (buffer_string
              (rev (list_ascii_of_string u) ++ with_separator true out')%list).
      apply buffer_string_name.
    + change (String c (rest ++ String "/" (pre ++ u ++ post)))
        with (String c rest ++ String "/" (pre ++ u ++ post))%string.
      change (S (String.length (rest ++ String "/" (pre ++ u ++ post))))
        with (String.length
                (String c rest ++ String "/" (pre ++ u ++ post))).
      fold (clean_run false (String c rest ++ String "/" (pre ++ u ++ post))
              [] 0).
      rewrite (clean_run_app false _ (String.length (String c rest))) by lia.
      destruct (clean_run false (String c rest) [] 0) as [out' dotdot'].
      rewrite clean_run_cons.
      change (filepath.IsPathSeparator "/") with true. cbv iota.
      rewrite clean_run_decorated by assumption.
      rewrite list_not_empty by assumption.
      fold (buffer_string
              (rev (list_ascii_of_string u) ++ with_separator false out')%list).
      apply buffer_string_name.
Qed.


Lemma Join_simple_name (dir u : string) :
  SimpleName u -> filepath.Join [dir; u] = (join_base dir ++ u)%string.
Proof.
  intros Hu. rewrite <- (append_nil_r u) at 1.
  apply (Join_name dir "" u ""); simpl; auto.
Qed.

(** A separator at the end of a path, or a separator and a period, do not
    change what the path is cleaned to. *)
Lemma Clean_trailing (c : ascii) (rest tail : string) :
  In tail [""; "."] ->
  filepath.Clean (String c rest ++ String filepath.Separator "" ++ tail)
  = filepath.Clean (String c rest).
Proof.
  intros Htail. unfold filepath.Clean, filepath.Separator.
  cbn [append String.eqb String.length strings.drop].
  assert (Hend : forall rooted out dotdot,
             clean_run rooted (String "/" tail) out dotdot = (out, dotdot)).
  { intros rooted out dotdot. rewrite clean_run_cons.
    change (filepath.IsPathSeparator "/") with true. cbv iota.
    destruct Htail as [<-|[<-|[]]]; reflexivity. }
  destruct (filepath.IsPathSeparator c).
  - rewrite (clean_loop_fuel true _
               (String.length (rest ++ String "/" tail))) by lia.
    fold (clean_run true (rest ++ String "/" tail) ["/"%char] 1).
    rewrite (clean_run_app true _ (String.length rest)) by lia.
    rewrite (clean_loop_fuel true (S (String.length rest))
               (String.length rest)) by lia.
    fold (clean_run true rest ["/"%char] 1).
    destruct (clean_run true rest ["/"%char] 1) as [out' dotdot'].
    rewrite Hend. reflexivity.
  - change (String c (rest ++ String "/" tail))
      with (String c rest ++ String "/" tail)%string.
    change (S (String.length (rest ++ String "/" tail)))
      with (String.length (String c rest ++ String "/" tail)).
    fold (clean_run false (String c rest ++ String "/" tail) [] 0).
    rewrite (clean_run_app false _ (String.length (String c rest))) by lia.
    change (S (String.length rest)) with (String.length (String c rest)).
    fold (clean_run false (String c rest) [] 0).
    destruct (clean_run false (String c rest) [] 0) as [out' dotdot'].
    rewrite Hend. reflexivity.
Qed.


Section BlocksDirectory.
Implicit Type cfg : TSDBConfig.t.


(** X19. Users with different simple IDs get different blocks directories. *)
Theorem BlocksDir_injective cfg (userID userID' : string) :
  SimpleName userID -> SimpleName userID' -> userID <> userID' ->
  result (BlocksDir userID) cfg <> result (BlocksDir userID') cfg.
Proof.
  intros Hu Hu' Hne. unfold result, BlocksDir, bind, load, ret. cbn [fst].
  rewrite (Join_simple_name _ userID Hu), (Join_simple_name _ userID' Hu').
  intros Heq. apply Hne. revert Heq.
  generalize (join_base (TSDBConfig.Dir cfg)).
  intros base. induction base as [|b base IH]; simpl; [tauto|].
  intros H. injection H as H. exact (IH H).
Qed.

(** X20. The ID is not checked: written after [./] or before a slash, a simple
    name gives the directory of the name itself. *)
Theorem BlocksDir_aliases cfg (userID : string) :
  SimpleName userID ->
  result (BlocksDir ("./" ++ userID)) cfg = result (BlocksDir userID) cfg
  /\ result (BlocksDir (userID ++ "/")) cfg = result (BlocksDir userID) cfg.
Proof.
  intros Hu. unfold result, BlocksDir, bind, load, ret. cbn [fst].
  rewrite (Join_simple_name _ userID Hu). split.
  - replace ("./" ++ userID)%string with ("./" ++ userID ++ "")%string
      by (rewrite append_nil_r; reflexivity).
    apply (Join_name _ "./" userID ""); simpl; auto.
  - apply (Join_name _ "" userID "/"); simpl; auto.
Qed.

(** X26. The empty ID and the ID [.] are not refused either: their directory
    is [Dir] itself, cleaned, which holds the directory of every user; with
    an empty [Dir] it is the empty path for the empty ID and [.] for the
    ID [.]. *)
Theorem BlocksDir_of_no_user cfg :
  result (BlocksDir "") cfg
  = (if String.eqb (TSDBConfig.Dir cfg) "" then ""
     else filepath.Clean (TSDBConfig.Dir cfg))
  /\ result (BlocksDir ".") cfg
     = (if String.eqb (TSDBConfig.Dir cfg) "" then "."
        else filepath.Clean (TSDBConfig.Dir cfg)).
Proof.
  unfold result, BlocksDir, bind, load, ret. cbn [fst].
  destruct (TSDBConfig.Dir cfg) as [|c rest]; [split; reflexivity|].
  cbn [String.eqb filepath.Join negb strings.Join].
  split; apply Clean_trailing; simpl; auto.
Qed.

End BlocksDirectory.

(* ================================================================== *)
(** * The properties on sample configurations *)

(** The defaults of [RegisterFlags], from the zero value. *)
Lemma RegisterFlags_defaults :
  after (TSDBConfig.RegisterFlags (prom := prometheus)) TSDBConfig.zero
  = defaults.
Proof. reflexivity. Qed.

Lemma defaults_accepted :
  result (TSDBConfig.Validate (prom := prometheus)) defaults = None.
Proof. reflexivity. Qed.

(** Evaluating a constraint on a sample configuration. *)
Ltac evaluated :=
  repeat split;
  first
    [ exists 4096; reflexivity
    | exists 14; split; [intro; discriminate|reflexivity]
    | vm_compute;
      first [reflexivity | intro; discriminate | intros _; reflexivity] ].

(** C1 on the defaults with a stripe size of 3. *)
Lemma stripe_size_power_of_two_witness :
  let cfg :=
    configured [2 * time.Hour] (1 * time.Minute) 10 (1 * time.Minute)
      (4 * 1024 * 1024) 3 32 in
  GoInt.InRange (TSDBConfig.StripeSize cfg)
  /\ ValidBeforeStripeSize (prom := prometheus) cfg
  /\ result (TSDBConfig.Validate (prom := prometheus)) cfg
     = Some errInvalidStripeSize.
Proof.
  intros cfg.
  assert (Hr : GoInt.InRange (TSDBConfig.StripeSize cfg)) by evaluated.
  assert (Hv : ValidBeforeStripeSize (prom := prometheus) cfg) by evaluated.
  split; [exact Hr|]. split; [exact Hv|].
  apply (stripe_size_power_of_two (prom := prometheus) cfg Hr Hv).
  simpl. tauto.
Defined.

(** C2 as stated fails: the defaults with an out-of-order capacity of 0,
    of -1 or of 256 are accepted. *)
Lemma out_of_order_capacity_outside_range_accepted :
  let cfg capacity :=
    configured [2 * time.Hour] (1 * time.Minute) 10 (1 * time.Minute)
      (4 * 1024 * 1024) 16384 capacity in
  (TSDBConfig.OutOfOrderCapacityMax (cfg 0) = 0
   /\ result (TSDBConfig.Validate (prom := prometheus)) (cfg 0) = None)
  /\ (TSDBConfig.OutOfOrderCapacityMax (cfg (-1)) = -1
      /\ result (TSDBConfig.Validate (prom := prometheus)) (cfg (-1)) = None)
  /\ (TSDBConfig.OutOfOrderCapacityMax (cfg 256) = 256
      /\ result (TSDBConfig.Validate (prom := prometheus)) (cfg 256) = None).
Proof. cbv zeta. repeat split. Qed.

(** C3 on the defaults with a head compaction interval of 16 minutes. *)
Lemma head_compaction_interval_bounds_witness :
  let cfg :=
    configured [2 * time.Hour] (1 * time.Minute) 10 (16 * time.Minute)
      (4 * 1024 * 1024) 16384 32 in
  ValidBeforeCompactionInterval cfg
  /\ TSDBConfig.HeadCompactionInterval cfg > 15 * time.Minute
  /\ result (TSDBConfig.Validate (prom := prometheus)) cfg
     = Some errInvalidCompactionInterval.
Proof.
  intros cfg.
  assert (Hv : ValidBeforeCompactionInterval cfg) by evaluated.
  split; [exact Hv|]. split; [reflexivity|].
  apply (head_compaction_interval_bounds (prom := prometheus) cfg Hv).
  right. reflexivity.
Defined.

(** C4 as stated fails: with shipping disabled, a ship concurrency of 0
    is accepted. *)
Lemma ship_concurrency_zero_accepted_without_shipping :
  let cfg :=
    configured [2 * time.Hour] 0 0 (1 * time.Minute) (4 * 1024 * 1024)
      16384 32 in
  TSDBConfig.ShipConcurrency cfg <= 0
  /\ result (TSDBConfig.Validate (prom := prometheus)) cfg = None.
Proof. cbv zeta. split; [intro; discriminate|reflexivity]. Qed.

(** C4 with shipping enabled: the defaults with a ship concurrency of 0. *)
Lemma ship_concurrency_checked_when_shipping_witness :
  let cfg :=
    configured [2 * time.Hour] (1 * time.Minute) 0 (1 * time.Minute)
      (4 * 1024 * 1024) 16384 32 in
  result TSDBConfig.IsBlocksShippingEnabled cfg = true
  /\ TSDBConfig.ShipConcurrency cfg <= 0
  /\ result (TSDBConfig.Validate (prom := prometheus)) cfg
     = Some errInvalidShipConcurrency.
Proof.
  cbv zeta. split; [reflexivity|]. split; [intro; discriminate|].
  apply (ship_concurrency_checked_when_shipping (prom := prometheus));
    [reflexivity|intro; discriminate].
Defined.

(** C5 on the defaults with a write buffer of 1024 bytes, below
    Prometheus's minimum. *)
Lemma write_buffer_size_bounds_witness :
  let cfg :=
    configured [2 * time.Hour] (1 * time.Minute) 10 (1 * time.Minute) 1024
      16384 32 in
  ValidBeforeWriteBufferSize cfg
  /\ TSDBConfig.HeadChunksWriteBufferSize cfg
     < chunks_MinWriteBufferSize (PrometheusConsts := prometheus)
  /\ result (TSDBConfig.Validate (prom := prometheus)) cfg
     = Some (TSDBConfig.errWriteBufferSize (prom := prometheus)).
Proof.
  intros cfg.
  assert (Hv : ValidBeforeWriteBufferSize cfg) by evaluated.
  split; [exact Hv|]. split; [reflexivity|].
  apply (write_buffer_size_bounds (prom := prometheus) cfg Hv).
  left. reflexivity.
Defined.

(** The message of the write buffer error with Prometheus's bounds. *)
Lemma errWriteBufferSize_message :
  errors.Error (TSDBConfig.errWriteBufferSize (prom := prometheus))
  = "head chunks write buffer size must be a multiple of 1024 between 65536 and 8388608".
Proof. reflexivity. Qed.

(** C6 on the defaults without block ranges. *)
Lemma empty_block_ranges_rejected_witness :
  let cfg :=
    configured [] (1 * time.Minute) 10 (1 * time.Minute) (4 * 1024 * 1024)
      16384 32 in
  GoInt.InRange (TSDBConfig.StripeSize cfg)
  /\ ValidBeforeBlockRanges (prom := prometheus) cfg
  /\ TSDBConfig.BlockRanges cfg = []
  /\ result (TSDBConfig.Validate (prom := prometheus)) cfg
     = Some errEmptyBlockranges
  /\ errors.Error errEmptyBlockranges = "empty block ranges for TSDB".
Proof.
  intros cfg.
  assert (Hr : GoInt.InRange (TSDBConfig.StripeSize cfg)) by evaluated.
  assert (Hv : ValidBeforeBlockRanges (prom := prometheus) cfg) by evaluated.
  split; [exact Hr|]. split; [exact Hv|]. split; [reflexivity|].
  apply (empty_block_ranges_rejected (prom := prometheus) cfg Hr Hv).
  reflexivity.
Defined.

(** C7 on a bucket store whose three caches are invalid and whose
    deprecated flag is set: the batch size of 0 is what is reported, and
    nothing is logged. *)
Lemma streaming_batch_size_checked_first_witness :
  BucketStoreConfig.StreamingBatchSize (store_configured 0 1) <= 0
  /\ BucketStoreConfig.Validate (store_configured 0 1) []
     = (Some errInvalidStreamingBatchSize, []).
Proof.
  split; [intro; discriminate|].
  apply (streaming_batch_size_checked_first (ext := failing_caches)
           (store_configured 0 1) []).
  intro; discriminate.
Defined.

(** With a valid batch size the same bucket store reports its first
    invalid cache. *)
Lemma store_configured_index_cache_failure :
  BucketStoreConfig.Validate (store_configured 5000 1) []
  = (Some (errors.Wrap (errors.New "unsupported index cache backend")
             "index-cache configuration"), []).
Proof. reflexivity. Qed.

(** C9 on a list of durations printed with every unit, the extreme ones
    included. *)
Lemma DurationList_round_trip_go_witness :
  let d :=
    [2 * time.Hour; 90 * time.Second; 1500 * time.Microsecond; 1500; 999;
     0; -1; 1234567890123; 9223372036854775807; -9223372036854775808] in
  d <> []
  /\ Forall IsDuration d
  /\ result (DurationList.String (tm := go_time)) d
     = "2h0m0s,1m30s,1.5ms,1.5" ++ gotime.micro_sign
         ++ "s,999ns,0s,-1ns,20m34.567890123s,2562047h47m16.854775807s,-2562047h47m16.854775808s"
  /\ DurationList.Set_ (tm := go_time)
       (result (DurationList.String (tm := go_time)) d) [time.Hour]
     = (None, d).
Proof.
  intros d.
  assert (Hne : d <> []) by discriminate.
  assert (Hd : Forall IsDuration d)
    by (repeat constructor; vm_compute; intuition discriminate).
  split; [exact Hne|]. split; [exact Hd|]. split; [vm_compute; reflexivity|].
  apply (DurationList_round_trip_go d [time.Hour] Hne Hd).
Defined.

(** X1 with the functions of Go's package time, on the default block
    ranges followed by a day. *)
Lemma DurationList_round_trip_witness :
  let d := [2 * time.Hour; 24 * time.Hour] in
  d <> []
  /\ Forall (RoundTrips (tm := go_time)) d
  /\ result (DurationList.String (tm := go_time)) d = "2h0m0s,24h0m0s"
  /\ DurationList.Set_ (tm := go_time) "2h0m0s,24h0m0s" [] = (None, d).
Proof.
  intros d.
  assert (Hne : d <> []) by discriminate.
  assert (Hd : Forall (RoundTrips (tm := go_time)) d)
    by (repeat constructor; vm_compute; reflexivity).
  split; [exact Hne|]. split; [exact Hd|]. split; [reflexivity|].
  apply (DurationList_round_trip (tm := go_time) d [] Hne Hd).
Defined.

(** X2 on the defaults, which are accepted. *)
Lemma Validate_accepts_iff_witness :
  GoInt.InRange (TSDBConfig.StripeSize defaults)
  /\ ValidBeforeBlockRanges (prom := prometheus) defaults
  /\ ValidBlockRanges defaults
  /\ ValidWALSegmentSize defaults.
Proof.
  assert (Hr : GoInt.InRange (TSDBConfig.StripeSize defaults)) by evaluated.
  split; [exact Hr|].
  apply (Validate_accepts_iff (prom := prometheus) defaults Hr).
  reflexivity.
Defined.

(** X3 on the defaults with shipping disabled and no ship concurrency. *)
Lemma ship_concurrency_unchecked_when_disabled_witness :
  let cfg :=
    configured [2 * time.Hour] 0 0 (1 * time.Minute) (4 * 1024 * 1024)
      16384 32 in
  result TSDBConfig.IsBlocksShippingEnabled cfg = false
  /\ result (TSDBConfig.Validate (prom := prometheus)) cfg
     <> Some errInvalidShipConcurrency.
Proof.
  intros cfg. split; [reflexivity|].
  apply (ship_concurrency_unchecked_when_disabled (prom := prometheus) cfg).
  reflexivity.
Defined.

(** X4 on the sample bucket store with the default batch size. *)
Lemma BucketStoreConfig_Validate_result_witness :
  0 < BucketStoreConfig.StreamingBatchSize (store_configured 5000 0)
  /\ result (BucketStoreConfig.Validate (store_configured 5000 0)) []
     = Some (errors.Wrap (errors.New "unsupported index cache backend")
               "index-cache configuration").
Proof.
  split; [reflexivity|].
  apply (BucketStoreConfig_Validate_result (ext := failing_caches)
           (store_configured 5000 0) []).
  reflexivity.
Defined.

(** X5 on a blocks storage whose TSDB has a stripe size of 3. *)
Lemma blocks_storage_early_failure_silent_witness :
  let cfg :=
    BlocksStorageConfig.mk (ext := failing_caches) tt (store_configured 5000 1)
      (configured [2 * time.Hour] (1 * time.Minute) 10 (1 * time.Minute)
         (4 * 1024 * 1024) 3 32) in
  result (TSDBConfig.Validate (prom := prometheus))
    (BlocksStorageConfig.TSDB cfg) = Some errInvalidStripeSize
  /\ BlocksStorageConfig.Validate (prom := prometheus) cfg []
     = (Some errInvalidStripeSize, []).
Proof.
  intros cfg. split; [reflexivity|].
  assert (Hresult : result (BlocksStorageConfig.Validate (prom := prometheus)
                              cfg) [] = Some errInvalidStripeSize)
    by reflexivity.
  assert (Hafter : after (BlocksStorageConfig.Validate (prom := prometheus)
                            cfg) [] = []).
  { apply (blocks_storage_early_failure_silent (prom := prometheus)
             (ext := failing_caches) cfg []).
    right. discriminate. }
  unfold result, after in *.
  destruct (BlocksStorageConfig.Validate cfg []) as [r l]. cbn [fst snd] in *.
  rewrite Hresult, Hafter. reflexivity.
Defined.

(** X7 on the defaults and the defaults with another retention, another
    directory and another out-of-order capacity. *)
Lemma Validate_footprint_witness :
  let cfg' :=
    TSDBConfig.mk "/data/tsdb" [2 * time.Hour] (24 * time.Hour)
      (1 * time.Minute) 10 (1 * time.Minute) 1 (1 * time.Hour)
      (4 * 1024 * 1024) 0%float 16384 false (128 * 1024 * 1024) false
      (13 * time.Hour) false 1000000 (1 * units.Gibibyte) 10 false 0 0
      (10 * time.Second) 100 false in
  SameCheckedFields defaults cfg'
  /\ result (TSDBConfig.Validate (prom := prometheus)) defaults
     = result (TSDBConfig.Validate (prom := prometheus)) cfg'.
Proof.
  intros cfg'.
  assert (Hsame : SameCheckedFields defaults cfg') by (repeat split).
  split; [exact Hsame|].
  apply (Validate_footprint (prom := prometheus) defaults cfg' Hsame).
Defined.

(** X9 on the defaults with an opening concurrency of 0. *)
Lemma Validate_reports_first_violation_witness :
  let cfg :=
    TSDBConfig.mk "./tsdb/" [2 * time.Hour] (13 * time.Hour)
      (1 * time.Minute) 10 (1 * time.Minute) 1 (1 * time.Hour)
      (4 * 1024 * 1024) 0%float 16384 false (128 * 1024 * 1024) false
      (13 * time.Hour) false 1000000 (1 * units.Gibibyte) 0 false 0 32
      (10 * time.Second) 100 false in
  GoInt.InRange (TSDBConfig.StripeSize cfg)
  /\ ValidShipConcurrency cfg
  /\ ~ ValidOpeningConcurrency cfg
  /\ result (TSDBConfig.Validate (prom := prometheus)) cfg
     = Some errInvalidOpeningConcurrency.
Proof.
  intros cfg.
  assert (Hr : GoInt.InRange (TSDBConfig.StripeSize cfg)) by evaluated.
  assert (Hs : ValidShipConcurrency cfg) by (intros _; reflexivity).
  assert (Ho : ~ ValidOpeningConcurrency cfg) by (intros H; discriminate H).
  split; [exact Hr|]. split; [exact Hs|]. split; [exact Ho|].
  apply (Validate_reports_first_violation (prom := prometheus) cfg Hr).
  split; assumption.
Defined.

(** X11 with Prometheus's defaults and Go's package time, on block ranges
    of an hour, of minus thirty minutes and of nothing. *)
Lemma block_ranges_flag_keeps_valid_witness :
  let registered :=
    after (TSDBConfig.RegisterFlags (prom := prometheus)) TSDBConfig.zero in
  let set := on_BlockRanges (DurationList.Set_ (tm := go_time) "1h,-30m,0s") in
  ValidPrometheusDefaults (prom := prometheus)
  /\ result set registered = None
  /\ TSDBConfig.BlockRanges (after set registered)
     = [time.Hour; - (30 * time.Minute); 0]
  /\ result (TSDBConfig.Validate (prom := prometheus)) (after set registered)
     = None.
Proof.
  intros registered set.
  assert (Hprom : ValidPrometheusDefaults (prom := prometheus)).
  { split; [split; intro; discriminate|].
    split; [exists 4096; reflexivity|reflexivity]. }
  assert (Hset : result set registered = None) by (vm_compute; reflexivity).
  split; [exact Hprom|]. split; [exact Hset|].
  split; [vm_compute; reflexivity|].
  apply (block_ranges_flag_keeps_valid (prom := prometheus) (tm := go_time)
           TSDBConfig.zero "1h,-30m,0s" Hprom Hset).
Defined.

(** X13 with Go's package time, on a string with an empty element. *)
Lemma Set_failure_keeps_prefix_witness :
  strings.Split "2h,,3h" "," = (["2h"] ++ "" :: ["3h"])%list
  /\ ParseTo (tm := go_time) ["2h"] [2 * time.Hour]
  /\ gotime.ParseDuration "" = inr (gotime.errInvalidDuration "")
  /\ DurationList.Set_ (tm := go_time) "2h,,3h" [24 * time.Hour]
     = (Some (gotime.errInvalidDuration ""), [2 * time.Hour]).
Proof.
  assert (Hs : strings.Split "2h,,3h" "," = (["2h"] ++ "" :: ["3h"])%list)
    by reflexivity.
  assert (Hgood : ParseTo (tm := go_time) ["2h"] [2 * time.Hour])
    by (vm_compute; reflexivity).
  assert (Hbad : gotime.ParseDuration "" = inr (gotime.errInvalidDuration ""))
    by reflexivity.
  split; [exact Hs|]. split; [exact Hgood|]. split; [exact Hbad|].
  apply (Set_failure_keeps_prefix (tm := go_time) "2h,,3h" "" ["2h"] ["3h"]
           [2 * time.Hour] [24 * time.Hour] (gotime.errInvalidDuration "")
           Hs Hgood Hbad).
Defined.

(** X14 with Go's package time, on three block ranges. *)
Lemma Set_one_duration_per_element_witness :
  result (DurationList.Set_ (tm := go_time) "2h,4h,8h") [] = None
  /\ List.length (after (DurationList.Set_ (tm := go_time) "2h,4h,8h") [])
     = S (count_byte "," "2h,4h,8h")
  /\ after (DurationList.Set_ (tm := go_time) "2h,4h,8h") [] <> [].
Proof.
  assert (Hset : result (DurationList.Set_ (tm := go_time) "2h,4h,8h") []
                 = None) by (vm_compute; reflexivity).
  split; [exact Hset|].
  apply (Set_one_duration_per_element (tm := go_time) "2h,4h,8h" [] Hset).
Defined.

(** X15 on two block ranges that are not written as [String] writes
    them. *)
Lemma Set_String_Set_witness :
  let d := [2 * time.Hour; 90 * time.Minute] in
  DurationList.Set_ (tm := go_time) "120m,1.5h" [] = (None, d)
  /\ result (DurationList.String (tm := go_time)) d = "2h0m0s,1h30m0s"
  /\ DurationList.Set_ (tm := go_time)
       (result (DurationList.String (tm := go_time)) d) [time.Second]
     = (None, d).
Proof.
  intros d.
  assert (Hset : DurationList.Set_ (tm := go_time) "120m,1.5h" [] = (None, d))
    by (vm_compute; reflexivity).
  split; [exact Hset|]. split; [vm_compute; reflexivity|].
  apply (Set_String_Set "120m,1.5h" [] [time.Second] d Hset).
Defined.

(** X19 on the defaults and two users. *)
Lemma BlocksDir_injective_witness :
  SimpleName "user-1" /\ SimpleName "user-2"
  /\ result (BlocksDir "user-1") defaults = "tsdb/user-1"
  /\ result (BlocksDir "user-1") defaults
     <> result (BlocksDir "user-2") defaults.
Proof.
  assert (H1 : SimpleName "user-1") by (repeat split; discriminate).
  assert (H2 : SimpleName "user-2") by (repeat split; discriminate).
  split; [exact H1|]. split; [exact H2|]. split; [reflexivity|].
  apply (BlocksDir_injective defaults "user-1" "user-2" H1 H2).
  discriminate.
Defined.

(** X20 on the defaults. *)
Lemma BlocksDir_aliases_witness :
  SimpleName "user-1"
  /\ result (BlocksDir ("./" ++ "user-1")) defaults
     = result (BlocksDir "user-1") defaults
  /\ result (BlocksDir ("user-1" ++ "/")) defaults
     = result (BlocksDir "user-1") defaults.
Proof.
  assert (H1 : SimpleName "user-1") by (repeat split; discriminate).
  split; [exact H1|].
  apply (BlocksDir_aliases defaults "user-1" H1).
Defined.

(** X24 with Prometheus's defaults and the sample collaborators, whose
    index cache is invalid. *)
Lemma BlocksStorageConfig_registered_validation_witness :
  let cfg :=
    BlocksStorageConfig.mk (ext := failing_caches) tt (store_configured 0 1)
      TSDBConfig.zero in
  let registered :=
    after (BlocksStorageConfig_RegisterFlags (prom := prometheus)
             (flags := sample_flags)) (cfg, []) in
  ValidPrometheusDefaults (prom := prometheus)
  /\ BlocksStorageConfig.Validate (prom := prometheus)
       (fst registered) (snd registered)
     = (first_failure
          (bucket_Config_Validate
             (BlocksStorageConfig.Bucket (fst registered))
             :: cache_checks
                  (BlocksStorageConfig.BucketStore (fst registered))),
        snd registered).
Proof.
  intros cfg registered.
  assert (Hprom : ValidPrometheusDefaults (prom := prometheus)).
  { split; [split; intro; discriminate|].
    split; [exists 4096; reflexivity|reflexivity]. }
  split; [exact Hprom|].
  apply (BlocksStorageConfig_registered_validation (prom := prometheus)
           (ext := failing_caches) (flags := sample_flags) cfg [] Hprom).
Defined.

(** X25 on the defaults: block ranges of nothing and of minus an hour are
    accepted as the default ones are. *)
Lemma block_ranges_values_not_validated_witness :
  let ranges : DurationList.t := [0; - time.Hour] in
  ranges <> [] /\ [2 * time.Hour] <> @nil Z
  /\ result (TSDBConfig.Validate (prom := prometheus))
       (with_BlockRanges [2 * time.Hour] defaults) = None
  /\ result (TSDBConfig.Validate (prom := prometheus))
       (with_BlockRanges ranges defaults)
     = result (TSDBConfig.Validate (prom := prometheus))
         (with_BlockRanges [2 * time.Hour] defaults).
Proof.
  intros ranges.
  assert (Hne : ranges <> []) by discriminate.
  assert (Hne' : [2 * time.Hour] <> @nil Z) by discriminate.
  split; [exact Hne|]. split; [exact Hne'|]. split; [reflexivity|].
  apply (block_ranges_values_not_validated (prom := prometheus) defaults
           ranges [2 * time.Hour] Hne Hne').
Defined.
